(** * ToDo-Score-App: scoring engine and sharded day-log store

    A shallow embedding of [src/domain/scoring.ts], of the storage module
    [src/infra/storage.ts] (month-sharded version, and the version before
    it), of the effect and the handlers of [src/pages/Today.tsx], of the
    input filter and the statistics of [src/pages/History.tsx] and of the
    handlers of [src/pages/Tasks.tsx], followed by the properties the
    specification states about them and by further properties of the code.

    Conventions of the embedding.
    - A JavaScript [number] that carries a score or a point value is an exact
      rational ([Q]); counters are integers ([Z]); time stamps are integers.
      Rounding of IEEE doubles is therefore not part of the model; the module
      [Float64] evaluates the one place where it matters on the kernel's
      binary64 numbers.
    - An optional field [f?: T] is an [option T]; [undefined] is [None].
    - A [Record<K, V>] is a finite map [gmap K V].
    - [localStorage] is a finite map from keys to items, an item being the
      text stored under the key, viewed through [JSON.parse].
    - A string is the UTF-8 text of the JavaScript string. *)

From Stdlib Require Import ZArith QArith Qround String Ascii List Bool Lia.
From Stdlib Require Import DecimalString.
From Stdlib Require Floats Uint63.
From stdpp Require Import gmap strings list fin_maps sorting.

Local Open Scope string_scope.
Local Open Scope Z_scope.

(** ** Data model ([src/domain/types.ts]) *)

Definition TaskId := string.

Record Task := mkTask {
  id : TaskId;
  title : string;
  points : Q;
  isCore : bool;
  isActive : bool
}.

Definition DayISO := string.

Record DayLog := mkDayLog {
  date : DayISO;
  checks : gmap string bool;
  note : option string;
  excludeFromStats : option bool;
  createdAt : option Z;
  updatedAt : option Z
}.

(** ** Scoring engine ([src/domain/scoring.ts]) *)

Module Rank.
Inductive t := A | S | SS | SSS.
End Rank.
Abbreviation Rank := Rank.t.

Record ScoreResult := mkScoreResult {
  rawScore : Q;
  coreTotal : Z;
  coreDone : Z;
  coreIncompleteCount : Z;
  showRank : bool;
  rank : option Rank
}.

(** [checks[t.id]] used as a condition: the entry is present and [true]. *)
Definition checked (checks : gmap string bool) (k : TaskId) : bool :=
  match checks !! k with
  | Some b => b
  | None => false
  end.

Definition activeTasks (tasks : list Task) : list Task :=
  List.filter (fun t => isActive t) tasks.

Definition coreTasks (tasks : list Task) : list Task :=
  List.filter (fun t => isActive t && isCore t) tasks.

Definition bonusTasks (tasks : list Task) : list Task :=
  List.filter (fun t => isActive t && negb (isCore t)) tasks.

Definition countDone (tasks : list Task) (checks : gmap string bool) : Z :=
  fold_left (fun n t => if checked checks (id t) then n + 1 else n) tasks 0.

Definition sumBonusPoints (tasks : list Task) (checks : gmap string bool) : Q :=
  fold_left (fun total t => if checked checks (id t) then (total + points t)%Q else total)
            tasks (0 : Q).

Definition calcRank (score : Q) : Rank :=
  if Qle_bool 150 score then Rank.SSS
  else if Qle_bool 120 score then Rank.SS
  else if Qle_bool 101 score then Rank.S
  else Rank.A.

Definition calcScore (tasks : list Task) (dayLog : DayLog) : ScoreResult :=
  let actives := activeTasks tasks in
  let cores := coreTasks actives in
  let bonuses := bonusTasks actives in
  let coreTotal := Z.of_nat (length cores) in
  let coreUnit := if 0 <? coreTotal then (100 / inject_Z coreTotal)%Q else (0 : Q) in
  let coreDone := countDone cores (checks dayLog) in
  let coreIncompleteCount := coreTotal - coreDone in
  let bonusScore := sumBonusPoints bonuses (checks dayLog) in
  let coreScore := (inject_Z coreDone * coreUnit)%Q in
  let rawScore := (coreScore + bonusScore)%Q in
  let showRank := (0 <? coreTotal) && (coreIncompleteCount =? 0) in
  let rank := if showRank then Some (calcRank rawScore) else None in
  {| rawScore := rawScore;
     coreTotal := coreTotal;
     coreDone := coreDone;
     coreIncompleteCount := coreIncompleteCount;
     showRank := showRank;
     rank := rank |}.

(** The active core (resp. bonus) tasks of a task list, as the
    specification words them. *)
Definition activeCore (tasks : list Task) : list Task :=
  List.filter (fun t => isActive t && isCore t) tasks.

Definition activeBonus (tasks : list Task) : list Task :=
  List.filter (fun t => isActive t && negb (isCore t)) tasks.

(** ** Local storage

    An item is the text stored under a key, seen through [JSON.parse]:
    either text that is empty or that [JSON.parse] rejects ([Text]), or the
    text of a JSON value ([Json]).  JSON values are kept at the types the
    read sites of the storage module give them: an object is a map from
    dates to day logs, an array is a list of tasks, and everything else
    (null, booleans, numbers, strings) is [JOther].  Writing
    [JSON.stringify v] stores [Json v], and copying the text of a key to
    another key copies the item.

    The storage module writes arrays under the task key only and objects
    under the day-log keys only.  An object found under the task key gives
    no task, as in the source.  An array found under a day-log key is read
    here as an object without date entries; the source takes the array
    itself for the map, so that it finds the elements under their indices
    and loses what it writes under a date.  The statements about writes
    that are read back are therefore made for the stores that hold no array
    under a day-log key ([wellFormedStore] below), which is what every
    store written by the module is. *)

Inductive json :=
| JObject (m : gmap string DayLog)
| JArray (l : list Task)
| JOther.

Inductive item :=
| Text (s : string)
| Json (v : json).

Record World := mkWorld {
  localStorage : gmap string item;
  migratedOnce : bool
}.

(** State-passing computations over the browser state. *)
Definition M (X : Type) : Type := World -> X * World.

Definition ret {X} (x : X) : M X := fun w => (x, w).

Definition bind {X Y} (c : M X) (k : X -> M Y) : M Y :=
  fun w => let (x, w') := c w in k x w'.

Declare Scope storage_scope.
Delimit Scope storage_scope with M.
Notation "'let*' x ':=' c 'in' k" := (bind c (fun x => k))
  (at level 10, x name, c at level 100, k at level 200) : storage_scope.
Notation "c ';;;' k" := (bind c (fun _ => k))
  (at level 100, k at level 200, right associativity) : storage_scope.

Definition exec {X} (c : M X) (w : World) : World := snd (c w).
Definition eval {X} (c : M X) (w : World) : X := fst (c w).

Definition getItem (k : string) : M (option item) :=
  fun w => (localStorage w !! k, w).

Definition setItem (k : string) (v : item) : M unit :=
  fun w => (tt, {| localStorage := <[k := v]> (localStorage w);
                    migratedOnce := migratedOnce w |}).

Definition removeItem (k : string) : M unit :=
  fun w => (tt, {| localStorage := delete k (localStorage w);
                    migratedOnce := migratedOnce w |}).

(** The keys [localStorage.key(0)], ..., [localStorage.key(length - 1)]. *)
Definition storageKeys : M (list string) :=
  fun w => ((map_to_list (localStorage w)).*1, w).

Module KEYS.
Definition tasks : string := "tasks_v1".
Definition dayLogsV1 : string := "daylogs_v1".
Definition dayLogsV1Backup : string := "daylogs_v1_backup".
End KEYS.

Definition V2_PREFIX : string := "daylogs_v2_".

(** [!raw] for a value returned by [getItem]: null or the empty string. *)
Definition falsy (raw : option item) : bool :=
  match raw with
  | None => true
  | Some (Text "") => true
  | Some _ => false
  end.

Definition safeJsonParse (raw : option item) : option json :=
  if falsy raw then None
  else match raw with
       | Some (Json v) => Some v
       | _ => None
       end.

(** [typeof v === "object"] for a non-null parse result. *)
Definition isObject (v : json) : bool :=
  match v with
  | JObject _ | JArray _ => true
  | JOther => false
  end.

(** A parse result used at type [DayLogMap].  An array is read as a map
    without date keys; the storage module itself never writes one under a
    day-log key, and what is stated about writes that are read back is
    stated for the stores without one ([wellFormedStore]). *)
Definition asDayLogMap (v : json) : gmap string DayLog :=
  match v with
  | JObject m => m
  | _ => ∅
  end.

(** [s.slice(n)] *)
Fixpoint sliceFrom (n : nat) (s : string) : string :=
  match n, s with
  | O, _ => s
  | S n', String _ s' => sliceFrom n' s'
  | S _, EmptyString => EmptyString
  end.

(** ["YYYY-MM-DD" -> "YYYY-MM"]: [day.slice(0, 7)] *)
Definition toMonthISO (day : DayISO) : string := substring 0 7 day.

Definition v2Key (month : string) : string := V2_PREFIX +:+ month.

Definition loadMonthMap (month : string) : M (gmap string DayLog) :=
  (let* raw := getItem (v2Key month) in
   ret (match safeJsonParse raw with
        | Some data => if isObject data then asDayLogMap data else ∅
        | None => ∅
        end))%M.

Definition saveMonthMap (month : string) (map : gmap string DayLog) : M unit :=
  setItem (v2Key month) (Json (JObject map)).

(** The month shard a store holds for [month], as [loadMonthMap] reads it. *)
Definition monthMapOf (st : gmap string item) (month : string)
  : gmap string DayLog :=
  match safeJsonParse (st !! v2Key month) with
  | Some data => if isObject data then asDayLogMap data else ∅
  | None => ∅
  end.

(** A page reload: the store stays, the module-level latch starts over. *)
Definition reload (w : World) : World :=
  {| localStorage := localStorage w; migratedOnce := false |}.

(** The comparator [(a, b) => (a < b ? 1 : a > b ? -1 : 0)] puts [a] before
    [b] when [b <= a]; month keys are pairwise distinct, so every sorting
    algorithm returns the same list.  Strings are compared character by
    character on their codes, which is the order of ["YYYY-MM"] keys. *)
Definition monthDesc : relation string := flip String.le.

Definition listV2Months : M (list string) :=
  (let* ks := storageKeys in
   let months :=
     omap (fun k => if String.prefix V2_PREFIX k
                    then Some (sliceFrom (String.length V2_PREFIX) k)
                    else None) ks in
   ret (merge_sort monthDesc months))%M.

(** [bucket[month] ??= {}; bucket[month][date] = log] *)
Definition bucketAdd (bucket : gmap string (gmap string DayLog))
    (entry : string * DayLog) : gmap string (gmap string DayLog) :=
  let month := toMonthISO entry.1 in
  <[month := <[entry.1 := entry.2]> (default ∅ (bucket !! month))]> bucket.

Definition bucketByMonth (m : gmap string DayLog)
  : gmap string (gmap string DayLog) :=
  foldl bucketAdd ∅ (map_to_list m).

(** The log a bucket table holds for [d] in the bucket of [month]. *)
Definition bucketEntry (bucket : gmap string (gmap string DayLog))
    (month : string) (d : DayISO) : option DayLog :=
  bucket !! month ≫= (fun mm => mm !! d).

(** Body of the loop that merges one bucket into its shard;
    [{ ...map, ...current }] keeps the entries of [current]. *)
Definition mergeMonth (entry : string * gmap string DayLog) : M unit :=
  (let* current := loadMonthMap entry.1 in
   let merged := current ∪ entry.2 in
   saveMonthMap entry.1 merged)%M.

Fixpoint forEach {X} (body : X -> M unit) (l : list X) : M unit :=
  match l with
  | [] => ret tt
  | x :: l' => (body x ;;; forEach body l')%M
  end.

Definition migrateV1ToV2IfNeeded : M unit :=
  fun w =>
    if migratedOnce w then (tt, w)
    else
      let w1 := {| localStorage := localStorage w; migratedOnce := true |} in
      (let* v1Raw := getItem KEYS.dayLogsV1 in
       if falsy v1Raw then ret tt
       else
         match safeJsonParse v1Raw, v1Raw with
         | Some v1, Some rawText =>
             if negb (isObject v1) then ret tt
             else
               let* backup := getItem KEYS.dayLogsV1Backup in
               (if falsy backup then setItem KEYS.dayLogsV1Backup rawText
                else ret tt) ;;;
               forEach mergeMonth (map_to_list (bucketByMonth (asDayLogMap v1))) ;;;
               removeItem KEYS.dayLogsV1
         | _, _ => ret tt
         end)%M w1.

(** The legacy blob the migration step acts on: the text under the legacy
    key and its parse, when the text is not empty and parses to an object. *)
Definition migratable (st : gmap string item) : option (item * json) :=
  match st !! KEYS.dayLogsV1 with
  | Some rawText =>
      match safeJsonParse (Some rawText) with
      | Some v1 => if isObject v1 then Some (rawText, v1) else None
      | None => None
      end
  | None => None
  end.

(** *** Task registry *)

(** [Math.round]: the nearest integer, halves rounded up. *)
Definition Math_round (x : Q) : Q := inject_Z (Qfloor (x + (1 # 2))%Q).

Definition Math_max (x y : Q) : Q := if Qle_bool x y then y else x.
Definition Math_min (x y : Q) : Q := if Qle_bool x y then x else y.

Definition setPoints (t : Task) (p : Q) : Task :=
  {| id := id t; title := title t; points := p;
     isCore := isCore t; isActive := isActive t |}.

Definition setIsCore (t : Task) (b : bool) : Task :=
  {| id := id t; title := title t; points := points t;
     isCore := b; isActive := isActive t |}.

(** First callback of [loadTasks]; the second component tells whether the
    callback set [changed].  Every rational is finite, so the [isFinite]
    test of the source always takes its first branch. *)
Definition normalizePointsOf (t : Task) : Task * bool :=
  if isCore t then
    if negb (Qeq_bool (points t) 0%Q) then (setPoints t 0%Q, true) else (t, false)
  else
    let p := Math_round (points t) in
    let clamped := Math_min 10%Q (Math_max 1%Q p) in
    if negb (Qeq_bool (points t) clamped) then (setPoints t clamped, true)
    else (t, false).

(** Second callback of [loadTasks], threading [coreCount]. *)
Fixpoint limitCores (coreCount : Z) (tasks : list Task) : list (Task * bool) :=
  match tasks with
  | [] => []
  | t :: rest =>
      if isActive t && isCore t then
        let coreCount := coreCount + 1 in
        if 5 <? coreCount then (setIsCore t false, true) :: limitCores coreCount rest
        else (t, false) :: limitCores coreCount rest
      else (t, false) :: limitCores coreCount rest
  end.

Definition normalizeTasks (tasks : list Task) : list Task * bool :=
  let normalized := List.map normalizePointsOf tasks in
  let limited := limitCores 0 (List.map fst normalized) in
  (List.map fst limited,
   existsb snd normalized || existsb snd limited).

Definition loadTasks : M (list Task) :=
  (let* raw := getItem KEYS.tasks in
   let tasks := match safeJsonParse raw with
                | Some (JArray l) => l
                | _ => []
                end in
   let (limited, changed) := normalizeTasks tasks in
   (if changed then setItem KEYS.tasks (Json (JArray limited)) else ret tt) ;;;
   ret limited)%M.

Definition saveTasks (tasks : list Task) : M unit :=
  setItem KEYS.tasks (Json (JArray tasks)).

(** *** Day logs *)

Definition listAvailableMonths : M (list string) :=
  (migrateV1ToV2IfNeeded ;;; listV2Months)%M.

Definition loadDayLogMapForMonth (month : string) : M (gmap string DayLog) :=
  (migrateV1ToV2IfNeeded ;;; loadMonthMap month)%M.

Definition defaultDayLog (d : DayISO) : DayLog :=
  {| date := d; checks := ∅; note := Some ""; excludeFromStats := Some false;
     createdAt := None; updatedAt := None |}.

Definition getDayLog (d : DayISO) : M DayLog :=
  (migrateV1ToV2IfNeeded ;;;
   let month := toMonthISO d in
   let* map := loadMonthMap month in
   ret (default (defaultDayLog d) (map !! d)))%M.

(** [a ?? b] *)
Definition nullish {X} (a : option X) (b : X) : X :=
  match a with
  | Some x => x
  | None => b
  end.

(** [now] is the value [Date.now()] returns during the call. *)
Definition upsertDayLog (log : DayLog) (now : Z) : M unit :=
  (migrateV1ToV2IfNeeded ;;;
   let month := toMonthISO (date log) in
   let* map := loadMonthMap month in
   let prev := map !! date log in
   let entry :=
     {| date := date log; checks := checks log; note := note log;
        excludeFromStats := excludeFromStats log;
        createdAt := Some (nullish (prev ≫= createdAt) (nullish (createdAt log) now));
        updatedAt := Some now |} in
   saveMonthMap month (<[date log := entry]> map))%M.

Definition deleteDayLog (d : DayISO) : M unit :=
  (migrateV1ToV2IfNeeded ;;;
   let month := toMonthISO d in
   let* map := loadMonthMap month in
   match map !! d with
   | Some _ => saveMonthMap month (delete d map)
   | None => ret tt
   end)%M.

(** A sequence of writes, each with the time of its call. *)
Definition upsertAll (writes : list (DayLog * Z)) : M unit :=
  forEach (fun p => upsertDayLog p.1 p.2) writes.

(** *** Write path of the Today page ([src/pages/Today.tsx]) *)

(** Strings are the UTF-8 text of the JavaScript strings.  [trim] removes
    from both ends the code points of WhiteSpace and LineTerminator:
    U+0009 to U+000D, U+0020, U+00A0, U+1680, U+2000 to U+200A, U+2028,
    U+2029, U+202F, U+205F, U+3000 and U+FEFF.  In UTF-8 these are one,
    two or three bytes long. *)

(** U+0009 TAB, U+000A LF, U+000B VT, U+000C FF, U+000D CR, U+0020 SP. *)
Definition isWhiteSpace (c : ascii) : bool :=
  let n := nat_of_ascii c in
  ((9 <=? n)%nat && (n <=? 13)%nat) || (n =? 32)%nat.

(** U+00A0 NBSP is [C2 A0]. *)
Definition isWhiteSpace2 (c1 c2 : ascii) : bool :=
  (nat_of_ascii c1 =? 194)%nat && (nat_of_ascii c2 =? 160)%nat.

(** U+1680 is [E1 9A 80]; U+2000 to U+200A are [E2 80 80] to [E2 80 8A];
    U+2028, U+2029 and U+202F are [E2 80 A8], [E2 80 A9] and [E2 80 AF];
    U+205F is [E2 81 9F]; U+3000 is [E3 80 80]; U+FEFF is [EF BB BF]. *)
Definition isWhiteSpace3 (c1 c2 c3 : ascii) : bool :=
  let n1 := nat_of_ascii c1 in
  let n2 := nat_of_ascii c2 in
  let n3 := nat_of_ascii c3 in
  ((n1 =? 225) && (n2 =? 154) && (n3 =? 128))%nat
  || ((n1 =? 226) && (n2 =? 128)
      && (((128 <=? n3) && (n3 <=? 138)) || (n3 =? 168) || (n3 =? 169)
          || (n3 =? 175)))%nat
  || ((n1 =? 226) && (n2 =? 129) && (n3 =? 159))%nat
  || ((n1 =? 227) && (n2 =? 128) && (n3 =? 128))%nat
  || ((n1 =? 239) && (n2 =? 187) && (n3 =? 191))%nat.

(** The text of exactly one white-space code point. *)
Definition isWhiteSpaceChar (s : string) : bool :=
  match s with
  | String c1 EmptyString => isWhiteSpace c1
  | String c1 (String c2 EmptyString) => isWhiteSpace2 c1 c2
  | String c1 (String c2 (String c3 EmptyString)) => isWhiteSpace3 c1 c2 c3
  | _ => false
  end.

Fixpoint trimStart (s : string) : string :=
  match s with
  | EmptyString => EmptyString
  | String c1 s1 =>
      if isWhiteSpace c1 then trimStart s1
      else
        match s1 with
        | String c2 s2 =>
            if isWhiteSpace2 c1 c2 then trimStart s2
            else
              match s2 with
              | String c3 s3 =>
                  if isWhiteSpace3 c1 c2 c3 then trimStart s3 else s
              | EmptyString => s
              end
        | EmptyString => s
        end
  end.

(** The white space at the end is removed character by character: once the
    rest is trimmed, what is left is dropped when it is one white-space
    character. *)
Fixpoint trimEnd (s : string) : string :=
  match s with
  | EmptyString => EmptyString
  | String c s' =>
      let r := String c (trimEnd s') in
      if isWhiteSpaceChar r then EmptyString else r
  end.

Definition trim (s : string) : string := trimEnd (trimStart s).

(** [Object.values(checks).some(Boolean)] *)
Definition someChecked (cs : gmap string bool) : bool :=
  existsb (fun b : bool => b) (map_to_list cs).*2.

Definition isEmptyDayLog (cs : gmap string bool) (nt : option string)
    (excl : option bool) : bool :=
  if nullish excl false then false
  else if (0 <? String.length (trim (nullish nt "")))%nat then false
  else negb (someChecked cs).

(** A note that is empty or made of white-space characters only. *)
Fixpoint blankNote (s : string) : bool :=
  match s with
  | EmptyString => true
  | String c1 s1 =>
      if isWhiteSpace c1 then blankNote s1
      else
        match s1 with
        | String c2 s2 =>
            if isWhiteSpace2 c1 c2 then blankNote s2
            else
              match s2 with
              | String c3 s3 => isWhiteSpace3 c1 c2 c3 && blankNote s3
              | EmptyString => false
              end
        | EmptyString => false
        end
  end.

(** [persistDayLog(date, {checks, note, excludeFromStats})] *)
Definition persistDayLog (d : DayISO) (cs : gmap string bool) (nt : string)
    (excl : bool) (now : Z) : M unit :=
  if isEmptyDayLog cs (Some nt) (Some excl) then deleteDayLog d
  else upsertDayLog {| date := d; checks := cs; note := Some nt;
                       excludeFromStats := Some excl;
                       createdAt := None; updatedAt := None |} now.

(** ** The core share on IEEE doubles

    [calcScore] computes [coreDone * (100 / coreTotal) + bonusScore] on
    doubles.  With every core task done and no bonus this is
    [n * (100 / n) + 0]; the definition below is that expression on the
    kernel's binary64 numbers. *)
Module Float64.
Import Floats.

Definition ofNat (n : nat) : float := PrimFloat.of_uint63 (Uint63.of_nat n).

Definition fullCoreScore (n : nat) : float :=
  (ofNat n * (100 / ofNat n) + 0)%float.

Definition calcRank (score : float) : Rank :=
  if PrimFloat.leb 150 score then Rank.SSS
  else if PrimFloat.leb 120 score then Rank.SS
  else if PrimFloat.leb 101 score then Rank.S
  else Rank.A.
End Float64.

(** ** Views of the store used in the statements *)

(** A fresh browser: nothing stored, no migration attempted. *)
Definition emptyWorld : World := {| localStorage := ∅; migratedOnce := false |}.

(** The month a key is the shard of, as the loop of [listV2Months] finds it. *)
Definition monthOfKey (k : string) : option string :=
  if String.prefix V2_PREFIX k
  then Some (sliceFrom (String.length V2_PREFIX) k)
  else None.

(** No JSON array is stored under the legacy key or under the key of a
    month shard.  The module writes only objects there, so a store that is
    well formed stays so. *)
Definition wellFormedStore (st : gmap string item) : Prop :=
  forall k l, st !! k = Some (Json (JArray l)) ->
    k <> KEYS.dayLogsV1 /\ monthOfKey k = None.

(** The entry [upsertDayLog] stores, given the shard it found. *)
Definition upsertEntry (map : gmap string DayLog) (log : DayLog) (now : Z) : DayLog :=
  {| date := date log; checks := checks log; note := note log;
     excludeFromStats := excludeFromStats log;
     createdAt := Some (nullish (map !! date log ≫= createdAt)
                                (nullish (createdAt log) now));
     updatedAt := Some now |}.

(** The stored [createdAt] of a date, in a session past its migration. *)
Definition createdAtOf (w : World) (d : DayISO) : option Z :=
  monthMapOf (localStorage w) (toMonthISO d) !! d ≫= createdAt.

(** No month shard of the store holds an empty day log. *)
Definition noEmptyRows (st : gmap string item) : Prop :=
  forall month d r,
    monthMapOf st month !! d = Some r ->
    isEmptyDayLog (checks r) (note r) (excludeFromStats r) = false.

(** A store is compact when it holds no empty day log, neither in a month
    shard nor in a legacy blob that is still to be migrated. *)
Definition compactStore (st : gmap string item) : Prop :=
  noEmptyRows st
  /\ forall rawText v1 d r,
       migratable st = Some (rawText, v1) ->
       asDayLogMap v1 !! d = Some r ->
       isEmptyDayLog (checks r) (note r) (excludeFromStats r) = false.

(** ** Sample data *)

(** The tasks seeded by the Today page on first use, and a day on which
    the three core tasks are done. *)
Definition seedTasks : list Task :=
  [ mkTask "t_0_1" "drink water" 0 true true;
    mkTask "t_0_2" "go outside" 0 true true;
    mkTask "t_0_3" "read one page" 0 true true;
    mkTask "t_0_4" "stretch" 10 false true;
    mkTask "t_0_5" "tidy one thing" 5 false true ].

Definition coreOnlyDay : DayLog :=
  {| date := "2024-01-15";
     checks := <["t_0_1" := true]> (<["t_0_2" := true]> (<["t_0_3" := true]>
               (<["t_0_4" := false]> ∅)));
     note := Some ""; excludeFromStats := Some false;
     createdAt := None; updatedAt := None |}.

(** Scores 101, 120, 150 and 151 reached with every core task done. *)
Definition oneCore (bonus : list Q) : list Task :=
  mkTask "core" "core" 0 true true
  :: List.map (fun p => mkTask "bonus" "bonus" p false true) bonus.

Definition allDone : DayLog :=
  {| date := "2024-01-15";
     checks := <["core" := true]> (<["bonus" := true]> ∅);
     note := None; excludeFromStats := None;
     createdAt := None; updatedAt := None |}.

(** A store holding only the legacy blob of the migration scenario. *)
Definition legacyLog (d : DayISO) : DayLog :=
  {| date := d; checks := {[ "t_0_1" := true ]}; note := Some "note";
     excludeFromStats := Some false; createdAt := Some 1000; updatedAt := Some 2000 |}.

Definition legacyMap : gmap string DayLog :=
  <["2024-01-15" := legacyLog "2024-01-15"]>
    ({[ "2024-02-01" := legacyLog "2024-02-01" ]}).

Definition legacyWorld : World :=
  {| localStorage := {[ KEYS.dayLogsV1 := Json (JObject legacyMap) ]};
     migratedOnce := false |}.

(** Six active core tasks, as a stored list. *)
Definition coreTask (k : string) : Task := mkTask k k 0 true true.

Definition sixCores : list Task :=
  [coreTask "c1"; coreTask "c2"; coreTask "c3";
   coreTask "c4"; coreTask "c5"; coreTask "c6"].

Definition sixCoresWorld : World := exec (saveTasks sixCores) emptyWorld.

(** ** Notions used by the further properties *)

(** The ranks in ascending order. *)
Definition rankLevel (r : Rank) : nat :=
  match r with
  | Rank.A => 0
  | Rank.S => 1
  | Rank.SS => 2
  | Rank.SSS => 3
  end.

(** The state [loadTasks] aims at: core tasks at 0 points, the others at an
    integer from 1 to 10, at most five active core tasks. *)
Definition validPoints (t : Task) : Prop :=
  if isCore t then (points t == 0)%Q
  else exists z : Z, 1 <= z <= 10 /\ (points t == inject_Z z)%Q.

Definition registryValid (tasks : list Task) : Prop :=
  Forall validPoints tasks /\ (length (activeCore tasks) <= 5)%nat.

(** The list under the task key, as [loadTasks] reads it. *)
Definition storedTasks (w : World) : list Task :=
  match localStorage w !! KEYS.tasks with
  | Some (Json (JArray l)) => l
  | _ => []
  end.

(** ** The full-history view of the day logs ([src/infra/storage.ts]) *)

Fixpoint foldM {X S} (body : S -> X -> M S) (l : list X) (s : S) : M S :=
  match l with
  | [] => ret s
  | x :: l' => (let* s' := body s x in foldM body l' s')%M
  end.

(** [for (const [d, log] of Object.entries(mm)) merged[d] = log] *)
Definition mergeEntries (merged mm : gmap string DayLog) : gmap string DayLog :=
  foldl (fun acc e => <[e.1 := e.2]> acc) merged (map_to_list mm).

Definition loadDayLogMap : M (gmap string DayLog) :=
  (migrateV1ToV2IfNeeded ;;;
   let* months := listV2Months in
   foldM (fun merged m =>
            let* mm := loadMonthMap m in
            ret (mergeEntries merged mm))
         months ∅)%M.

Definition saveDayLogMap (map : gmap string DayLog) : M unit :=
  (migrateV1ToV2IfNeeded ;;;
   forEach (fun e => saveMonthMap e.1 e.2)
           (map_to_list (bucketByMonth map)))%M.

(** Every month shard holds dates of its own month only. *)
Definition shardsKeyed (st : gmap string item) : Prop :=
  forall month d r, monthMapOf st month !! d = Some r -> toMonthISO d = month.

(** ** The storage module before the month shards ([src/infra/storage.ts],
    first version): one blob under [daylogs_v1], no latch. *)
Module V1.

Definition loadDayLogMap : M (gmap string DayLog) :=
  (let* raw := getItem KEYS.dayLogsV1 in
   ret (match safeJsonParse raw with
        | Some data => if isObject data then asDayLogMap data else ∅
        | None => ∅
        end))%M.

Definition saveDayLogMap (map : gmap string DayLog) : M unit :=
  setItem KEYS.dayLogsV1 (Json (JObject map)).

Definition getDayLog (d : DayISO) : M DayLog :=
  (let* map := loadDayLogMap in
   ret (default (defaultDayLog d) (map !! d)))%M.

Definition upsertDayLog (log : DayLog) (now : Z) : M unit :=
  (let* map := loadDayLogMap in
   let prev := map !! date log in
   let entry :=
     {| date := date log; checks := checks log; note := note log;
        excludeFromStats := excludeFromStats log;
        createdAt := Some (nullish (prev ≫= createdAt) (nullish (createdAt log) now));
        updatedAt := Some now |} in
   saveDayLogMap (<[date log := entry]> map))%M.

Definition deleteDayLog (d : DayISO) : M unit :=
  (let* map := loadDayLogMap in
   match map !! d with
   | Some _ => saveDayLogMap (delete d map)
   | None => ret tt
   end)%M.

End V1.

(** ** The input filter of the History page ([src/pages/History.tsx],
    first version).  A typed day log always has its [checks], so the
    fallbacks to other field names are never taken. *)
Definition hasAnyInput (log : option DayLog) : bool :=
  match log with
  | None => false
  | Some log =>
      if match note log with
         | Some memo => (0 <? String.length (trim memo))%nat
         | None => false
         end then true
      else if match excludeFromStats log with
              | Some true => true
              | _ => false
              end then true
      else existsb (fun v : bool => v) (map_to_list (checks log)).*2
  end.

(** ** The Tasks page ([src/pages/Tasks.tsx])

    The state of the component is a record.  An event handler sees the
    state of the render it was created in and yields the next state,
    writing to the store on the way.  [makeId] draws on the clock and on
    [Math.random]; the identifier it returns is a parameter of [submit]. *)
Module Draft.
Record t := mk {
  id : option TaskId;
  title : string;
  points : Q;
  isCore : bool;
  isActive : bool
}.
End Draft.
Abbreviation DraftTask := Draft.t.

(** [findIndex]: the first position that passes the test, [-1] without one. *)
Fixpoint findIndex {X} (p : X -> bool) (l : list X) : Z :=
  match l with
  | [] => -1
  | x :: l' =>
      if p x then 0
      else let i := findIndex p l' in if i <? 0 then -1 else i + 1
  end.

Definition hasId (i : TaskId) (t : Task) : bool := bool_decide (id t = i).

Definition setIsActive (t : Task) (b : bool) : Task :=
  {| id := id t; title := title t; points := points t;
     isCore := isCore t; isActive := b |}.

Module Tasks.

Record State := mkState {
  tasks : list Task;
  draft : DraftTask;
  editingId : option TaskId;
  error : string
}.

Definition newDraft : DraftTask :=
  {| Draft.id := None; Draft.title := ""; Draft.points := 1;
     Draft.isCore := false; Draft.isActive := true |}.

Definition cloneTaskToDraft (t : Task) : DraftTask :=
  {| Draft.id := Some (id t); Draft.title := title t; Draft.points := points t;
     Draft.isCore := isCore t; Draft.isActive := isActive t |}.

(** Every rational is finite, so [Number.isFinite(n)] holds. *)
Definition clampPoints (n : Q) : Q :=
  let v := Math_round n in
  Math_min 10 (Math_max 1 v).

Definition normalizePoints (d : DraftTask) : Q :=
  if Draft.isCore d then 0 else clampPoints (Draft.points d).

Definition initial : State :=
  {| tasks := []; draft := newDraft; editingId := None; error := "" |}.

Definition setTasks (s : State) (next : list Task) : State :=
  {| tasks := next; draft := draft s; editingId := editingId s; error := error s |}.

Definition setDraft (s : State) (d : DraftTask) : State :=
  {| tasks := tasks s; draft := d; editingId := editingId s; error := error s |}.

Definition setError (s : State) (e : string) : State :=
  {| tasks := tasks s; draft := draft s; editingId := editingId s; error := e |}.

(** [useEffect(() => { setTasks(loadTasks()); }, [])] *)
Definition mount (s : State) : M State :=
  (let* loaded := loadTasks in ret (setTasks s loaded))%M.

Definition persist (next : list Task) (s : State) : M State :=
  (saveTasks next ;;; ret (setTasks s next))%M.

Definition resetForm (s : State) : State :=
  {| tasks := tasks s; draft := newDraft; editingId := None; error := "" |}.

Definition startEdit (t : Task) (s : State) : State :=
  {| tasks := tasks s; draft := cloneTaskToDraft t;
     editingId := Some (id t); error := "" |}.

Definition remove (i : TaskId) (s : State) : M State :=
  (let next := List.filter (fun t => negb (hasId i t)) (tasks s) in
   let* s1 := persist next s in
   ret (if bool_decide (editingId s = Some i) then resetForm s1 else s1))%M.

Definition coreLimitOnToggle : string :=
  "最重要タスクは運用中で最大5つまでです。どれかを最重要解除するか、別の最重要を休止してください。".

Definition coreLimitOnForm : string :=
  "最重要タスクは運用中で最大5つまでです。どれかを最重要解除するか、非アクティブにしてください。".

Definition toggleActive (i : TaskId) (s : State) : M State :=
  match List.find (hasId i) (tasks s) with
  | None => ret s
  | Some target =>
      let willActivate := negb (isActive target) in
      let others := List.filter (fun t => negb (hasId i t)) (tasks s) in
      let coreActiveCountNow :=
        Z.of_nat (length (List.filter (fun t => isActive t && isCore t) others)) in
      if willActivate && isCore target && (5 <=? coreActiveCountNow) then
        ret (setError s coreLimitOnToggle)
      else
        let next :=
          List.map (fun t => if hasId i t then setIsActive t (negb (isActive t)) else t)
                   (tasks s) in
        persist next (setError s "")
  end.

(** [excludeId ? ... : tasks]: an absent and an empty identifier are falsy. *)
Definition canEnableCoreActive (excludeId : option TaskId) (s : State) : bool :=
  let others :=
    match excludeId with
    | Some e => if bool_decide (e = "") then tasks s
                else List.filter (fun t => negb (hasId e t)) (tasks s)
    | None => tasks s
    end in
  let coreActiveCountNow :=
    Z.of_nat (length (List.filter (fun t => isActive t && isCore t) others)) in
  coreActiveCountNow <? 5.

(** [dir] is [-1] or [1] in the source. *)
Definition moveTask (i : TaskId) (dir : Z) (s : State) : M State :=
  match List.find (hasId i) (tasks s) with
  | None => ret s
  | Some current =>
      let group := List.filter (fun t => Bool.eqb (isCore t) (isCore current)) (tasks s) in
      let pos := findIndex (hasId i) group in
      let nextPos := pos + dir in
      if (pos <? 0) || (nextPos <? 0) || (Z.of_nat (length group) <=? nextPos) then ret s
      else
        match group !! Z.to_nat nextPos with
        | None => ret s
        | Some neighbor =>
            let neighborId := id neighbor in
            let idxA := findIndex (hasId i) (tasks s) in
            let idxB := findIndex (hasId neighborId) (tasks s) in
            if (idxA <? 0) || (idxB <? 0) then ret s
            else
              match tasks s !! Z.to_nat idxA, tasks s !! Z.to_nat idxB with
              | Some a, Some b =>
                  persist (<[Z.to_nat idxB := a]> (<[Z.to_nat idxA := b]> (tasks s))) s
              | _, _ => ret s
              end
        end
  end.

Definition submit (newId : TaskId) (s : State) : M State :=
  let d := draft s in
  let title := trim (Draft.title d) in
  if bool_decide (title = "") then ret s
  else if Draft.isCore d && Draft.isActive d
          && negb (canEnableCoreActive (editingId s) s) then
    ret (setError s coreLimitOnForm)
  else
    let points := normalizePoints d in
    let editing :=
      match editingId s with
      | Some e => if bool_decide (e = "") then None else Some e
      | None => None
      end in
    match editing with
    | Some e =>
        let next :=
          List.map (fun t => if hasId e t
                             then {| id := id t; title := title; points := points;
                                     isCore := Draft.isCore d;
                                     isActive := Draft.isActive d |}
                             else t)
                   (tasks s) in
        (let* s1 := persist next s in ret (resetForm s1))%M
    | None =>
        let newTask :=
          {| id := newId; title := title; points := points;
             isCore := Draft.isCore d; isActive := Draft.isActive d |} in
        (let* s1 := persist (newTask :: tasks s) s in ret (resetForm s1))%M
    end.

(** The [onChange] handlers of the form. *)
Definition onChangeTitle (v : string) (s : State) : State :=
  let p := draft s in
  setDraft s {| Draft.id := Draft.id p; Draft.title := v; Draft.points := Draft.points p;
                Draft.isCore := Draft.isCore p; Draft.isActive := Draft.isActive p |}.

Definition onChangeIsCore (nextIsCore : bool) (s : State) : State :=
  if nextIsCore && Draft.isActive (draft s)
     && negb (canEnableCoreActive (editingId s) s) then
    setError s coreLimitOnForm
  else
    let p := draft s in
    setDraft (setError s "")
      {| Draft.id := Draft.id p; Draft.title := Draft.title p;
         Draft.points := if nextIsCore then 0 else clampPoints (Draft.points p);
         Draft.isCore := nextIsCore; Draft.isActive := Draft.isActive p |}.

Definition onChangePoints (n : Q) (s : State) : State :=
  let p := draft s in
  setDraft s {| Draft.id := Draft.id p; Draft.title := Draft.title p;
                Draft.points := clampPoints n;
                Draft.isCore := Draft.isCore p; Draft.isActive := Draft.isActive p |}.

Definition onChangeIsActive (nextActive : bool) (s : State) : State :=
  if nextActive && Draft.isCore (draft s)
     && negb (canEnableCoreActive (editingId s) s) then
    setError s coreLimitOnForm
  else
    let p := draft s in
    setDraft (setError s "")
      {| Draft.id := Draft.id p; Draft.title := Draft.title p;
         Draft.points := Draft.points p;
         Draft.isCore := Draft.isCore p; Draft.isActive := nextActive |}.

(** What the user can do on the page. *)
Inductive event :=
| Remove (i : TaskId)
| ToggleActive (i : TaskId)
| MoveTask (i : TaskId) (dir : Z)
| Submit (newId : TaskId)
| StartEdit (t : Task)
| ResetForm
| ChangeTitle (v : string)
| ChangeIsCore (b : bool)
| ChangePoints (n : Q)
| ChangeIsActive (b : bool).

Definition handle (e : event) (s : State) : M State :=
  match e with
  | Remove i => remove i s
  | ToggleActive i => toggleActive i s
  | MoveTask i dir => moveTask i dir s
  | Submit newId => submit newId s
  | StartEdit t => ret (startEdit t s)
  | ResetForm => ret (resetForm s)
  | ChangeTitle v => ret (onChangeTitle v s)
  | ChangeIsCore b => ret (onChangeIsCore b s)
  | ChangePoints n => ret (onChangePoints n s)
  | ChangeIsActive b => ret (onChangeIsActive b s)
  end.

End Tasks.

(** The identifier drawn by [makeId] is new. *)
Definition freshFor (e : Tasks.event) (s : Tasks.State) : Prop :=
  match e with
  | Tasks.Submit newId => newId ∉ List.map id (Tasks.tasks s)
  | _ => True
  end.

(** The task list of the page is valid, its identifiers are distinct, and
    it is the list in the store. *)
Definition pageInv (s : Tasks.State) (w : World) : Prop :=
  registryValid (Tasks.tasks s)
  /\ NoDup (List.map id (Tasks.tasks s))
  /\ storedTasks w = Tasks.tasks s.

Definition seededPage : Tasks.State :=
  Tasks.setTasks Tasks.initial seedTasks.

Definition seededWorld : World := exec (saveTasks seedTasks) emptyWorld.

(** ** The Today page ([src/pages/Today.tsx])

    The state of the component is a record; a handler sees the state of the
    render it was created in, writes to the store and yields the next
    state.  The effect that follows a change of the selected day is run
    with that change.  [Date.now()] is a parameter, as in the store. *)

(** [dayKey > today] on strings, which are compared code by code
    ([isFutureDay] of [src/utils/date.ts]; the page writes
    [selectedDay > todayISO]). *)
Definition isFutureDay (dayKey today : string) : bool := String.ltb today dayKey.

(** The text of an integer in a template literal: its decimal digits
    (as long as it is below 10^21 in size, as every time stamp is). *)
Definition numberToString (n : Z) : string :=
  NilZero.string_of_int (Z.to_int n).

Definition seedTasksIfEmpty (now : Z) (tasks : list Task) : list Task :=
  if (0 <? length tasks)%nat then tasks
  else
    let n := numberToString now in
    [ mkTask ("t_" +:+ n +:+ "_1") "水を飲む" 0 true true;
      mkTask ("t_" +:+ n +:+ "_2") "外に出る（1分）" 0 true true;
      mkTask ("t_" +:+ n +:+ "_3") "本を1ページ読む" 0 true true;
      mkTask ("t_" +:+ n +:+ "_4") "ストレッチ" 10 false true;
      mkTask ("t_" +:+ n +:+ "_5") "片付け1つ" 5 false true ].

Module Today.
Record State := mkState {
  todayISO : DayISO;
  selectedDay : DayISO;
  tasks : list Task;
  checks : gmap string bool;
  note : string;
  excludeFromStats : bool
}.
End Today.

(** The day log the page hands to [calcScore]. *)
Definition pageLog (s : Today.State) : DayLog :=
  {| date := Today.selectedDay s; checks := Today.checks s;
     note := Some (Today.note s);
     excludeFromStats := Some (Today.excludeFromStats s);
     createdAt := None; updatedAt := None |}.

Definition score (s : Today.State) : ScoreResult :=
  calcScore (Today.tasks s) (pageLog s).

(** The effect of the page, run at the start and when the selected day
    changes. *)
Definition loadSelectedDay (now : Z) (s : Today.State) : M Today.State :=
  (let* loaded := loadTasks in
   let loadedTasks := seedTasksIfEmpty now loaded in
   saveTasks loadedTasks ;;;
   let* log := getDayLog (Today.selectedDay s) in
   ret {| Today.todayISO := Today.todayISO s;
          Today.selectedDay := Today.selectedDay s;
          Today.tasks := loadedTasks;
          Today.checks := checks log;
          Today.note := nullish (note log) "";
          Today.excludeFromStats := nullish (excludeFromStats log) false |})%M.

(** [setSelectedDay(d)]: the effect runs again when the day has changed. *)
Definition setSelectedDay (d : DayISO) (now : Z) (s : Today.State) : M Today.State :=
  if bool_decide (d = Today.selectedDay s) then ret s
  else
    loadSelectedDay now
      {| Today.todayISO := Today.todayISO s; Today.selectedDay := d;
         Today.tasks := Today.tasks s; Today.checks := Today.checks s;
         Today.note := Today.note s;
         Today.excludeFromStats := Today.excludeFromStats s |}.

Definition toggle (taskId : string) (now : Z) (s : Today.State) : M Today.State :=
  if isFutureDay (Today.selectedDay s) (Today.todayISO s) then ret s
  else
    let nextChecks :=
      <[taskId := negb (checked (Today.checks s) taskId)]> (Today.checks s) in
    (persistDayLog (Today.selectedDay s) nextChecks (Today.note s)
                   (Today.excludeFromStats s) now ;;;
     ret {| Today.todayISO := Today.todayISO s;
            Today.selectedDay := Today.selectedDay s;
            Today.tasks := Today.tasks s; Today.checks := nextChecks;
            Today.note := Today.note s;
            Today.excludeFromStats := Today.excludeFromStats s |})%M.

Definition onChangeNote (nextNote : string) (now : Z) (s : Today.State)
  : M Today.State :=
  (persistDayLog (Today.selectedDay s) (Today.checks s) nextNote
                 (Today.excludeFromStats s) now ;;;
   ret {| Today.todayISO := Today.todayISO s;
          Today.selectedDay := Today.selectedDay s;
          Today.tasks := Today.tasks s; Today.checks := Today.checks s;
          Today.note := nextNote;
          Today.excludeFromStats := Today.excludeFromStats s |})%M.

Definition onChangeExclude (nextExclude : bool) (now : Z) (s : Today.State)
  : M Today.State :=
  (persistDayLog (Today.selectedDay s) (Today.checks s) (Today.note s)
                 nextExclude now ;;;
   ret {| Today.todayISO := Today.todayISO s;
          Today.selectedDay := Today.selectedDay s;
          Today.tasks := Today.tasks s; Today.checks := Today.checks s;
          Today.note := Today.note s;
          Today.excludeFromStats := nextExclude |})%M.

(** The page shows what is stored for the selected day: the same checks as
    truth values, the same exclusion flag, the same note up to trimming. *)
Definition showsStored (s : Today.State) (w : World) : Prop :=
  let r := eval (getDayLog (Today.selectedDay s)) w in
  (forall k, checked (checks r) k = checked (Today.checks s) k)
  /\ nullish (excludeFromStats r) false = Today.excludeFromStats s
  /\ trim (nullish (note r) "") = trim (Today.note s).

Definition freshPage (today : DayISO) : Today.State :=
  {| Today.todayISO := today; Today.selectedDay := today; Today.tasks := [];
     Today.checks := ∅; Today.note := ""; Today.excludeFromStats := false |}.

(** ** The statistics of the History page ([src/pages/History.tsx])

    [today] is the value of [todayKey()] and [cut] the first of the recent
    days, [genRecentDays(n)[0]]; both depend on the clock and are
    parameters. *)
Module History.
Inductive Mode := recent | month.
Record Summary := mkSummary {
  avg : Q;
  coreMissDays : Z;
  count : Z;
  excludedDays : Z;
  futureDays : Z
}.
End History.

(** [logs[d]?.excludeFromStats] as a condition. *)
Definition excludedDay (logs : gmap string DayLog) (d : DayISO) : bool :=
  match logs !! d with
  | Some log => nullish (excludeFromStats log) false
  | None => false
  end.

(** The variable [dates] of [summary]: the keys of [logs], sorted, from
    [cut] on in the mode [recent].  The keys are pairwise distinct, so the
    sorted list does not depend on the order [Object.keys] lists them in. *)
Definition summaryDates (mode : History.Mode) (cut : DayISO)
    (logs : gmap string DayLog) : list DayISO :=
  let dates := merge_sort String.le (map_to_list logs).*1 in
  match mode with
  | History.recent => List.filter (fun d => String.leb cut d) dates
  | History.month => dates
  end.

(** Body of the loop over [statsDates]; every date is a key of [logs]. *)
Definition addDay (logs : gmap string DayLog) (tasks : list Task)
    (acc : Q * Z) (d : DayISO) : Q * Z :=
  match logs !! d with
  | Some log =>
      let score := calcScore tasks log in
      ((acc.1 + rawScore score)%Q,
       if 0 <? coreIncompleteCount score then acc.2 + 1 else acc.2)
  | None => acc
  end.

Definition summary (mode : History.Mode) (cut today : DayISO)
    (logs : gmap string DayLog) (tasks : list Task) (includeExcluded : bool)
  : History.Summary :=
  let dates := summaryDates mode cut logs in
  let futureDays :=
    Z.of_nat (length (List.filter (fun d => isFutureDay d today) dates)) in
  let statsDates := List.filter (fun d => negb (isFutureDay d today)) dates in
  let statsDates :=
    if negb includeExcluded
    then List.filter (fun d => negb (excludedDay logs d)) statsDates
    else statsDates in
  let excludedDays := Z.of_nat (length (List.filter (excludedDay logs) dates)) in
  if (length statsDates =? 0)%nat then
    {| History.avg := 0; History.coreMissDays := 0; History.count := 0;
       History.excludedDays := excludedDays; History.futureDays := futureDays |}
  else
    let result := fold_left (addDay logs tasks) statsDates (0%Q, 0) in
    {| History.avg := (result.1 / inject_Z (Z.of_nat (length statsDates)))%Q;
       History.coreMissDays := result.2;
       History.count := Z.of_nat (length statsDates);
       History.excludedDays := excludedDays;
       History.futureDays := futureDays |}.

(** * Properties *)

(** *** Scoring lemmas *)

Section ScoringFacts.

Lemma filter_filter_and {X} (p q : X -> bool) (l : list X) :
  List.filter q (List.filter p l) = List.filter (fun x => p x && q x) l.
Proof.
  induction l as [|x l IH]; simpl; [reflexivity|].
  destruct (p x) eqn:Hp; simpl; [destruct (q x)|]; rewrite IH; reflexivity.
Qed.

Lemma coreTasks_activeTasks tasks :
  coreTasks (activeTasks tasks) = activeCore tasks.
Proof.
  unfold coreTasks, activeTasks, activeCore. rewrite filter_filter_and.
  apply List.filter_ext. intros t. destruct (isActive t), (isCore t); reflexivity.
Qed.

Lemma bonusTasks_activeTasks tasks :
  bonusTasks (activeTasks tasks) = activeBonus tasks.
Proof.
  unfold bonusTasks, activeTasks, activeBonus. rewrite filter_filter_and.
  apply List.filter_ext. intros t. destruct (isActive t), (isCore t); reflexivity.
Qed.

Lemma countDone_acc (l : list Task) cs (n : Z) :
  fold_left (fun n t => if checked cs (id t) then n + 1 else n) l n
  = n + countDone l cs.
Proof.
  unfold countDone. revert n.
  induction l as [|t l IH]; intros n; simpl; [lia|].
  destruct (checked cs (id t)).
  - rewrite (IH (n + 1)), (IH (0 + 1)). lia.
  - apply IH.
Qed.

Lemma countDone_cons t l cs :
  countDone (t :: l) cs = (if checked cs (id t) then 1 else 0) + countDone l cs.
Proof.
  unfold countDone at 1. simpl.
  destruct (checked cs (id t)); rewrite countDone_acc; lia.
Qed.

Lemma countDone_bounds l cs : 0 <= countDone l cs <= Z.of_nat (length l).
Proof.
  induction l as [|t l IH]; [unfold countDone; simpl; lia|].
  rewrite countDone_cons. simpl length. destruct (checked cs (id t)); lia.
Qed.

(** The counter reaches the length exactly when every task is checked. *)
Lemma countDone_full l cs :
  countDone l cs = Z.of_nat (length l)
  <-> Forall (fun t => cs !! id t = Some true) l.
Proof.
  induction l as [|t l IH]; [unfold countDone; simpl; split; auto|].
  rewrite countDone_cons. simpl length.
  pose proof (countDone_bounds l cs) as Hb.
  unfold checked. split.
  - intros H. destruct (cs !! id t) as [[|]|] eqn:E; try lia.
    constructor; [assumption | apply IH; lia].
  - intros H. inversion H as [|? ? Ht Hl]; subst.
    rewrite Ht. apply IH in Hl. lia.
Qed.

Lemma sumBonusPoints_none l cs :
  Forall (fun t => cs !! id t <> Some true) l -> sumBonusPoints l cs = (0 : Q).
Proof.
  unfold sumBonusPoints. generalize (0 : Q) as acc.
  induction l as [|t l IH]; intros acc H; simpl; [reflexivity|].
  inversion H as [|? ? Ht Hl]; subst.
  unfold checked at 2. destruct (cs !! id t) as [[|]|]; [congruence| |]; apply IH, Hl.
Qed.

End ScoringFacts.

(** *** The scoring claims *)

Lemma calcScore_coreTotal tasks log :
  coreTotal (calcScore tasks log) = Z.of_nat (length (activeCore tasks)).
Proof. unfold calcScore; simpl. by rewrite coreTasks_activeTasks. Qed.

Lemma calcScore_coreDone tasks log :
  coreDone (calcScore tasks log) = countDone (activeCore tasks) (checks log).
Proof. unfold calcScore; simpl. by rewrite coreTasks_activeTasks. Qed.

Lemma calcScore_showRank_eq tasks log :
  showRank (calcScore tasks log)
  = (0 <? coreTotal (calcScore tasks log))
    && (coreIncompleteCount (calcScore tasks log) =? 0).
Proof. reflexivity. Qed.

Lemma calcScore_incomplete tasks log :
  coreIncompleteCount (calcScore tasks log)
  = coreTotal (calcScore tasks log) - coreDone (calcScore tasks log).
Proof. reflexivity. Qed.

Lemma showRank_true_iff tasks log :
  showRank (calcScore tasks log) = true
  <-> (0 < length (activeCore tasks))%nat
      /\ Forall (fun t => checks log !! id t = Some true) (activeCore tasks).
Proof.
  pose proof (countDone_full (activeCore tasks) (checks log)) as Hfull.
  rewrite calcScore_showRank_eq, calcScore_incomplete,
    calcScore_coreDone, calcScore_coreTotal.
  rewrite andb_true_iff, Z.ltb_lt, Z.eqb_eq, <- Hfull. lia.
Qed.

Lemma calcScore_rank_eq tasks log :
  rank (calcScore tasks log)
  = if showRank (calcScore tasks log)
    then Some (calcRank (rawScore (calcScore tasks log)))
    else None.
Proof. reflexivity. Qed.

(** C1. [showRank] is true exactly when there is at least one active core
    task and every active core task is checked [true] in the log, that is
    when [coreTotal > 0] and [coreIncompleteCount = 0]; with no active core
    task it is false whatever the checks are. *)
Theorem calcScore_showRank_iff (tasks : list Task) (log : DayLog) :
  let r := calcScore tasks log in
  coreTotal r = Z.of_nat (length (activeCore tasks))
  /\ (showRank r = true <-> 0 < coreTotal r /\ coreIncompleteCount r = 0)
  /\ (showRank r = true <->
      (0 < length (activeCore tasks))%nat
      /\ Forall (fun t => checks log !! id t = Some true) (activeCore tasks))
  /\ (coreTotal r = 0 -> showRank r = false).
Proof.
  intros r. subst r.
  pose proof (calcScore_coreTotal tasks log) as Ht.
  pose proof (calcScore_coreDone tasks log) as Hd.
  pose proof (countDone_full (activeCore tasks) (checks log)) as Hfull.
  rewrite calcScore_showRank_eq, calcScore_incomplete, Hd, Ht.
  split; [reflexivity|]. split; [|split].
  - rewrite andb_true_iff, Z.ltb_lt, Z.eqb_eq. reflexivity.
  - rewrite <- Ht, <- Hd, <- calcScore_incomplete, <- calcScore_showRank_eq.
    apply showRank_true_iff.
  - intros H0. rewrite H0. reflexivity.
Qed.

Lemma calcRank_proper (s s' : Q) : (s == s')%Q -> calcRank s = calcRank s'.
Proof.
  intros E. unfold calcRank.
  assert (Hle : forall c : Q, Qle_bool c s = Qle_bool c s').
  { intros c. apply eq_true_iff_eq. rewrite !Qle_bool_iff, E. reflexivity. }
  by rewrite !Hle.
Qed.

(** C2. [calcRank] applies inclusive lower bounds, highest first: at least
    150 is SSS, otherwise at least 120 is SS, otherwise at least 101 is S,
    otherwise A.  The scores 100, 101, 120, 150 and 151 give A, S, SS, SSS
    and SSS, and a result with [showRank] carries the rank of its
    [rawScore]. *)
Theorem calcRank_thresholds :
  (forall s : Q, (150 <= s)%Q -> calcRank s = Rank.SSS)
  /\ (forall s : Q, (120 <= s)%Q -> (s < 150)%Q -> calcRank s = Rank.SS)
  /\ (forall s : Q, (101 <= s)%Q -> (s < 120)%Q -> calcRank s = Rank.S)
  /\ (forall s : Q, (s < 101)%Q -> calcRank s = Rank.A)
  /\ (forall s : Q,
        ((s == 100)%Q -> calcRank s = Rank.A)
        /\ ((s == 101)%Q -> calcRank s = Rank.S)
        /\ ((s == 120)%Q -> calcRank s = Rank.SS)
        /\ ((s == 150)%Q -> calcRank s = Rank.SSS)
        /\ ((s == 151)%Q -> calcRank s = Rank.SSS))
  /\ (forall tasks log,
        rank (calcScore tasks log)
        = if showRank (calcScore tasks log)
          then Some (calcRank (rawScore (calcScore tasks log)))
          else None).
Proof.
  assert (Hno : forall c s : Q, (s < c)%Q -> Qle_bool c s = false).
  { intros c s Hlt. apply not_true_is_false. rewrite Qle_bool_iff.
    by apply Qlt_not_le. }
  assert (Hyes : forall c s : Q, (c <= s)%Q -> Qle_bool c s = true).
  { intros c s. by rewrite Qle_bool_iff. }
  split; [|split; [|split; [|split; [|split]]]].
  - intros s H. unfold calcRank. by rewrite Hyes.
  - intros s H1 H2. unfold calcRank. by rewrite Hno, Hyes.
  - intros s H1 H2. unfold calcRank.
    rewrite (Hno 150%Q), (Hno 120%Q), Hyes; try done.
    eapply Qlt_trans; [exact H2 | reflexivity].
  - intros s H. unfold calcRank.
    rewrite (Hno 150%Q), (Hno 120%Q), (Hno 101%Q); try done;
      (eapply Qlt_trans; [exact H | reflexivity]).
  - intros s. repeat split; intros E; by rewrite (calcRank_proper _ _ E).
  - reflexivity.
Qed.

Lemma Q_full_share (n : Z) : 0 < n -> (inject_Z n * (100 / inject_Z n) == 100)%Q.
Proof.
  intros Hn. field. intros H0.
  unfold Qeq in H0. simpl in H0. lia.
Qed.

(** C3. With N > 0 active core tasks, all of them checked, and no active
    bonus task checked, [rawScore] is N * (100 / N) + 0, which is 100, and
    the rank is A. *)
Theorem calcScore_all_core_no_bonus (tasks : list Task) (log : DayLog) :
  (0 < length (activeCore tasks))%nat ->
  Forall (fun t => checks log !! id t = Some true) (activeCore tasks) ->
  Forall (fun t => checks log !! id t <> Some true) (activeBonus tasks) ->
  let r := calcScore tasks log in
  let n := inject_Z (Z.of_nat (length (activeCore tasks))) in
  rawScore r = (n * (100 / n) + 0)%Q
  /\ (rawScore r == 100)%Q
  /\ showRank r = true
  /\ rank r = Some Rank.A.
Proof.
  intros Hpos Hcore Hbonus r n.
  assert (Hraw : rawScore r = (n * (100 / n) + 0)%Q).
  { subst r n. unfold calcScore; simpl.
    rewrite coreTasks_activeTasks, bonusTasks_activeTasks.
    rewrite (sumBonusPoints_none _ _ Hbonus).
    apply countDone_full in Hcore. rewrite Hcore.
    destruct (0 <? Z.of_nat (length (activeCore tasks))) eqn:E; [reflexivity|].
    apply Z.ltb_ge in E. lia. }
  assert (H100 : (rawScore r == 100)%Q).
  { rewrite Hraw. subst n. rewrite Q_full_share by lia. reflexivity. }
  assert (Hshow : showRank r = true).
  { apply showRank_true_iff. by split. }
  repeat split; try done.
  subst r. rewrite calcScore_rank_eq, Hshow. f_equal.
  by rewrite (calcRank_proper _ 100%Q H100).
Qed.

Lemma calcScore_all_core_no_bonus_witness :
  (rawScore (calcScore seedTasks coreOnlyDay) == 100)%Q
  /\ rank (calcScore seedTasks coreOnlyDay) = Some Rank.A.
Proof.
  assert (H1 : (0 < length (activeCore seedTasks))%nat) by (vm_compute; lia).
  assert (H2 : Forall (fun t => checks coreOnlyDay !! id t = Some true)
                 (activeCore seedTasks)).
  { cbv [activeCore seedTasks List.filter isActive isCore andb].
    repeat constructor. }
  assert (H3 : Forall (fun t => checks coreOnlyDay !! id t <> Some true)
                 (activeBonus seedTasks)).
  { cbv [activeBonus seedTasks List.filter isActive isCore andb negb].
    repeat constructor; vm_compute; discriminate. }
  destruct (calcScore_all_core_no_bonus seedTasks coreOnlyDay H1 H2 H3)
    as (_ & H100 & _ & HA).
  split; assumption.
Defined.

Example rank_at_101 :
  let r := calcScore (oneCore [1%Q]) allDone in
  (rawScore r == 101)%Q /\ showRank r = true /\ rank r = Some Rank.S.
Proof. vm_compute. repeat split. Qed.

Example rank_at_120 :
  let r := calcScore (oneCore [10%Q; 10%Q]) allDone in
  (rawScore r == 120)%Q /\ showRank r = true /\ rank r = Some Rank.SS.
Proof. vm_compute. repeat split. Qed.

Example rank_at_150 :
  let r := calcScore (oneCore [10%Q; 10%Q; 10%Q; 10%Q; 10%Q]) allDone in
  (rawScore r == 150)%Q /\ showRank r = true /\ rank r = Some Rank.SSS.
Proof. vm_compute. repeat split. Qed.

Example rank_at_151 :
  let r := calcScore (oneCore [10%Q; 10%Q; 10%Q; 10%Q; 10%Q; 1%Q]) allDone in
  (rawScore r == 151)%Q /\ showRank r = true /\ rank r = Some Rank.SSS.
Proof. vm_compute. repeat split. Qed.

(** A missed core task hides the rank even when the score passes 100. *)
Example no_rank_when_core_missed :
  let r := calcScore
             (mkTask "other" "other" 0 true true
              :: oneCore [10%Q; 10%Q; 10%Q; 10%Q; 10%Q; 10%Q]) allDone in
  (rawScore r == 110)%Q /\ showRank r = false /\ rank r = None.
Proof. vm_compute. repeat split. Qed.

(** *** The core share on doubles *)

Module Float64Facts.
Import Floats.

(** Up to ten core tasks the double computation gives exactly 100. *)
Lemma fullCoreScore_exact_upto_10 :
  forallb (fun n => PrimFloat.eqb (Float64.fullCoreScore n) 100)
          (seq 1 10) = true.
Proof. vm_compute. reflexivity. Qed.

(** With eleven it is one unit in the last place above 100; the rank is
    still A. *)
Lemma fullCoreScore_11 :
  PrimFloat.eqb (Float64.fullCoreScore 11) 100 = false
  /\ PrimFloat.ltb 100 (Float64.fullCoreScore 11) = true
  /\ PrimFloat.leb (Float64.fullCoreScore 11) 0x1.9000000000001p+6 = true
  /\ Float64.calcRank (Float64.fullCoreScore 11) = Rank.A.
Proof. vm_compute. repeat split. Qed.

(** For every count up to 2000 the double result is within 2^-40 of 100
    and ranks A. *)
Lemma fullCoreScore_close_upto_2000 :
  forallb (fun n =>
             PrimFloat.ltb (PrimFloat.abs (Float64.fullCoreScore n - 100))
                           0x1p-40
             && match Float64.calcRank (Float64.fullCoreScore n) with
                | Rank.A => true
                | _ => false
                end)
          (seq 1 2000) = true.
Proof. vm_compute. reflexivity. Qed.
End Float64Facts.

(** *** Keys and month shards *)

Section KeyFacts.

Lemma v2Key_inj (a b : string) : v2Key a = v2Key b -> a = b.
Proof. unfold v2Key. apply (inj (String.app V2_PREFIX)). Qed.

Lemma v2Key_not_legacy month : v2Key month <> KEYS.dayLogsV1.
Proof. cbv [v2Key V2_PREFIX KEYS.dayLogsV1 String.app]. intros [=]. Qed.

Lemma v2Key_not_backup month : v2Key month <> KEYS.dayLogsV1Backup.
Proof. cbv [v2Key V2_PREFIX KEYS.dayLogsV1Backup String.app]. intros [=]. Qed.

Lemma v2Key_not_tasks month : v2Key month <> KEYS.tasks.
Proof. cbv [v2Key V2_PREFIX KEYS.tasks String.app]. intros [=]. Qed.

Lemma prefix_sliceFrom (p k : string) :
  String.prefix p k = true -> k = p +:+ sliceFrom (String.length p) k.
Proof.
  revert k. induction p as [|c p IH]; intros k H; [reflexivity|].
  destruct k as [|c' k]; [discriminate|]. simpl in H.
  destruct (ascii_dec c c') as [->|]; [|discriminate].
  apply IH in H. change (String c' k = String c' (p +:+ sliceFrom (String.length p) k)).
  by f_equal.
Qed.

Lemma prefix_app (p m : string) : String.prefix p (p +:+ m) = true.
Proof.
  induction p as [|c p IH]; [by destruct m|].
  change (String.prefix (String c p) (String c (p +:+ m)) = true). simpl.
  destruct (ascii_dec c c); [assumption | congruence].
Qed.

Lemma sliceFrom_app (p m : string) : sliceFrom (String.length p) (p +:+ m) = m.
Proof.
  induction p as [|c p IH]; [reflexivity|].
  change (sliceFrom (S (String.length p)) (String c (p +:+ m)) = m). exact IH.
Qed.

Lemma v2Key_prefix month : String.prefix V2_PREFIX (v2Key month) = true.
Proof. apply prefix_app. Qed.

Lemma v2Key_slice month :
  sliceFrom (String.length V2_PREFIX) (v2Key month) = month.
Proof. apply sliceFrom_app. Qed.

Lemma prefix_v2Key k :
  String.prefix V2_PREFIX k = true ->
  k = v2Key (sliceFrom (String.length V2_PREFIX) k).
Proof. apply prefix_sliceFrom. Qed.

Lemma monthMapOf_insert_eq st month mm :
  monthMapOf (<[v2Key month := Json (JObject mm)]> st) month = mm.
Proof. unfold monthMapOf. by rewrite lookup_insert_eq. Qed.

Lemma monthMapOf_insert_ne st k v month :
  k <> v2Key month -> monthMapOf (<[k := v]> st) month = monthMapOf st month.
Proof. intros Hne. unfold monthMapOf. by rewrite lookup_insert_ne. Qed.

Lemma monthMapOf_delete_ne st k month :
  k <> v2Key month -> monthMapOf (delete k st) month = monthMapOf st month.
Proof. intros Hne. unfold monthMapOf. by rewrite lookup_delete_ne. Qed.

Lemma monthMapOf_ext st st' month :
  st' !! v2Key month = st !! v2Key month ->
  monthMapOf st' month = monthMapOf st month.
Proof. intros E. unfold monthMapOf. by rewrite E. Qed.

End KeyFacts.

(** *** Running the storage computations *)

Section RunFacts.

Lemma bind_run {X Y} (c : M X) (k : X -> M Y) w :
  bind c k w = k (c w).1 (c w).2.
Proof. unfold bind. by destruct (c w). Qed.

Lemma exec_bind {X Y} (c : M X) (k : X -> M Y) w :
  exec (bind c k) w = exec (k (eval c w)) (exec c w).
Proof. unfold exec, eval. by rewrite bind_run. Qed.

Lemma eval_bind {X Y} (c : M X) (k : X -> M Y) w :
  eval (bind c k) w = eval (k (eval c w)) (exec c w).
Proof. unfold exec, eval. by rewrite bind_run. Qed.

Lemma loadMonthMap_run month w :
  loadMonthMap month w = (monthMapOf (localStorage w) month, w).
Proof. reflexivity. Qed.

Lemma saveMonthMap_run month mm w :
  saveMonthMap month mm w
  = (tt, {| localStorage := <[v2Key month := Json (JObject mm)]> (localStorage w);
            migratedOnce := migratedOnce w |}).
Proof. reflexivity. Qed.

Lemma mergeMonth_run month mm w :
  exec (mergeMonth (month, mm)) w
  = {| localStorage :=
         <[v2Key month :=
             Json (JObject (monthMapOf (localStorage w) month ∪ mm))]>
           (localStorage w);
       migratedOnce := migratedOnce w |}.
Proof. reflexivity. Qed.

Lemma forEach_cons {X} (body : X -> M unit) x l w :
  exec (forEach body (x :: l)) w = exec (forEach body l) (exec (body x) w).
Proof. simpl forEach. by rewrite exec_bind. Qed.

(** The merge loop writes the shard of every bucket, each from the shard
    found before the loop, and touches no other key. *)
Lemma forEach_mergeMonth_spec (l : list (string * gmap string DayLog)) w :
  NoDup l.*1 ->
  let w' := exec (forEach mergeMonth l) w in
  migratedOnce w' = migratedOnce w
  /\ (forall month mm, (month, mm) ∈ l ->
        localStorage w' !! v2Key month
        = Some (Json (JObject (monthMapOf (localStorage w) month ∪ mm))))
  /\ (forall k, (forall month mm, (month, mm) ∈ l -> k <> v2Key month) ->
        localStorage w' !! k = localStorage w !! k).
Proof.
  revert w. induction l as [|[m0 mm0] l IH]; intros w Hnd w'.
  { split; [reflexivity|]. split; [|reflexivity].
    intros ?? H. by apply elem_of_nil in H. }
  rewrite fmap_cons in Hnd. apply NoDup_cons in Hnd as [Hnotin Hnd].
  subst w'. rewrite forEach_cons, mergeMonth_run.
  set (w1 := {| localStorage := _; migratedOnce := _ |}).
  destruct (IH w1 Hnd) as (Hl & Hin & Hout).
  assert (Hfresh : forall month mm, (month, mm) ∈ l -> month <> m0).
  { intros month mm Hel ->. apply Hnotin.
    apply list_elem_of_fmap. by exists (m0, mm). }
  split; [exact Hl|]. split.
  - intros month mm Hel. apply elem_of_cons in Hel as [[= -> ->]|Hel].
    + rewrite Hout; [by apply lookup_insert_eq|].
      intros month mm Hel E. apply v2Key_inj in E as <-.
      by apply (Hfresh _ _ Hel).
    + rewrite (Hin _ _ Hel). do 3 f_equal. f_equal.
      apply monthMapOf_insert_ne. intros E. apply v2Key_inj in E as <-.
      by apply (Hfresh _ _ Hel).
  - intros k Hk. rewrite Hout.
    + apply lookup_insert_ne. intros E.
      by apply (Hk m0 mm0); [left|].
    + intros month mm Hel. apply (Hk month mm). by right.
Qed.

End RunFacts.

(** *** Bucketing by month *)

Section BucketFacts.

Lemma bucketEntry_default (b : gmap string (gmap string DayLog)) month d :
  default ∅ (b !! month) !! d = bucketEntry b month d.
Proof. unfold bucketEntry. by destruct (b !! month). Qed.

Lemma bucketEntry_bucketAdd b d0 x0 month d :
  bucketEntry (bucketAdd b (d0, x0)) month d
  = if decide (month = toMonthISO d0 /\ d = d0) then Some x0
    else bucketEntry b month d.
Proof.
  unfold bucketAdd; simpl. unfold bucketEntry at 1.
  destruct (decide (toMonthISO d0 = month)) as [<-|Hm].
  - rewrite lookup_insert_eq; simpl.
    destruct (decide (d0 = d)) as [<-|Hd].
    + rewrite lookup_insert_eq. by rewrite decide_True.
    + rewrite lookup_insert_ne by done. rewrite bucketEntry_default.
      rewrite decide_False; [done | intros [_ ->]; done].
  - rewrite lookup_insert_ne by done.
    rewrite decide_False; [done | intros [-> _]; done].
Qed.

Lemma bucketAdd_is_Some b e month :
  is_Some (bucketAdd b e !! month)
  <-> month = toMonthISO e.1 \/ is_Some (b !! month).
Proof.
  unfold bucketAdd.
  destruct (decide (toMonthISO e.1 = month)) as [<-|Hm].
  - rewrite lookup_insert_eq. split; [by left | by eexists].
  - rewrite lookup_insert_ne by done. split; [by right | by intros [->|]].
Qed.

Lemma foldl_bucketAdd_entry (l : list (string * DayLog)) b month d :
  NoDup l.*1 ->
  bucketEntry (foldl bucketAdd b l) month d
  = if decide (toMonthISO d = month)
    then match (list_to_map l : gmap string DayLog) !! d with
         | Some x => Some x
         | None => bucketEntry b month d
         end
    else bucketEntry b month d.
Proof.
  revert b. induction l as [|[d0 x0] l IH]; intros b Hnd.
  { simpl. rewrite lookup_empty. by destruct (decide _). }
  rewrite fmap_cons in Hnd. apply NoDup_cons in Hnd as [Hnotin Hnd].
  simpl foldl. rewrite (IH _ Hnd), bucketEntry_bucketAdd.
  simpl list_to_map.
  destruct (decide (d0 = d)) as [<-|Hd].
  - rewrite lookup_insert_eq.
    rewrite (not_elem_of_list_to_map_1 _ _ Hnotin).
    destruct (decide (toMonthISO d0 = month)) as [<-|Hm].
    + by rewrite decide_True.
    + rewrite decide_False; [done | intros [-> _]; done].
  - rewrite lookup_insert_ne by done.
    rewrite (decide_False (P := _ /\ d = d0)) by (intros [_ ->]; done).
    reflexivity.
Qed.

Lemma foldl_bucketAdd_is_Some (l : list (string * DayLog)) b month :
  is_Some (foldl bucketAdd b l !! month)
  <-> is_Some (b !! month) \/ exists e, e ∈ l /\ toMonthISO e.1 = month.
Proof.
  revert b. induction l as [|e l IH]; intros b; simpl.
  { split; [by left|]. intros [H|(e & He & _)]; [done|].
    by apply elem_of_nil in He. }
  rewrite IH, bucketAdd_is_Some. split.
  - intros [[->|H]|(e' & He' & Hm)].
    + right. exists e. split; [by left | done].
    + by left.
    + right. exists e'. split; [by right | done].
  - intros [H|(e' & He' & Hm)].
    + left. by right.
    + apply elem_of_cons in He' as [->|He'].
      * left. by left.
      * right. by exists e'.
Qed.

(** The bucket of a month holds exactly the legacy entries whose date lies
    in that month. *)
Lemma bucketByMonth_entry (m : gmap string DayLog) month d :
  bucketEntry (bucketByMonth m) month d
  = if decide (toMonthISO d = month) then m !! d else None.
Proof.
  unfold bucketByMonth.
  rewrite foldl_bucketAdd_entry by apply NoDup_fst_map_to_list.
  rewrite list_to_map_to_list. unfold bucketEntry at 1 2.
  rewrite lookup_empty. simpl.
  destruct (decide _); [by destruct (m !! d) | done].
Qed.

Lemma bucketByMonth_is_Some (m : gmap string DayLog) month :
  is_Some (bucketByMonth m !! month)
  <-> exists d x, m !! d = Some x /\ toMonthISO d = month.
Proof.
  unfold bucketByMonth. rewrite foldl_bucketAdd_is_Some, lookup_empty. split.
  - intros [[? [=]]|([d x] & He & Hm)].
    exists d, x. split; [by apply elem_of_map_to_list in He | done].
  - intros (d & x & Hd & Hm). right. exists (d, x).
    split; [by apply elem_of_map_to_list | done].
Qed.

End BucketFacts.

(** *** The migration step *)

Section MigrationFacts.

Lemma migrate_latched_noop w :
  migratedOnce w = true -> migrateV1ToV2IfNeeded w = (tt, w).
Proof. intros H. unfold migrateV1ToV2IfNeeded. by rewrite H. Qed.

Lemma migrate_nothing w :
  migratedOnce w = false ->
  migratable (localStorage w) = None ->
  exec migrateV1ToV2IfNeeded w
  = {| localStorage := localStorage w; migratedOnce := true |}.
Proof.
  intros Hl Hm. unfold exec, migrateV1ToV2IfNeeded, migratable in *.
  rewrite Hl. unfold bind, getItem; simpl.
  destruct (localStorage w !! KEYS.dayLogsV1) as [rawText|]; [|reflexivity].
  destruct (falsy (Some rawText)) eqn:Hf; [reflexivity|].
  destruct (safeJsonParse (Some rawText)) as [v1|]; [|reflexivity].
  destruct (isObject v1); [discriminate | reflexivity].
Qed.

Lemma migrate_something w rawText v1 :
  migratedOnce w = false ->
  migratable (localStorage w) = Some (rawText, v1) ->
  exec migrateV1ToV2IfNeeded w
  = exec (removeItem KEYS.dayLogsV1)
      (exec (forEach mergeMonth (map_to_list (bucketByMonth (asDayLogMap v1))))
         {| localStorage :=
              if falsy (localStorage w !! KEYS.dayLogsV1Backup)
              then <[KEYS.dayLogsV1Backup := rawText]> (localStorage w)
              else localStorage w;
            migratedOnce := true |}).
Proof.
  intros Hl Hm. unfold migratable in Hm.
  destruct (localStorage w !! KEYS.dayLogsV1) as [raw|] eqn:Hraw; [|discriminate].
  destruct (safeJsonParse (Some raw)) as [v|] eqn:Hp; [|discriminate].
  destruct (isObject v) eqn:Ho; [|discriminate].
  injection Hm as -> ->.
  assert (Hf : falsy (Some rawText) = false).
  { unfold safeJsonParse in Hp. by destruct (falsy (Some rawText)). }
  unfold exec at 1. unfold migrateV1ToV2IfNeeded. rewrite Hl.
  cbv beta delta [bind getItem] iota.
  change (localStorage {| localStorage := localStorage w; migratedOnce := true |})
    with (localStorage w).
  rewrite Hraw, Hf, Hp, Ho. simpl negb. cbv beta iota.
  change (localStorage {| localStorage := localStorage w; migratedOnce := true |})
    with (localStorage w).
  unfold exec, removeItem, setItem, ret.
  destruct (falsy (localStorage w !! KEYS.dayLogsV1Backup)) eqn:Hb; simpl;
    rewrite Hb; by destruct (forEach mergeMonth _ _).
Qed.

Lemma migrate_sets_latch w : migratedOnce (exec migrateV1ToV2IfNeeded w) = true.
Proof.
  destruct (migratedOnce w) eqn:Hl.
  { unfold exec. by rewrite migrate_latched_noop. }
  destruct (migratable (localStorage w)) as [[rawText v1]|] eqn:Hm.
  - rewrite (migrate_something _ _ _ Hl Hm).
    unfold exec at 1, removeItem. simpl.
    by destruct (forEach_mergeMonth_spec
                   (map_to_list (bucketByMonth (asDayLogMap v1)))
                   {| localStorage :=
                        if falsy (localStorage w !! KEYS.dayLogsV1Backup)
                        then <[KEYS.dayLogsV1Backup := rawText]> (localStorage w)
                        else localStorage w;
                      migratedOnce := true |}
                   (NoDup_fst_map_to_list _)) as (-> & _).
  - by rewrite migrate_nothing.
Qed.

End MigrationFacts.

Section MigrationSpec.

Variable w : World.
Variable rawText : item.
Variable v1 : json.
Hypothesis Hfirst : migratedOnce w = false.
Hypothesis Hblob : migratable (localStorage w) = Some (rawText, v1).

Local Abbreviation st := (localStorage w).
Local Abbreviation st' := (localStorage (exec migrateV1ToV2IfNeeded w)).
Local Abbreviation bucket := (bucketByMonth (asDayLogMap v1)).

Lemma migrate_legacy_removed : st' !! KEYS.dayLogsV1 = None.
Proof.
  rewrite (migrate_something _ _ _ Hfirst Hblob).
  unfold exec at 1, removeItem. simpl. apply lookup_delete_eq.
Qed.

Lemma migrate_lookup_shard month :
  st' !! v2Key month
  = match bucket !! month with
    | Some mm => Some (Json (JObject (monthMapOf st month ∪ mm)))
    | None => st !! v2Key month
    end.
Proof.
  rewrite (migrate_something _ _ _ Hfirst Hblob).
  unfold exec at 1, removeItem. simpl localStorage.
  rewrite lookup_delete_ne by (apply not_eq_sym, v2Key_not_legacy).
  match goal with |- localStorage (exec _ ?x) !! _ = _ => set (w1 := x) end.
  destruct (forEach_mergeMonth_spec (map_to_list bucket) w1
              (NoDup_fst_map_to_list _)) as (_ & Hin & Hout).
  assert (Hst1 : localStorage w1 !! v2Key month = st !! v2Key month).
  { subst w1. simpl. destruct (falsy _); [|done].
    apply lookup_insert_ne, not_eq_sym, v2Key_not_backup. }
  destruct (bucket !! month) as [mm|] eqn:Hb.
  - rewrite (Hin month mm) by by apply elem_of_map_to_list.
    by rewrite (monthMapOf_ext _ _ _ Hst1).
  - rewrite Hout; [done|]. intros month' mm' Hel E.
    apply v2Key_inj in E as <-. apply elem_of_map_to_list in Hel. congruence.
Qed.

Lemma migrate_backup :
  st' !! KEYS.dayLogsV1Backup
  = if falsy (st !! KEYS.dayLogsV1Backup) then Some rawText
    else st !! KEYS.dayLogsV1Backup.
Proof.
  rewrite (migrate_something _ _ _ Hfirst Hblob).
  unfold exec at 1, removeItem. simpl localStorage.
  rewrite lookup_delete_ne by done.
  match goal with |- localStorage (exec _ ?x) !! _ = _ => set (w1 := x) end.
  destruct (forEach_mergeMonth_spec (map_to_list bucket) w1
              (NoDup_fst_map_to_list _)) as (_ & _ & Hout).
  rewrite Hout by (intros; apply not_eq_sym, v2Key_not_backup).
  subst w1. simpl. destruct (falsy _); [apply lookup_insert_eq | done].
Qed.

Lemma migrate_other_keys k :
  k <> KEYS.dayLogsV1 -> k <> KEYS.dayLogsV1Backup ->
  (forall d x, asDayLogMap v1 !! d = Some x -> k <> v2Key (toMonthISO d)) ->
  st' !! k = st !! k.
Proof.
  intros Hk1 Hk2 Hk3.
  rewrite (migrate_something _ _ _ Hfirst Hblob).
  unfold exec at 1, removeItem. simpl localStorage.
  rewrite lookup_delete_ne by done.
  match goal with |- localStorage (exec _ ?x) !! _ = _ => set (w1 := x) end.
  destruct (forEach_mergeMonth_spec (map_to_list bucket) w1
              (NoDup_fst_map_to_list _)) as (_ & _ & Hout).
  rewrite Hout.
  - subst w1. simpl. destruct (falsy _); [|done].
    by apply lookup_insert_ne.
  - intros month mm Hel. apply elem_of_map_to_list in Hel.
    destruct (proj1 (bucketByMonth_is_Some (asDayLogMap v1) month))
      as (d & x & Hd & <-); [by eexists|]. by apply (Hk3 d x).
Qed.

(** Every month shard after the migration: what the shard held before,
    completed by the legacy entries of that month. *)
Lemma migrate_monthMapOf month :
  monthMapOf st' month = monthMapOf st month ∪ default ∅ (bucket !! month).
Proof.
  unfold monthMapOf at 1. rewrite migrate_lookup_shard.
  destruct (bucket !! month) as [mm|]; simpl.
  - reflexivity.
  - fold (monthMapOf st month). by rewrite (right_id_L ∅ (∪)).
Qed.

Lemma migrate_entry month d :
  monthMapOf st' month !! d
  = match monthMapOf st month !! d with
    | Some x => Some x
    | None => if decide (toMonthISO d = month) then asDayLogMap v1 !! d else None
    end.
Proof.
  rewrite migrate_monthMapOf, lookup_union, bucketEntry_default.
  rewrite bucketByMonth_entry.
  destruct (monthMapOf st month !! d); destruct (decide _);
    try destruct (asDayLogMap v1 !! d); reflexivity.
Qed.

Lemma migrate_shard_exists month :
  is_Some (st' !! v2Key month)
  <-> is_Some (st !! v2Key month)
      \/ exists d x, asDayLogMap v1 !! d = Some x /\ toMonthISO d = month.
Proof.
  rewrite migrate_lookup_shard, <- bucketByMonth_is_Some.
  destruct (bucket !! month) as [mm|].
  - split; [intros _; right; by eexists | intros _; by eexists].
  - split; [by left | intros [H|[? [=]]]; done].
Qed.

End MigrationSpec.

(** *** Listing the months *)

Section MonthListFacts.

Lemma monthDesc_total : Total monthDesc.
Proof. intros a b. unfold monthDesc, flip. destruct (total String.le a b); auto. Qed.

Lemma monthDesc_trans : Transitive monthDesc.
Proof. intros a b c Hab Hbc. unfold monthDesc, flip in *. by etrans. Qed.

Lemma NoDup_omap_inj {X Y} (f : X -> option Y) (l : list X) :
  (forall x y z, f x = Some z -> f y = Some z -> x = y) ->
  NoDup l -> NoDup (omap f l).
Proof.
  intros Hinj. induction 1 as [|x l Hx Hnd IH]; simpl; [constructor|].
  destruct (f x) as [z|] eqn:Hfx; [|exact IH].
  constructor; [|exact IH].
  intros Hel. apply list_elem_of_omap in Hel as (y & Hy & Hfy).
  by rewrite (Hinj _ _ _ Hfx Hfy) in Hx.
Qed.

Lemma monthOfKey_Some k month : monthOfKey k = Some month <-> k = v2Key month.
Proof.
  unfold monthOfKey. split.
  - destruct (String.prefix V2_PREFIX k) eqn:Hp; [|discriminate].
    intros [= <-]. by apply prefix_v2Key.
  - intros ->. by rewrite v2Key_prefix, v2Key_slice.
Qed.

Lemma listV2Months_run w0 :
  listV2Months w0
  = (merge_sort monthDesc (omap monthOfKey (map_to_list (localStorage w0)).*1), w0).
Proof. reflexivity. Qed.

(** [listV2Months] changes nothing and returns, in descending order and
    without repetition, the months that have a shard. *)
Lemma listV2Months_spec w0 :
  exec listV2Months w0 = w0
  /\ StronglySorted monthDesc (eval listV2Months w0)
  /\ NoDup (eval listV2Months w0)
  /\ (forall month,
        month ∈ eval listV2Months w0
        <-> is_Some (localStorage w0 !! v2Key month)).
Proof.
  unfold exec, eval. rewrite listV2Months_run. simpl.
  pose proof monthDesc_total. pose proof monthDesc_trans.
  split; [reflexivity|]. split; [by apply StronglySorted_merge_sort|]. split.
  - rewrite merge_sort_Permutation. apply NoDup_omap_inj.
    + intros x y z Hx Hy. apply monthOfKey_Some in Hx, Hy. congruence.
    + apply NoDup_fst_map_to_list.
  - intros month. rewrite merge_sort_Permutation, list_elem_of_omap. split.
    + intros (k & Hk & Hm). apply monthOfKey_Some in Hm as ->.
      apply list_elem_of_fmap in Hk as ([k v] & -> & Hkv).
      apply elem_of_map_to_list in Hkv. by eexists.
    + intros [v Hv]. exists (v2Key month). split.
      * apply list_elem_of_fmap. exists (v2Key month, v).
        split; [done | by apply elem_of_map_to_list].
      * by apply monthOfKey_Some.
Qed.

End MonthListFacts.

(** *** Migration claims *)

Lemma migratable_object st m :
  st !! KEYS.dayLogsV1 = Some (Json (JObject m)) ->
  migratable st = Some (Json (JObject m), JObject m).
Proof. intros H. unfold migratable. by rewrite H. Qed.

Lemma listAvailableMonths_latched w :
  migratedOnce w = true -> listAvailableMonths w = listV2Months w.
Proof.
  intros H. unfold listAvailableMonths. rewrite bind_run.
  by rewrite migrate_latched_noop.
Qed.

Lemma listAvailableMonths_run w :
  listAvailableMonths w = listV2Months (exec migrateV1ToV2IfNeeded w).
Proof. unfold listAvailableMonths. by rewrite bind_run. Qed.

(** C7. On the first call of a session with a parseable legacy blob [m]
    under the legacy key: the backup key receives the blob unless it already
    held a non-empty text, every legacy entry is found in the shard of its
    month unless that shard already had an entry for the date, which is
    kept, the legacy key is removed, and [listAvailableMonths] lists, in
    descending order and without repetition, the months that have a shard:
    those that had one before and those of the legacy dates. *)
Theorem migration_of_legacy_blob (w : World) (m : gmap string DayLog) :
  migratedOnce w = false ->
  localStorage w !! KEYS.dayLogsV1 = Some (Json (JObject m)) ->
  let st := localStorage w in
  let w' := exec migrateV1ToV2IfNeeded w in
  let st' := localStorage w' in
  let months := eval listAvailableMonths w' in
  st' !! KEYS.dayLogsV1Backup
    = (if falsy (st !! KEYS.dayLogsV1Backup) then Some (Json (JObject m))
       else st !! KEYS.dayLogsV1Backup)
  /\ (forall d log, m !! d = Some log ->
        monthMapOf st' (toMonthISO d) !! d
        = Some (default log (monthMapOf st (toMonthISO d) !! d)))
  /\ (forall month d,
        monthMapOf st' month !! d
        = match monthMapOf st month !! d with
          | Some x => Some x
          | None => if decide (toMonthISO d = month) then m !! d else None
          end)
  /\ st' !! KEYS.dayLogsV1 = None
  /\ eval listAvailableMonths w = months
  /\ StronglySorted monthDesc months
  /\ NoDup months
  /\ (forall month, month ∈ months <-> is_Some (st' !! v2Key month))
  /\ (forall month,
        month ∈ months
        <-> is_Some (st !! v2Key month)
            \/ exists d log, m !! d = Some log /\ toMonthISO d = month).
Proof.
  intros Hfirst Hlegacy st w' st' months.
  pose proof (migratable_object _ _ Hlegacy) as Hblob.
  pose proof (migrate_sets_latch w) as Hlatch.
  assert (Hmonths : months = eval listV2Months w').
  { subst months. unfold eval. by rewrite listAvailableMonths_latched. }
  destruct (listV2Months_spec w') as (_ & Hsorted & Hnd & Hmem).
  split; [exact (migrate_backup w _ _ Hfirst Hblob)|].
  split.
  { intros d log Hd. subst st st' w'.
    rewrite (migrate_entry w _ _ Hfirst Hblob). simpl asDayLogMap.
    rewrite decide_True by done. rewrite Hd.
    by destruct (monthMapOf (localStorage w) (toMonthISO d) !! d). }
  split; [exact (migrate_entry w _ _ Hfirst Hblob)|].
  split; [exact (migrate_legacy_removed w _ _ Hfirst Hblob)|].
  split.
  { rewrite Hmonths. unfold eval. by rewrite listAvailableMonths_run. }
  rewrite Hmonths.
  split; [exact Hsorted|]. split; [exact Hnd|]. split; [exact Hmem|].
  intros month. rewrite Hmem.
  exact (migrate_shard_exists w _ _ Hfirst Hblob month).
Qed.

Lemma migration_of_legacy_blob_witness :
  eval listAvailableMonths legacyWorld = ["2024-02"; "2024-01"]
  /\ localStorage (exec migrateV1ToV2IfNeeded legacyWorld) !! KEYS.dayLogsV1 = None
  /\ localStorage (exec migrateV1ToV2IfNeeded legacyWorld) !! KEYS.dayLogsV1Backup
     = Some (Json (JObject legacyMap)).
Proof.
  destruct (migration_of_legacy_blob legacyWorld legacyMap eq_refl eq_refl)
    as (Hbackup & _ & _ & Hgone & _).
  split; [vm_compute; reflexivity|]. split; [exact Hgone | exact Hbackup].
Defined.

(** The scenario of the specification, evaluated. *)
Example migration_scenario :
  let w' := exec listAvailableMonths legacyWorld in
  eval listAvailableMonths legacyWorld = ["2024-02"; "2024-01"]
  /\ localStorage w' !! KEYS.dayLogsV1 = None
  /\ localStorage w' !! KEYS.dayLogsV1Backup = Some (Json (JObject legacyMap))
  /\ monthMapOf (localStorage w') "2024-01" = {[ "2024-01-15" := legacyLog "2024-01-15" ]}
  /\ monthMapOf (localStorage w') "2024-02" = {[ "2024-02-01" := legacyLog "2024-02-01" ]}.
Proof. vm_compute. repeat split. Qed.

(** C8. The migration step is idempotent: a second call changes nothing,
    being a no-op once the latch is set; run again after a page reload (the
    latch cleared) it leaves the store as the first run left it; and with the
    legacy key absent, empty, unparseable or holding a JSON scalar the store
    is left as it is. *)
Theorem migration_idempotent :
  (forall w, exec migrateV1ToV2IfNeeded (exec migrateV1ToV2IfNeeded w)
             = exec migrateV1ToV2IfNeeded w)
  /\ (forall w, migratedOnce w = true -> exec migrateV1ToV2IfNeeded w = w)
  /\ (forall w,
        localStorage
          (exec migrateV1ToV2IfNeeded
             (reload (exec migrateV1ToV2IfNeeded (reload w))))
        = localStorage (exec migrateV1ToV2IfNeeded (reload w)))
  /\ (forall w,
        match localStorage w !! KEYS.dayLogsV1 with
        | None | Some (Text _) | Some (Json JOther) => True
        | Some (Json (JObject _)) | Some (Json (JArray _)) => False
        end ->
        localStorage (exec migrateV1ToV2IfNeeded w) = localStorage w).
Proof.
  assert (Hnoop : forall w, migratedOnce w = true ->
                            exec migrateV1ToV2IfNeeded w = w).
  { intros w H. unfold exec. by rewrite migrate_latched_noop. }
  split; [|split; [exact Hnoop|split]].
  - intros w. apply Hnoop, migrate_sets_latch.
  - intros w. set (w0 := reload w).
    assert (Hl : migratedOnce w0 = false) by reflexivity.
    destruct (migratable (localStorage w0)) as [[rawText v1]|] eqn:Hm.
    + rewrite (migrate_nothing (reload _)); [reflexivity..|].
      unfold migratable. simpl localStorage.
      by rewrite (migrate_legacy_removed w0 _ _ Hl Hm).
    + rewrite (migrate_nothing w0 Hl Hm). simpl.
      by rewrite (migrate_nothing (reload _)).
  - intros w Hlegacy. destruct (migratedOnce w) eqn:Hl.
    { by rewrite Hnoop. }
    rewrite migrate_nothing; [done..|].
    unfold migratable.
    destruct (localStorage w !! KEYS.dayLogsV1) as [[s|[]]|]; try done.
    by destruct s.
Qed.

(** *** Reading and writing day logs *)

Section DayLogFacts.

Lemma after_migrate {X} (k : M X) w :
  (migrateV1ToV2IfNeeded ;;; k)%M w = k (exec migrateV1ToV2IfNeeded w).
Proof. by rewrite bind_run. Qed.

Lemma getDayLog_run d w :
  let w1 := exec migrateV1ToV2IfNeeded w in
  getDayLog d w
  = (default (defaultDayLog d) (monthMapOf (localStorage w1) (toMonthISO d) !! d), w1).
Proof. intros w1. unfold getDayLog. by rewrite after_migrate. Qed.

Lemma loadDayLogMapForMonth_run month w :
  let w1 := exec migrateV1ToV2IfNeeded w in
  loadDayLogMapForMonth month w = (monthMapOf (localStorage w1) month, w1).
Proof. intros w1. unfold loadDayLogMapForMonth. by rewrite after_migrate. Qed.

Lemma upsertDayLog_run log now w :
  let w1 := exec migrateV1ToV2IfNeeded w in
  let month := toMonthISO (date log) in
  let map := monthMapOf (localStorage w1) month in
  upsertDayLog log now w
  = (tt, {| localStorage :=
              <[v2Key month :=
                  Json (JObject (<[date log := upsertEntry map log now]> map))]>
                (localStorage w1);
            migratedOnce := true |}).
Proof.
  intros w1 month map. unfold upsertDayLog. rewrite after_migrate.
  fold w1. rewrite bind_run, loadMonthMap_run. cbn [fst snd].
  rewrite saveMonthMap_run. subst w1. by rewrite migrate_sets_latch.
Qed.

Lemma deleteDayLog_run d w :
  let w1 := exec migrateV1ToV2IfNeeded w in
  let month := toMonthISO d in
  let map := monthMapOf (localStorage w1) month in
  deleteDayLog d w
  = (tt, match map !! d with
         | Some _ =>
             {| localStorage :=
                  <[v2Key month := Json (JObject (delete d map))]> (localStorage w1);
                migratedOnce := true |}
         | None => w1
         end).
Proof.
  intros w1 month map. unfold deleteDayLog. rewrite after_migrate.
  fold w1. rewrite bind_run, loadMonthMap_run. cbn [fst snd].
  fold month map. destruct (map !! d); [|reflexivity].
  rewrite saveMonthMap_run. subst w1. by rewrite migrate_sets_latch.
Qed.

Lemma migrate_id_latched w :
  migratedOnce w = true -> exec migrateV1ToV2IfNeeded w = w.
Proof. intros H. unfold exec. by rewrite migrate_latched_noop. Qed.

(** Reading back right after a write returns the entry written. *)
Lemma upsert_get log now w :
  let w1 := exec migrateV1ToV2IfNeeded w in
  let map := monthMapOf (localStorage w1) (toMonthISO (date log)) in
  eval (getDayLog (date log)) (exec (upsertDayLog log now) w)
  = upsertEntry map log now.
Proof.
  intros w1 map. unfold exec at 1, eval. rewrite upsertDayLog_run. cbn [snd].
  match goal with |- (getDayLog _ ?x).1 = _ => set (w2 := x) end.
  rewrite getDayLog_run. cbn [fst].
  rewrite (migrate_id_latched w2) by reflexivity. subst w2. cbn [localStorage].
  by rewrite monthMapOf_insert_eq, lookup_insert_eq.
Qed.

Lemma upsert_keeps_createdAt d c log now w :
  migratedOnce w = true ->
  createdAtOf w d = Some c ->
  let w' := exec (upsertDayLog log now) w in
  migratedOnce w' = true /\ createdAtOf w' d = Some c.
Proof.
  intros Hl Hc w'. subst w'. unfold exec. rewrite upsertDayLog_run. cbn [snd].
  split; [reflexivity|]. fold (exec migrateV1ToV2IfNeeded w).
  rewrite (migrate_id_latched _ Hl).
  unfold createdAtOf in *. cbn [localStorage].
  destruct (decide (toMonthISO (date log) = toMonthISO d)) as [E|Hne].
  - rewrite E, monthMapOf_insert_eq.
    destruct (decide (date log = d)) as [Ed|Hd].
    + subst d. rewrite lookup_insert_eq. cbn. by rewrite Hc.
    + by rewrite lookup_insert_ne.
  - rewrite monthMapOf_insert_ne; [done|].
    intros E. by apply v2Key_inj in E.
Qed.

Lemma upsertAll_keeps_createdAt d c writes w :
  migratedOnce w = true ->
  createdAtOf w d = Some c ->
  let w' := exec (upsertAll writes) w in
  migratedOnce w' = true /\ createdAtOf w' d = Some c.
Proof.
  revert w. induction writes as [|[log now] writes IH]; intros w Hl Hc w'.
  { by split. }
  subst w'. unfold upsertAll. rewrite forEach_cons. simpl.
  destruct (upsert_keeps_createdAt d c log now w Hl Hc) as [Hl1 Hc1].
  by apply IH.
Qed.

Lemma getDayLog_createdAt d c w :
  migratedOnce w = true -> createdAtOf w d = Some c ->
  createdAt (eval (getDayLog d) w) = Some c.
Proof.
  intros Hl Hc. unfold eval. rewrite getDayLog_run. simpl.
  rewrite (migrate_id_latched _ Hl). unfold createdAtOf in Hc.
  by destruct (monthMapOf (localStorage w) (toMonthISO d) !! d).
Qed.

End DayLogFacts.

(** *** Well-formed stores *)

Section WellFormedFacts.

Lemma wellFormedStore_empty : wellFormedStore (localStorage emptyWorld).
Proof.
  intros k l H. unfold emptyWorld in H. cbn [localStorage] in H.
  by rewrite lookup_empty in H.
Qed.

Lemma wellFormedStore_legacy : wellFormedStore (localStorage legacyWorld).
Proof.
  intros k l H. unfold legacyWorld in H. cbn [localStorage] in H.
  by apply lookup_singleton_Some in H as [_ [=]].
Qed.

Lemma wellFormedStore_insert_object st k m :
  wellFormedStore st -> wellFormedStore (<[k := Json (JObject m)]> st).
Proof.
  intros Hwf k' l H. apply lookup_insert_Some in H as [[_ [=]]|[_ H]].
  by apply (Hwf k' l).
Qed.

Lemma wellFormedStore_delete st k :
  wellFormedStore st -> wellFormedStore (delete k st).
Proof.
  intros Hwf k' l H. apply lookup_delete_Some in H as [_ H]. by apply (Hwf k' l).
Qed.

End WellFormedFacts.

(** *** Day-log claims *)

(** C4. On a well-formed store, after [upsertDayLog log],
    [getDayLog (date log)] returns a record with the date, checks, note and
    exclusion flag of [log], stamped with the time of the write as
    [updatedAt]; its [createdAt] is the one of the record stored before
    when there was one with a [createdAt], else the one [log] carries, else
    the time of the write; and no later write, whatever its date, changes
    that [createdAt], while a later write to the date sets [updatedAt] to
    its own time. *)
Theorem upsert_then_get (w : World) (log : DayLog) (now : Z) :
  wellFormedStore (localStorage w) ->
  let w1 := exec (upsertDayLog log now) w in
  let r := eval (getDayLog (date log)) w1 in
  let prev := eval (loadDayLogMapForMonth (toMonthISO (date log))) w !! date log in
  date r = date log
  /\ checks r = checks log
  /\ note r = note log
  /\ excludeFromStats r = excludeFromStats log
  /\ updatedAt r = Some now
  /\ createdAt r = Some (nullish (prev ≫= createdAt) (nullish (createdAt log) now))
  /\ (forall writes : list (DayLog * Z),
        createdAt (eval (getDayLog (date log)) (exec (upsertAll writes) w1))
        = createdAt r)
  /\ (forall (log' : DayLog) (now' : Z),
        date log' = date log ->
        let r' := eval (getDayLog (date log)) (exec (upsertDayLog log' now') w1) in
        createdAt r' = createdAt r
        /\ updatedAt r' = Some now'
        /\ checks r' = checks log'
        /\ note r' = note log'
        /\ excludeFromStats r' = excludeFromStats log').
Proof.
  intros _ w1 r prev.
  assert (Hr : r = upsertEntry
                     (monthMapOf (localStorage (exec migrateV1ToV2IfNeeded w))
                                 (toMonthISO (date log))) log now).
  { subst r w1. apply upsert_get. }
  assert (Hprev : prev = monthMapOf (localStorage (exec migrateV1ToV2IfNeeded w))
                           (toMonthISO (date log)) !! date log).
  { subst prev. unfold eval. by rewrite loadDayLogMapForMonth_run. }
  assert (Hl1 : migratedOnce w1 = true).
  { subst w1. unfold exec. by rewrite upsertDayLog_run. }
  assert (Hc1 : createdAtOf w1 (date log) = createdAt r).
  { rewrite Hr. subst w1. unfold exec, createdAtOf.
    rewrite upsertDayLog_run. cbn [snd localStorage].
    by rewrite monthMapOf_insert_eq, lookup_insert_eq. }
  assert (Hsome : createdAt r
                  = Some (nullish (prev ≫= createdAt) (nullish (createdAt log) now))).
  { by rewrite Hr, Hprev. }
  rewrite Hsome in Hc1.
  do 5 (split; [by rewrite Hr|]).
  split; [exact Hsome|]. split.
  - intros writes. rewrite Hsome.
    destruct (upsertAll_keeps_createdAt _ _ writes w1 Hl1 Hc1) as [Hl2 Hc2].
    by apply getDayLog_createdAt.
  - intros log' now' Hd r'. split.
    + subst r'. rewrite Hsome.
      destruct (upsert_keeps_createdAt _ _ log' now' w1 Hl1 Hc1) as [Hl2 Hc2].
      by apply getDayLog_createdAt.
    + subst r'. rewrite <- Hd, upsert_get. by repeat split.
Qed.

Lemma upsert_then_get_witness :
  let r := eval (getDayLog (date coreOnlyDay))
             (exec (upsertDayLog coreOnlyDay 5000) legacyWorld) in
  checks r = checks coreOnlyDay /\ note r = note coreOnlyDay
  /\ updatedAt r = Some 5000.
Proof.
  pose proof (upsert_then_get legacyWorld coreOnlyDay 5000 wellFormedStore_legacy)
    as (_ & Hc & Hn & _ & Hu & _).
  split; [exact Hc|]. split; [exact Hn | exact Hu].
Defined.

(** C10. On a well-formed store with no record for the date of [log],
    [upsertDayLog] stores the [createdAt] that [log] carries, and the time
    of the write when [log] carries none. *)
Theorem upsert_first_createdAt (w : World) (log : DayLog) (now : Z) :
  wellFormedStore (localStorage w) ->
  eval (loadDayLogMapForMonth (toMonthISO (date log))) w !! date log = None ->
  let w1 := exec (upsertDayLog log now) w in
  createdAt (eval (getDayLog (date log)) w1)
    = Some (match createdAt log with Some c => c | None => now end)
  /\ eval (loadDayLogMapForMonth (toMonthISO (date log))) w1 !! date log
     = Some {| date := date log; checks := checks log; note := note log;
               excludeFromStats := excludeFromStats log;
               createdAt := Some (match createdAt log with
                                  | Some c => c
                                  | None => now
                                  end);
               updatedAt := Some now |}.
Proof.
  intros _ Hnone w1. unfold eval in Hnone.
  rewrite loadDayLogMapForMonth_run in Hnone. cbn [fst] in Hnone.
  assert (Hentry :
    upsertEntry (monthMapOf (localStorage (exec migrateV1ToV2IfNeeded w))
                            (toMonthISO (date log))) log now
    = {| date := date log; checks := checks log; note := note log;
         excludeFromStats := excludeFromStats log;
         createdAt := Some (match createdAt log with
                            | Some c => c
                            | None => now
                            end);
         updatedAt := Some now |}).
  { unfold upsertEntry. by rewrite Hnone. }
  split.
  - subst w1. by rewrite upsert_get, Hentry.
  - subst w1. unfold exec, eval. rewrite upsertDayLog_run. cbn [snd].
    match goal with |- (loadDayLogMapForMonth _ ?x).1 !! _ = _ => set (w2 := x) end.
    rewrite loadDayLogMapForMonth_run. cbn [fst].
    rewrite (migrate_id_latched w2) by reflexivity. subst w2. cbn [localStorage].
    by rewrite monthMapOf_insert_eq, lookup_insert_eq, Hentry.
Qed.

Lemma upsert_first_createdAt_witness :
  createdAt (eval (getDayLog "2024-01-15")
               (exec (upsertDayLog (legacyLog "2024-01-15") 5000) emptyWorld))
  = Some 1000
  /\ createdAt (eval (getDayLog "2024-01-15")
                  (exec (upsertDayLog coreOnlyDay 5000) emptyWorld))
     = Some 5000.
Proof.
  split.
  - exact (proj1 (upsert_first_createdAt emptyWorld (legacyLog "2024-01-15") 5000
                    wellFormedStore_empty eq_refl)).
  - exact (proj1 (upsert_first_createdAt emptyWorld coreOnlyDay 5000
                    wellFormedStore_empty eq_refl)).
Defined.

(** Three writes to one day: [createdAt] stays, [updatedAt] follows. *)
Example three_writes :
  let w1 := exec (upsertDayLog coreOnlyDay 5000) emptyWorld in
  let w2 := exec (upsertDayLog coreOnlyDay 6000) w1 in
  let w3 := exec (upsertDayLog (legacyLog "2024-01-15") 7000) w2 in
  let r := eval (getDayLog "2024-01-15") w3 in
  createdAt r = Some 5000 /\ updatedAt r = Some 7000
  /\ checks r = {[ "t_0_1" := true ]} /\ note r = Some "note".
Proof. vm_compute. repeat split. Qed.

(** *** Empty day logs *)

Section EmptyLogFacts.

Lemma isWhiteSpace2_not1 c1 c2 : isWhiteSpace2 c1 c2 = true -> isWhiteSpace c1 = false.
Proof.
  unfold isWhiteSpace2, isWhiteSpace. intros H.
  apply andb_true_iff in H as [H _]. apply Nat.eqb_eq in H. by rewrite H.
Qed.

Lemma isWhiteSpace3_not1 c1 c2 c3 :
  isWhiteSpace3 c1 c2 c3 = true -> isWhiteSpace c1 = false.
Proof.
  unfold isWhiteSpace3, isWhiteSpace. cbv zeta. intros H.
  repeat (apply orb_true_iff in H as [H|H]);
    repeat (apply andb_true_iff in H as [H ?]);
    apply Nat.eqb_eq in H; by rewrite H.
Qed.

Lemma isWhiteSpace3_not2 c1 c2 c3 :
  isWhiteSpace3 c1 c2 c3 = true -> isWhiteSpace2 c1 c2 = false.
Proof.
  unfold isWhiteSpace3, isWhiteSpace2. cbv zeta. intros H.
  repeat (apply orb_true_iff in H as [H|H]);
    repeat (apply andb_true_iff in H as [H ?]);
    apply Nat.eqb_eq in H; by rewrite H.
Qed.

(** One white-space character in front does not change blankness. *)
Lemma blankNote_app_char t s :
  isWhiteSpaceChar t = true -> blankNote (t ++ s) = blankNote s.
Proof.
  destruct t as [|c1 [|c2 [|c3 [|c4 t]]]]; try done; cbn [isWhiteSpaceChar]; intros H.
  - change (blankNote (String c1 s) = blankNote s).
    cbn [blankNote]. by rewrite H.
  - change (blankNote (String c1 (String c2 s)) = blankNote s).
    cbn [blankNote]. by rewrite (isWhiteSpace2_not1 _ _ H), H.
  - change (blankNote (String c1 (String c2 (String c3 s))) = blankNote s).
    cbn [blankNote].
    by rewrite (isWhiteSpace3_not1 _ _ _ H), (isWhiteSpace3_not2 _ _ _ H), H.
Qed.

Lemma trimStart_blank s : blankNote (trimStart s) = blankNote s.
Proof.
  remember (String.length s) as n eqn:Hn. revert s Hn.
  induction n as [n IH] using lt_wf_ind. intros s ->.
  destruct s as [|c1 s1]; [done|]. cbn [trimStart blankNote].
  destruct (isWhiteSpace c1) eqn:H1.
  { apply (IH (String.length s1)); [simpl; lia | done]. }
  destruct s1 as [|c2 s2]; [cbn [blankNote]; by rewrite H1|].
  destruct (isWhiteSpace2 c1 c2) eqn:H2.
  { apply (IH (String.length s2)); [simpl; lia | done]. }
  destruct s2 as [|c3 s3]; [cbn [blankNote]; by rewrite H1, H2|].
  destruct (isWhiteSpace3 c1 c2 c3) eqn:H3.
  { cbn [andb]. apply (IH (String.length s3)); [simpl; lia | done]. }
  cbn [blankNote]. by rewrite H1, H2, H3.
Qed.

Lemma blankNote_trimStart s : blankNote s = true -> trimStart s = "".
Proof.
  remember (String.length s) as n eqn:Hn. revert s Hn.
  induction n as [n IH] using lt_wf_ind. intros s ->.
  destruct s as [|c1 s1]; [done|]. cbn [trimStart blankNote].
  destruct (isWhiteSpace c1) eqn:H1.
  { apply (IH (String.length s1)); [simpl; lia | done]. }
  destruct s1 as [|c2 s2]; [done|].
  destruct (isWhiteSpace2 c1 c2) eqn:H2.
  { apply (IH (String.length s2)); [simpl; lia | done]. }
  destruct s2 as [|c3 s3]; [done|].
  destruct (isWhiteSpace3 c1 c2 c3) eqn:H3; [|done].
  cbn [andb]. apply (IH (String.length s3)); [simpl; lia | done].
Qed.

(** What [trimEnd] removes is blank. *)
Lemma trimEnd_split s : exists z, s = trimEnd s ++ z /\ blankNote z = true.
Proof.
  induction s as [|c s (z & Hs & Hz)]; [by exists ""|].
  cbn [trimEnd]. cbv zeta.
  destruct (isWhiteSpaceChar (String c (trimEnd s))) eqn:Hw.
  - exists (String c s). split; [done|].
    rewrite Hs at 1.
    change (String c (trimEnd s ++ z)) with (String c (trimEnd s) ++ z).
    by rewrite blankNote_app_char.
  - exists z. split; [|done].
    change (String c (trimEnd s) ++ z) with (String c (trimEnd s ++ z)).
    by rewrite <- Hs.
Qed.

Lemma trim_length_zero s :
  (0 <? String.length (trim s))%nat = false <-> blankNote s = true.
Proof.
  unfold trim. split.
  - intros H. rewrite <- trimStart_blank.
    destruct (trimEnd_split (trimStart s)) as (z & Hs & Hz).
    destruct (trimEnd (trimStart s)); [|done].
    by rewrite Hs.
  - intros H. by rewrite (blankNote_trimStart _ H).
Qed.

Lemma someChecked_true cs :
  someChecked cs = true <-> exists k, cs !! k = Some true.
Proof.
  unfold someChecked. rewrite existsb_exists. split.
  - intros (b & Hb & ->). apply list_elem_of_In in Hb.
    apply list_elem_of_fmap in Hb as ([k b] & -> & Hkb).
    exists k. by apply elem_of_map_to_list.
  - intros (k & Hk). exists true. split; [|done].
    apply list_elem_of_In, list_elem_of_fmap. exists (k, true).
    split; [done | by apply elem_of_map_to_list].
Qed.

(** [isEmptyDayLog] is the emptiness of the specification: not excluded
    from the statistics, a blank note, and no check that is true. *)
Lemma isEmptyDayLog_spec cs nt excl :
  isEmptyDayLog cs nt excl = true
  <-> nullish excl false = false
      /\ blankNote (nullish nt "") = true
      /\ (forall k, cs !! k <> Some true).
Proof.
  unfold isEmptyDayLog. destruct (nullish excl false).
  { split; [done | by intros [? _]]. }
  destruct (0 <? String.length (trim (nullish nt "")))%nat eqn:Ht.
  - split; [done|]. intros (_ & Hb & _).
    apply trim_length_zero in Hb. congruence.
  - apply trim_length_zero in Ht. rewrite negb_true_iff.
    split.
    + intros Hs. repeat split; try done. intros k Hk.
      assert (someChecked cs = true) by (apply someChecked_true; eauto).
      congruence.
    + intros (_ & _ & Hnone). apply not_true_is_false.
      intros Hs. apply someChecked_true in Hs as (k & Hk). by apply (Hnone k).
Qed.

Lemma migratable_insert_shard st month v :
  migratable (<[v2Key month := v]> st) = migratable st.
Proof.
  unfold migratable.
  by rewrite lookup_insert_ne by apply v2Key_not_legacy.
Qed.

Lemma migrate_not_migratable w :
  migratedOnce w = false ->
  migratable (localStorage (exec migrateV1ToV2IfNeeded w)) = None.
Proof.
  intros Hl. destruct (migratable (localStorage w)) as [[rawText v1]|] eqn:Hm.
  - unfold migratable. by rewrite (migrate_legacy_removed w _ _ Hl Hm).
  - by rewrite (migrate_nothing w Hl Hm).
Qed.

Lemma migrate_reload_store w :
  migratable (localStorage w) = None ->
  localStorage (exec migrateV1ToV2IfNeeded (reload w)) = localStorage w.
Proof. intros Hm. by rewrite (migrate_nothing (reload w)). Qed.

(** After [deleteDayLog] the date has no record, in this session and after
    a reload. *)
Lemma deleteDayLog_spec d w :
  let w1 := exec (deleteDayLog d) w in
  migratedOnce w1 = true
  /\ monthMapOf (localStorage w1) (toMonthISO d) !! d = None
  /\ (migratedOnce w = false -> migratable (localStorage w1) = None).
Proof.
  intros w1. subst w1. unfold exec. rewrite deleteDayLog_run. cbn [snd].
  fold (exec migrateV1ToV2IfNeeded w).
  pose proof (migrate_sets_latch w) as Hl.
  destruct (monthMapOf (localStorage (exec migrateV1ToV2IfNeeded w))
              (toMonthISO d) !! d) eqn:Hd.
  - cbn [localStorage migratedOnce]. split; [done|]. split.
    + by rewrite monthMapOf_insert_eq, lookup_delete_eq.
    + intros Hf. rewrite migratable_insert_shard. by apply migrate_not_migratable.
  - split; [done|]. split; [done|]. apply migrate_not_migratable.
Qed.

End EmptyLogFacts.

Lemma monthMapOf_insert_shard st month mm month' :
  monthMapOf (<[v2Key month := Json (JObject mm)]> st) month'
  = if decide (month = month') then mm else monthMapOf st month'.
Proof.
  destruct (decide (month = month')) as [<-|Hne].
  - apply monthMapOf_insert_eq.
  - apply monthMapOf_insert_ne. intros E. by apply v2Key_inj in E.
Qed.

(** [upsertDayLog] itself stores what it is given: the emptiness test is
    the one of [persistDayLog]. *)
Example upsert_alone_keeps_empty_log :
  let emptyLog := {| date := "2024-01-15"; checks := ∅; note := Some "";
                     excludeFromStats := Some false;
                     createdAt := None; updatedAt := None |} in
  let w1 := exec (upsertDayLog emptyLog 5000) emptyWorld in
  isEmptyDayLog (checks emptyLog) (note emptyLog) (excludeFromStats emptyLog) = true
  /\ updatedAt (eval (getDayLog "2024-01-15") w1) = Some 5000
  /\ eval (getDayLog "2024-01-15") w1 <> defaultDayLog "2024-01-15".
Proof. vm_compute. repeat split. discriminate. Qed.

(** *** Task registry *)

Section TaskFacts.

Lemma loadTasks_run w :
  let stored := match localStorage w !! KEYS.tasks with
                | Some (Json (JArray l)) => l
                | _ => []
                end in
  let limited := (normalizeTasks stored).1 in
  let changed := (normalizeTasks stored).2 in
  loadTasks w
  = (limited,
     if changed
     then {| localStorage := <[KEYS.tasks := Json (JArray limited)]> (localStorage w);
             migratedOnce := migratedOnce w |}
     else w).
Proof.
  intros stored limited changed. unfold loadTasks.
  rewrite bind_run. unfold getItem at 1 2. cbn [fst snd].
  assert (Hs : match safeJsonParse (localStorage w !! KEYS.tasks) with
               | Some (JArray l) => l
               | _ => []
               end = stored).
  { subst stored. destruct (localStorage w !! KEYS.tasks) as [[s|[]]|]; try done.
    by destruct s. }
  rewrite Hs. subst limited changed.
  destruct (normalizeTasks stored) as [lim ch]. cbn [fst snd].
  rewrite bind_run. by destruct ch.
Qed.

Lemma saveTasks_run ts w :
  saveTasks ts w
  = (tt, {| localStorage := <[KEYS.tasks := Json (JArray ts)]> (localStorage w);
            migratedOnce := migratedOnce w |}).
Proof. reflexivity. Qed.

(** The clamp of [loadTasks] is an integer between 1 and 10. *)
Lemma clamp_range (x : Q) :
  exists z : Z, 1 <= z <= 10 /\ Math_min 10 (Math_max 1 (Math_round x)) = inject_Z z.
Proof.
  unfold Math_round. set (p := Qfloor (x + (1 # 2))).
  unfold Math_max, Math_min.
  destruct (Qle_bool 1 (inject_Z p)) eqn:H1.
  - destruct (Qle_bool 10 (inject_Z p)) eqn:H10.
    + exists 10. split; [lia | reflexivity].
    + exists p. split; [|reflexivity].
      apply Qle_bool_iff in H1. unfold Qle in H1. simpl in H1.
      assert (~ (10 <= inject_Z p)%Q) as Hn.
      { rewrite <- Qle_bool_iff. by rewrite H10. }
      unfold Qle in Hn. simpl in Hn. lia.
  - exists 1. split; [lia|]. reflexivity.
Qed.

Lemma normalizePointsOf_core t :
  isCore t = true ->
  isCore (normalizePointsOf t).1 = true
  /\ (points (normalizePointsOf t).1 == 0)%Q.
Proof.
  intros Hc. unfold normalizePointsOf. rewrite Hc.
  destruct (Qeq_bool (points t) 0) eqn:E; simpl.
  - split; [done|]. by apply Qeq_bool_iff.
  - split; [done|]. reflexivity.
Qed.

Lemma normalizePointsOf_bonus t :
  isCore t = false ->
  isCore (normalizePointsOf t).1 = false
  /\ exists z : Z, 1 <= z <= 10 /\ (points (normalizePointsOf t).1 == inject_Z z)%Q.
Proof.
  intros Hc. unfold normalizePointsOf. rewrite Hc.
  destruct (clamp_range (points t)) as (z & Hz & Hclamp). rewrite Hclamp.
  destruct (Qeq_bool (points t) (inject_Z z)) eqn:E; simpl.
  - split; [done|]. exists z. split; [done|]. by apply Qeq_bool_iff.
  - split; [done|]. exists z. split; [done|]. reflexivity.
Qed.

Lemma normalizePointsOf_frame t :
  id (normalizePointsOf t).1 = id t
  /\ title (normalizePointsOf t).1 = title t
  /\ isCore (normalizePointsOf t).1 = isCore t
  /\ isActive (normalizePointsOf t).1 = isActive t.
Proof.
  unfold normalizePointsOf.
  destruct (isCore t) eqn:Hc; destruct (negb _); simpl; by rewrite ?Hc.
Qed.

(** Shape of the second pass: each task comes out unchanged or demoted. *)
Lemma limitCores_elem n l t' b :
  (t', b) ∈ limitCores n l ->
  t' ∈ l
  \/ exists t, t ∈ l /\ isActive t = true /\ isCore t = true
               /\ t' = setIsCore t false.
Proof.
  revert n. induction l as [|t l IH]; intros n H; simpl in H.
  { by apply elem_of_nil in H. }
  assert (Hrest : forall n', (t', b) ∈ limitCores n' l ->
            t' ∈ t :: l
            \/ exists t0, t0 ∈ t :: l /\ isActive t0 = true /\ isCore t0 = true
                          /\ t' = setIsCore t0 false).
  { intros n' H'. destruct (IH _ H') as [?|(t0 & ? & ? & ? & ?)].
    - left. by right.
    - right. exists t0. repeat split; try done. by right. }
  destruct (isActive t && isCore t) eqn:Hac.
  - apply andb_true_iff in Hac as [Ha Hc].
    destruct (5 <? n + 1); apply elem_of_cons in H as [[= -> ->]|H]; eauto.
    + right. exists t. repeat split; try done. by left.
    + left. by left.
  - apply elem_of_cons in H as [[= -> ->]|H]; eauto. left. by left.
Qed.

Lemma limitCores_active_core n l :
  Z.of_nat (length (activeCore (List.map fst (limitCores n l)))) <= Z.max 0 (5 - n).
Proof.
  revert n. induction l as [|t l IH]; intros n; simpl; [lia|].
  destruct (isActive t && isCore t) eqn:Hac.
  - destruct (5 <? n + 1) eqn:H5; simpl.
    + apply Z.ltb_lt in H5. unfold activeCore. simpl.
      rewrite andb_false_r. specialize (IH (n + 1)). unfold activeCore in IH. lia.
    + apply Z.ltb_ge in H5. unfold activeCore. simpl. rewrite Hac. simpl.
      specialize (IH (n + 1)). unfold activeCore in IH. lia.
  - simpl. unfold activeCore. simpl. rewrite Hac.
    specialize (IH n). unfold activeCore in IH. lia.
Qed.

(** What [loadTasks] guarantees of the list it returns: at most five active
    core tasks, core tasks at 0 points, and every other task either at an
    integer from 1 to 10 or an active task demoted by the second pass, which
    keeps the 0 points the first pass gave it. *)
Lemma normalizeTasks_spec (tasks : list Task) :
  let limited := (normalizeTasks tasks).1 in
  (length (activeCore limited) <= 5)%nat
  /\ (forall t, t ∈ limited -> isCore t = true -> (points t == 0)%Q)
  /\ (forall t, t ∈ limited -> isCore t = false ->
        (exists z : Z, 1 <= z <= 10 /\ (points t == inject_Z z)%Q)
        \/ (isActive t = true /\ (points t == 0)%Q)).
Proof.
  intros limited. subst limited. unfold normalizeTasks. cbn [fst].
  set (normalized := List.map fst (List.map normalizePointsOf tasks)).
  assert (Hnorm : forall t, t ∈ normalized ->
            (isCore t = true /\ (points t == 0)%Q)
            \/ (isCore t = false
                /\ exists z : Z, 1 <= z <= 10 /\ (points t == inject_Z z)%Q)).
  { intros t Ht. subst normalized.
    apply list_elem_of_In, in_map_iff in Ht as ([t1 b1] & <- & Ht).
    apply in_map_iff in Ht as (t0 & E & _).
    assert (t1 = (normalizePointsOf t0).1) as -> by by rewrite E.
    destruct (isCore t0) eqn:Hc.
    - left. by apply normalizePointsOf_core.
    - right. by apply normalizePointsOf_bonus. }
  split; [|split].
  - pose proof (limitCores_active_core 0 normalized). lia.
  - intros t Ht Hc.
    apply list_elem_of_In, in_map_iff in Ht as ([t1 b1] & <- & Ht).
    apply list_elem_of_In, limitCores_elem in Ht as [Ht|(t0 & Ht0 & _ & _ & ->)].
    + destruct (Hnorm _ Ht) as [[_ ?]|[? _]]; [done | simpl in *; congruence].
    + discriminate.
  - intros t Ht Hc.
    apply list_elem_of_In, in_map_iff in Ht as ([t1 b1] & <- & Ht).
    apply list_elem_of_In, limitCores_elem in Ht as [Ht|(t0 & Ht0 & Ha & Hc0 & ->)].
    + destruct (Hnorm _ Ht) as [[? _]|[_ ?]]; [simpl in *; congruence | by left].
    + right. simpl. split; [done|].
      destruct (Hnorm _ Ht0) as [[_ ?]|[? _]]; [done | congruence].
Qed.

End TaskFacts.

(** C6, at the failing input.  Loading six active core tasks keeps the
    first five and demotes the sixth, in the stored order; the demoted task
    comes out as a non-core task with 0 points, outside the range from 1 to
    10, is persisted so, and only the next load lifts it to 1. *)
Theorem loadTasks_demoted_core_has_zero_points :
  let loaded := eval loadTasks sixCoresWorld in
  let w1 := exec loadTasks sixCoresWorld in
  List.map (fun t => (id t, isCore t)) loaded
    = [("c1", true); ("c2", true); ("c3", true);
       ("c4", true); ("c5", true); ("c6", false)]
  /\ (exists t, t ∈ loaded /\ isCore t = false /\ (points t == 0)%Q)
  /\ ~ (forall t, t ∈ loaded -> isCore t = false ->
          exists z : Z, 1 <= z <= 10 /\ (points t == inject_Z z)%Q)
  /\ localStorage w1 !! KEYS.tasks = Some (Json (JArray loaded))
  /\ List.map (fun t => (id t, isCore t, points t)) (eval loadTasks w1)
     = [("c1", true, 0%Q); ("c2", true, 0%Q); ("c3", true, 0%Q);
        ("c4", true, 0%Q); ("c5", true, 0%Q); ("c6", false, 1%Q)].
Proof.
  intros loaded w1.
  assert (Hloaded : loaded
                    = [coreTask "c1"; coreTask "c2"; coreTask "c3";
                       coreTask "c4"; coreTask "c5";
                       mkTask "c6" "c6" 0 false true]).
  { vm_compute. reflexivity. }
  assert (Hsix : mkTask "c6" "c6" 0 false true ∈ loaded).
  { rewrite Hloaded. do 5 right. left. }
  split; [by rewrite Hloaded|]. split; [|split; [|split]].
  - exists (mkTask "c6" "c6" 0 false true). by repeat split.
  - intros Hall. destruct (Hall _ Hsix eq_refl) as (z & Hz & Hq).
    unfold Qeq in Hq. simpl in Hq. lia.
  - vm_compute. reflexivity.
  - vm_compute. reflexivity.
Qed.

(** The scenario of the specification on points: 37 is stored back as 10. *)
Example loadTasks_clamps_37 :
  let w := exec (saveTasks [mkTask "b" "bonus" 37 false true]) emptyWorld in
  eval loadTasks w = [mkTask "b" "bonus" 10 false true]
  /\ localStorage (exec loadTasks w) !! KEYS.tasks
     = Some (Json (JArray [mkTask "b" "bonus" 10 false true])).
Proof. vm_compute. repeat split. Qed.

(** A list that is already normal is returned as stored and not rewritten. *)
Example loadTasks_seed_unchanged :
  let w := exec (saveTasks seedTasks) emptyWorld in
  eval loadTasks w = seedTasks /\ exec loadTasks w = w.
Proof. vm_compute. repeat split. Qed.

(** *** The key of the task list *)

(** C9, as stated, fails: nothing is written under [tasks], and a list
    stored under [tasks] is not read. *)
Lemma tasks_key_counterexample :
  ~ (localStorage (exec (saveTasks seedTasks) emptyWorld) !! "tasks"
     = Some (Json (JArray seedTasks)))
  /\ eval loadTasks {| localStorage := {[ "tasks" := Json (JArray seedTasks) ]};
                       migratedOnce := false |} = [].
Proof. split; [vm_compute; discriminate | vm_compute; reflexivity]. Qed.

(** C9, amended.  The task list lives under the key [tasks_v1]:
    [saveTasks] writes the list there and nowhere else, [loadTasks] reads
    that key alone, and a list saved is the list loaded, normalized. *)
Theorem tasks_stored_under_tasks_v1 :
  KEYS.tasks = "tasks_v1"
  /\ (forall ts w,
        localStorage (exec (saveTasks ts) w)
        = <["tasks_v1" := Json (JArray ts)]> (localStorage w))
  /\ (forall w,
        eval loadTasks w
        = (normalizeTasks match localStorage w !! "tasks_v1" with
                          | Some (Json (JArray l)) => l
                          | _ => []
                          end).1)
  /\ (forall ts w, eval loadTasks (exec (saveTasks ts) w) = (normalizeTasks ts).1)
  /\ (forall w k, k <> "tasks_v1" ->
        localStorage (exec loadTasks w) !! k = localStorage w !! k).
Proof.
  split; [reflexivity|]. split; [reflexivity|].
  assert (Hload : forall w,
            eval loadTasks w
            = (normalizeTasks match localStorage w !! "tasks_v1" with
                              | Some (Json (JArray l)) => l
                              | _ => []
                              end).1).
  { intros w. unfold eval. by rewrite loadTasks_run. }
  split; [exact Hload|]. split.
  - intros ts w. rewrite Hload. unfold exec. rewrite saveTasks_run.
    cbn [snd localStorage]. by rewrite lookup_insert_eq.
  - intros w k Hk. unfold exec. rewrite loadTasks_run. cbn [snd].
    destruct (normalizeTasks _).2; [|done].
    cbn [localStorage]. by rewrite lookup_insert_ne.
Qed.

(** *** Deleting a day log *)

(** [deleteDayLog] leaves no record for the date, and [getDayLog] then
    returns the default record. *)
Theorem delete_then_get (w : World) (d : DayISO) :
  let w1 := exec (deleteDayLog d) w in
  eval (loadDayLogMapForMonth (toMonthISO d)) w1 !! d = None
  /\ eval (getDayLog d) w1 = defaultDayLog d.
Proof.
  intros w1. destruct (deleteDayLog_spec d w) as (Hl & Hnone & _).
  fold w1 in Hl, Hnone.
  unfold eval. rewrite loadDayLogMapForMonth_run, getDayLog_run. cbn [fst].
  by rewrite (migrate_id_latched w1 Hl), Hnone.
Qed.

(** * Further properties *)

(** ** Scoring *)

Section ScoreFacts.


Lemma filter_length_split {X} (p : X -> bool) (l : list X) :
  (length (List.filter p l) + length (List.filter (fun x => negb (p x)) l)
   = length l)%nat.
Proof.
  induction l as [|x l IH]; [reflexivity|]. simpl.
  destruct (p x); simpl; lia.
Qed.

Lemma countDone_ext l cs cs' :
  (forall t, t ∈ l -> checked cs (id t) = checked cs' (id t)) ->
  countDone l cs = countDone l cs'.
Proof.
  induction l as [|t l IH]; intros H; [reflexivity|].
  rewrite !countDone_cons, (H t) by by left.
  rewrite IH; [done|]. intros t' Ht'. apply H. by right.
Qed.

Lemma sumBonusPoints_ext l cs cs' :
  (forall t, t ∈ l -> checked cs (id t) = checked cs' (id t)) ->
  sumBonusPoints l cs = sumBonusPoints l cs'.
Proof.
  unfold sumBonusPoints. generalize (0 : Q) as acc.
  induction l as [|t l IH]; intros acc H; [reflexivity|]. simpl.
  rewrite (H t) by by left.
  apply IH. intros t' Ht'. apply H. by right.
Qed.



Lemma core_share_full (d n : Z) :
  0 < n -> ((inject_Z d * (100 / inject_Z n) == 100)%Q <-> d = n).
Proof.
  intros Hn. destruct n as [|p|p]; try lia.
  unfold Qeq, Qdiv, Qmult, Qinv. simpl. lia.
Qed.

End ScoreFacts.


(** Only the active tasks and the checks of their ids enter the score:
    inactive tasks, and the rest of the day log, change nothing. *)
Theorem calcScore_active_only (tasks : list Task) (log log' : DayLog) :
  (forall t, t ∈ activeTasks tasks ->
     checked (checks log) (id t) = checked (checks log') (id t)) ->
  calcScore tasks log = calcScore (activeTasks tasks) log'.
Proof.
  intros Hchecks. unfold calcScore.
  assert (Hidem : activeTasks (activeTasks tasks) = activeTasks tasks).
  { unfold activeTasks. rewrite filter_filter_and.
    apply List.filter_ext. intros t. by destruct (isActive t). }
  rewrite Hidem.
  assert (Hsub : forall p (t : Task),
            t ∈ List.filter p (activeTasks tasks) -> t ∈ activeTasks tasks).
  { intros p t Ht. apply list_elem_of_In. apply list_elem_of_In in Ht.
    by apply List.filter_In in Ht as [? _]. }
  rewrite (countDone_ext _ (checks log) (checks log'))
    by (intros t Ht; apply Hchecks; by apply (Hsub _ _ Ht)).
  rewrite (sumBonusPoints_ext _ (checks log) (checks log'))
    by (intros t Ht; apply Hchecks; by apply (Hsub _ _ Ht)).
  reflexivity.
Qed.

Lemma calcScore_active_only_witness :
  calcScore (mkTask "off" "inactive" 7 false false :: seedTasks) coreOnlyDay
  = calcScore seedTasks
      {| date := "2030-12-31"; checks := checks coreOnlyDay; note := Some "x";
         excludeFromStats := Some true; createdAt := Some 1; updatedAt := Some 2 |}.
Proof.
  exact (calcScore_active_only
           (mkTask "off" "inactive" 7 false false :: seedTasks) coreOnlyDay
           {| date := "2030-12-31"; checks := checks coreOnlyDay; note := Some "x";
              excludeFromStats := Some true; createdAt := Some 1;
              updatedAt := Some 2 |}
           (fun _ _ => eq_refl)).
Defined.

(** A higher score never gives a lower rank. *)
Theorem calcRank_monotone (s s' : Q) :
  (s <= s')%Q -> (rankLevel (calcRank s) <= rankLevel (calcRank s'))%nat.
Proof.
  intros Hle.
  assert (Hup : forall c : Q, Qle_bool c s = true -> Qle_bool c s' = true).
  { intros c Hc. apply Qle_bool_iff. apply Qle_bool_iff in Hc.
    by apply Qle_trans with s. }
  unfold calcRank.
  destruct (Qle_bool 150 s) eqn:H150; [by rewrite (Hup _ H150)|].
  destruct (Qle_bool 120 s) eqn:H120.
  { rewrite (Hup _ H120). destruct (Qle_bool 150 s'); simpl; lia. }
  destruct (Qle_bool 101 s) eqn:H101.
  { rewrite (Hup _ H101).
    destruct (Qle_bool 150 s'), (Qle_bool 120 s'); simpl; lia. }
  simpl. lia.
Qed.

Lemma calcRank_monotone_witness :
  (rankLevel (calcRank 100) <= rankLevel (calcRank 125))%nat.
Proof. apply calcRank_monotone. unfold Qle. simpl. lia. Defined.



(** ** Task registry: fixed points of the normalization *)

Section NormalizeFacts.

Lemma Qfloor_half (z : Z) : Qfloor (inject_Z z + (1 # 2)) = z.
Proof.
  pose proof (Qfloor_le (inject_Z z + (1 # 2))) as Hle.
  pose proof (Qlt_floor (inject_Z z + (1 # 2))) as Hlt.
  set (f := Qfloor (inject_Z z + (1 # 2))) in *.
  unfold Qle, Qlt in *. simpl in *. lia.
Qed.

Lemma clamp_fixed (q : Q) (z : Z) :
  1 <= z <= 10 -> (q == inject_Z z)%Q ->
  (Math_min 10 (Math_max 1 (Math_round q)) == q)%Q.
Proof.
  intros Hz Hq. unfold Math_round.
  assert (Hfl : Qfloor (q + (1 # 2)) = z).
  { rewrite <- (Qfloor_half z). apply Qfloor_comp. by rewrite Hq. }
  rewrite Hfl, Hq. unfold Math_max, Math_min.
  assert (H1 : Qle_bool 1 (inject_Z z) = true).
  { apply Qle_bool_iff. unfold Qle. simpl. lia. }
  rewrite H1. destruct (Qle_bool 10 (inject_Z z)) eqn:H10; [|reflexivity].
  apply Qle_bool_iff in H10. unfold Qle in H10. simpl in H10.
  unfold Qeq. simpl. lia.
Qed.

Lemma normalizePointsOf_valid t :
  validPoints t -> normalizePointsOf t = (t, false).
Proof.
  unfold validPoints, normalizePointsOf. destruct (isCore t).
  - intros H0. apply Qeq_bool_iff in H0. by rewrite H0.
  - intros (z & Hz & Hq).
    assert (E : Qeq_bool (points t)
                  (Math_min 10 (Math_max 1 (Math_round (points t)))) = true).
    { apply Qeq_bool_iff. symmetry. by apply (clamp_fixed _ z). }
    by rewrite E.
Qed.

Lemma normalizePointsOf_makes_valid t : validPoints (normalizePointsOf t).1.
Proof.
  unfold validPoints. destruct (isCore t) eqn:Hc.
  - destruct (normalizePointsOf_core t Hc) as [-> H0]. exact H0.
  - destruct (normalizePointsOf_bonus t Hc) as [-> H]. exact H.
Qed.

Lemma limitCores_within n l :
  n + Z.of_nat (length (activeCore l)) <= 5 ->
  limitCores n l = List.map (fun t => (t, false)) l.
Proof.
  revert n. induction l as [|t l IH]; intros n Hn; [reflexivity|]. simpl.
  unfold activeCore in Hn. simpl in Hn.
  destruct (isActive t && isCore t) eqn:Hac; simpl in Hn.
  - assert (H5 : (5 <? n + 1) = false) by (apply Z.ltb_ge; lia).
    rewrite H5. f_equal. apply IH. unfold activeCore. lia.
  - f_equal. apply IH. unfold activeCore. lia.
Qed.

Lemma activeCore_first_pass l :
  activeCore (List.map fst (List.map normalizePointsOf l))
  = List.map fst (List.map normalizePointsOf (activeCore l)).
Proof.
  unfold activeCore. induction l as [|t l IH]; [reflexivity|]. simpl.
  destruct (normalizePointsOf_frame t) as (_ & _ & -> & ->).
  destruct (isActive t && isCore t); simpl; by rewrite IH.
Qed.

Lemma existsb_map_false {X} (l : list X) :
  existsb snd (List.map (fun t => (t, false)) l) = false.
Proof. induction l; [reflexivity | assumption]. Qed.

Lemma map_fst_map_pair {X} (l : list X) :
  List.map fst (List.map (fun t => (t, false)) l) = l.
Proof. induction l as [|x l IH]; [reflexivity|]. simpl. by rewrite IH. Qed.

Lemma first_pass_valid l :
  Forall validPoints l ->
  List.map normalizePointsOf l = List.map (fun t => (t, false)) l.
Proof.
  induction 1 as [|t l Ht Hl IH]; [reflexivity|]. simpl.
  by rewrite (normalizePointsOf_valid t Ht), IH.
Qed.

Lemma normalizeTasks_valid l : registryValid l -> normalizeTasks l = (l, false).
Proof.
  intros [Hpts Hcap]. unfold normalizeTasks.
  rewrite (first_pass_valid l Hpts), map_fst_map_pair.
  rewrite limitCores_within by lia.
  by rewrite map_fst_map_pair, existsb_map_false.
Qed.

(** With at most five active core tasks the second pass changes nothing,
    and the first pass alone reaches a valid list. *)
Lemma normalizeTasks_within_cap l :
  (length (activeCore l) <= 5)%nat -> registryValid (normalizeTasks l).1.
Proof.
  intros Hcap. unfold normalizeTasks. cbn [fst].
  set (normalized := List.map fst (List.map normalizePointsOf l)).
  assert (Hlen : length (activeCore normalized) = length (activeCore l)).
  { subst normalized. rewrite activeCore_first_pass. by rewrite !length_map. }
  rewrite limitCores_within by lia. rewrite map_fst_map_pair.
  split; [|lia]. subst normalized. apply Forall_forall. intros t Ht.
  apply list_elem_of_In, in_map_iff in Ht as ([t1 b1] & <- & Ht).
  apply in_map_iff in Ht as (t0 & E & _).
  assert (t1 = (normalizePointsOf t0).1) as -> by by rewrite E.
  apply normalizePointsOf_makes_valid.
Qed.

End NormalizeFacts.

(** A stored list that is valid is returned as it is, and [loadTasks]
    writes nothing. *)
Theorem loadTasks_valid_unchanged (w : World) (tasks : list Task) :
  localStorage w !! KEYS.tasks = Some (Json (JArray tasks)) ->
  registryValid tasks ->
  loadTasks w = (tasks, w).
Proof.
  intros Hstored Hvalid. rewrite loadTasks_run, Hstored.
  by rewrite (normalizeTasks_valid _ Hvalid).
Qed.

Lemma seedTasks_valid : registryValid seedTasks.
Proof.
  split; [|vm_compute; lia].
  repeat constructor; unfold validPoints; simpl; try reflexivity.
  - exists 10. split; [lia | reflexivity].
  - exists 5. split; [lia | reflexivity].
Qed.

Lemma loadTasks_valid_unchanged_witness :
  loadTasks (exec (saveTasks seedTasks) emptyWorld)
  = (seedTasks, exec (saveTasks seedTasks) emptyWorld).
Proof.
  exact (loadTasks_valid_unchanged (exec (saveTasks seedTasks) emptyWorld)
           seedTasks eq_refl seedTasks_valid).
Defined.

(** Saving a valid list and loading it gives the list back. *)
Theorem saveTasks_loadTasks_roundtrip (w : World) (tasks : list Task) :
  registryValid tasks ->
  eval loadTasks (exec (saveTasks tasks) w) = tasks
  /\ exec loadTasks (exec (saveTasks tasks) w) = exec (saveTasks tasks) w.
Proof.
  intros Hvalid.
  set (w1 := exec (saveTasks tasks) w).
  assert (Hst : localStorage w1 !! KEYS.tasks = Some (Json (JArray tasks))).
  { subst w1. unfold exec. rewrite saveTasks_run. apply lookup_insert_eq. }
  assert (Hrun : loadTasks w1 = (tasks, w1)).
  { by rewrite loadTasks_run, Hst, (normalizeTasks_valid _ Hvalid). }
  unfold eval, exec. by rewrite Hrun.
Qed.

Lemma saveTasks_loadTasks_roundtrip_witness :
  eval loadTasks (exec (saveTasks seedTasks) legacyWorld) = seedTasks.
Proof.
  exact (proj1 (saveTasks_loadTasks_roundtrip legacyWorld seedTasks
                  seedTasks_valid)).
Defined.

Section SettleFacts.

Lemma normalizePointsOf_unflagged t :
  (normalizePointsOf t).2 = false -> (normalizePointsOf t).1 = t.
Proof.
  unfold normalizePointsOf.
  destruct (isCore t); destruct (negb _); simpl; by try discriminate.
Qed.

Lemma first_pass_unflagged l :
  existsb snd (List.map normalizePointsOf l) = false ->
  List.map fst (List.map normalizePointsOf l) = l.
Proof.
  induction l as [|t l IH]; [reflexivity|]. simpl.
  intros H. apply orb_false_iff in H as [Ht Hl].
  by rewrite (normalizePointsOf_unflagged t Ht), IH.
Qed.

Lemma limitCores_unflagged n l :
  existsb snd (limitCores n l) = false -> List.map fst (limitCores n l) = l.
Proof.
  revert n. induction l as [|t l IH]; intros n; [reflexivity|]. simpl.
  destruct (isActive t && isCore t).
  - destruct (5 <? n + 1); simpl; [discriminate|].
    intros H. by rewrite IH.
  - simpl. intros H. by rewrite IH.
Qed.

Lemma normalizeTasks_unflagged l :
  (normalizeTasks l).2 = false -> (normalizeTasks l).1 = l.
Proof.
  unfold normalizeTasks. cbn [fst snd]. intros H.
  apply orb_false_iff in H as [H1 H2].
  rewrite (first_pass_unflagged l H1) in *.
  by apply limitCores_unflagged.
Qed.

(** After [loadTasks] the task key holds the list that was returned. *)
Lemma loadTasks_stores_result w :
  storedTasks (exec loadTasks w) = eval loadTasks w.
Proof.
  unfold exec, eval. rewrite loadTasks_run. cbn [fst snd].
  fold (storedTasks w).
  destruct (normalizeTasks (storedTasks w)) as [lim ch] eqn:En. cbn [fst snd].
  destruct ch.
  - unfold storedTasks. cbn [localStorage]. by rewrite lookup_insert_eq.
  - pose proof (normalizeTasks_unflagged (storedTasks w)) as Hu.
    rewrite En in Hu. symmetry. by apply Hu.
Qed.

Lemma loadTasks_eval w : eval loadTasks w = (normalizeTasks (storedTasks w)).1.
Proof. unfold eval. by rewrite loadTasks_run. Qed.

End SettleFacts.

(** The normalization settles after two loads: whatever is stored, the
    list returned by a second [loadTasks] is valid, and a third one returns
    it unchanged and writes nothing. *)
Theorem loadTasks_settles (w : World) :
  let w1 := exec loadTasks w in
  let w2 := exec loadTasks w1 in
  registryValid (eval loadTasks w1)
  /\ loadTasks w2 = (eval loadTasks w1, w2).
Proof.
  intros w1 w2.
  assert (Hvalid : registryValid (eval loadTasks w1)).
  { rewrite loadTasks_eval. apply normalizeTasks_within_cap.
    subst w1. rewrite loadTasks_stores_result, loadTasks_eval.
    apply (normalizeTasks_spec (storedTasks w)). }
  split; [exact Hvalid|].
  rewrite loadTasks_run. fold (storedTasks w2).
  subst w2. rewrite loadTasks_stores_result.
  by rewrite (normalizeTasks_valid _ Hvalid).
Qed.

(** The demoted task of the six-core list: 0 points after the first load,
    1 after the second, and nothing moves afterwards. *)
Example sixCores_settle :
  let w1 := exec loadTasks sixCoresWorld in
  let w2 := exec loadTasks w1 in
  List.map points (eval loadTasks sixCoresWorld) = [0; 0; 0; 0; 0; 0]%Q
  /\ List.map points (eval loadTasks w1) = [0; 0; 0; 0; 0; 1]%Q
  /\ loadTasks w2 = (eval loadTasks w1, w2).
Proof. vm_compute. repeat split. Qed.

(** ** Task registry: what [loadTasks] returns, task by task *)

Section LoadTasksFacts.

Lemma map_lookup {X Y} (f : X -> Y) (l : list X) i :
  List.map f l !! i = f <$> l !! i.
Proof.
  revert i. induction l as [|x l IH]; intros [|i]; simpl; try done.
Qed.

Lemma limitCores_length n l : length (limitCores n l) = length l.
Proof.
  revert n. induction l as [|t l IH]; intros n; [done|]. simpl.
  destruct (isActive t && isCore t); [destruct (5 <? n + 1)|]; simpl; by rewrite IH.
Qed.

(** The second pass at one position: the task is demoted when it is an
    active core task and more than five of them have been met so far. *)
Lemma limitCores_lookup n l i t :
  l !! i = Some t ->
  List.map fst (limitCores n l) !! i
  = Some (if isActive t && isCore t
             && (5 <? n + Z.of_nat (length (activeCore (take (S i) l))))
          then setIsCore t false else t).
Proof.
  revert n i. induction l as [|t0 l IH]; intros n [|i] H; simplify_eq/=.
  - unfold activeCore. simpl. destruct (isActive t && isCore t) eqn:Hac; simpl.
    + change (Z.of_nat 1) with 1. by destruct (5 <? n + 1).
    + done.
  - unfold activeCore in *. simpl.
    destruct (isActive t0 && isCore t0) eqn:Hac0.
    + assert (Hrest : List.map fst (limitCores (n + 1) l) !! i
                      = Some (if isActive t && isCore t
                                 && (5 <? n + 1 + Z.of_nat
                                       (length (List.filter
                                          (fun t => isActive t && isCore t)
                                          (take (S i) l))))
                              then setIsCore t false else t))
        by by apply IH.
      simpl length.
      replace (n + Z.of_nat (S (length (List.filter
                 (fun t => isActive t && isCore t) (take (S i) l)))))
        with (n + 1 + Z.of_nat (length (List.filter
                 (fun t => isActive t && isCore t) (take (S i) l)))) by lia.
      by destruct (5 <? n + 1).
    + simpl. by apply IH.
Qed.

Lemma activeCore_take_first_pass i l :
  length (activeCore (take i (List.map fst (List.map normalizePointsOf l))))
  = length (activeCore (take i l)).
Proof.
  rewrite !firstn_map, activeCore_first_pass. by rewrite !length_map.
Qed.

Lemma normalizePointsOf_bonus_points t :
  isCore t = false ->
  (points (normalizePointsOf t).1
   == Math_min 10 (Math_max 1 (Math_round (points t))))%Q.
Proof.
  intros Hc. unfold normalizePointsOf. rewrite Hc. cbv zeta.
  destruct (Qeq_bool (points t) _) eqn:E; simpl.
  - by apply Qeq_bool_iff.
  - reflexivity.
Qed.

Lemma normalizeTasks_lookup l i t :
  l !! i = Some t ->
  exists t', (normalizeTasks l).1 !! i = Some t'
    /\ id t' = id t /\ title t' = title t /\ isActive t' = isActive t
    /\ if isCore t
       then (points t' == 0)%Q
            /\ isCore t'
               = negb (isActive t
                       && (5 <? Z.of_nat (length (activeCore (take (S i) l)))))
       else isCore t' = false
            /\ (points t' == Math_min 10 (Math_max 1 (Math_round (points t))))%Q
            /\ exists z : Z, 1 <= z <= 10 /\ (points t' == inject_Z z)%Q.
Proof.
  intros Hi. unfold normalizeTasks. cbn [fst].
  set (normalized := List.map fst (List.map normalizePointsOf l)).
  assert (Hn : normalized !! i = Some (normalizePointsOf t).1).
  { subst normalized. by rewrite !map_lookup, Hi. }
  rewrite (limitCores_lookup 0 normalized i _ Hn).
  subst normalized. rewrite activeCore_take_first_pass. rewrite Z.add_0_l.
  destruct (normalizePointsOf_frame t) as (Hid & Htitle & Hcore & Hact).
  eexists. split; [reflexivity|].
  rewrite Hact, Hcore.
  destruct (isCore t) eqn:Hc.
  - destruct (normalizePointsOf_core t Hc) as [_ Hp].
    rewrite andb_true_r.
    destruct (isActive t && _) eqn:Hd; cbn [id title isActive isCore points setIsCore negb];
      by rewrite ?Hcore.
  - rewrite andb_false_r. cbn [andb].
    destruct (normalizePointsOf_bonus t Hc) as [_ Hz].
    repeat split; try done. by apply normalizePointsOf_bonus_points.
Qed.

End LoadTasksFacts.

(** [loadTasks] returns, whatever is stored, the stored list task by task,
    with the ids, titles and active flags as stored.  A stored task that is
    not core stays so and gets its points rounded and clamped to an integer
    from 1 to 10; a stored core task gets 0 points, and stays core unless
    it is active and more than five active core tasks are stored up to and
    including it: then it is returned as a task that is not core, with its 0
    points.  So at most five active core tasks are returned; and the task
    key then holds the list that was returned. *)
Theorem loadTasks_guarantees (w : World) :
  let stored := storedTasks w in
  let loaded := eval loadTasks w in
  length loaded = length stored
  /\ (forall i t, stored !! i = Some t ->
        exists t', loaded !! i = Some t'
          /\ id t' = id t /\ title t' = title t /\ isActive t' = isActive t
          /\ if isCore t
             then (points t' == 0)%Q
                  /\ isCore t'
                     = negb (isActive t
                             && (5 <? Z.of_nat
                                   (length (activeCore (take (S i) stored)))))
             else isCore t' = false
                  /\ (points t'
                      == Math_min 10 (Math_max 1 (Math_round (points t))))%Q
                  /\ exists z : Z, 1 <= z <= 10 /\ (points t' == inject_Z z)%Q)
  /\ (length (activeCore loaded) <= 5)%nat
  /\ storedTasks (exec loadTasks w) = loaded.
Proof.
  intros stored loaded. subst stored loaded. rewrite loadTasks_eval.
  split.
  { unfold normalizeTasks. cbn [fst].
    by rewrite length_map, limitCores_length, !length_map. }
  split; [apply normalizeTasks_lookup|].
  split; [apply (normalizeTasks_spec (storedTasks w))|].
  by rewrite loadTasks_stores_result, loadTasks_eval.
Qed.

(** With nothing usable under the task key, [loadTasks] returns the empty
    list and writes nothing. *)
Theorem loadTasks_nothing_stored (w : World) :
  match localStorage w !! KEYS.tasks with
  | Some (Json (JArray _)) => False
  | _ => True
  end ->
  loadTasks w = ([], w).
Proof.
  intros Hnone. rewrite loadTasks_run.
  destruct (localStorage w !! KEYS.tasks) as [[s|[m|l|]]|]; try done.
Qed.

Lemma loadTasks_nothing_stored_witness :
  loadTasks legacyWorld = ([], legacyWorld)
  /\ loadTasks {| localStorage := {[ KEYS.tasks := Text "{oops" ]};
                  migratedOnce := false |}
     = ([], {| localStorage := {[ KEYS.tasks := Text "{oops" ]};
               migratedOnce := false |}).
Proof.
  split.
  - exact (loadTasks_nothing_stored legacyWorld I).
  - exact (loadTasks_nothing_stored
             {| localStorage := {[ KEYS.tasks := Text "{oops" ]};
                migratedOnce := false |} I).
Defined.

(** The normalization keeps the order, the ids, the titles and the active
    flags; it changes points, and the core flag only from true to false. *)
Theorem normalizeTasks_frame (tasks : list Task) :
  Forall2 (fun t t' =>
             id t' = id t /\ title t' = title t /\ isActive t' = isActive t
             /\ (isCore t' = true -> isCore t = true))
          tasks (normalizeTasks tasks).1.
Proof.
  unfold normalizeTasks. cbn [fst].
  assert (Hsecond : forall n l,
            Forall2 (fun t t' =>
                       id t' = id t /\ title t' = title t
                       /\ isActive t' = isActive t
                       /\ (isCore t' = true -> isCore t = true))
                    l (List.map fst (limitCores n l))).
  { intros n l. revert n. induction l as [|t l IH]; intros n; [constructor|].
    simpl. destruct (isActive t && isCore t);
      [destruct (5 <? n + 1)|]; simpl; constructor; try apply IH; by repeat split. }
  assert (Hfirst : Forall2 (fun t t' =>
                              id t' = id t /\ title t' = title t
                              /\ isActive t' = isActive t /\ isCore t' = isCore t)
                           tasks (List.map fst (List.map normalizePointsOf tasks))).
  { induction tasks as [|t l IH]; [constructor|]. simpl.
    constructor; [|exact IH].
    destruct (normalizePointsOf_frame t) as (? & ? & ? & ?). by repeat split. }
  set (normalized := List.map fst (List.map normalizePointsOf tasks)) in *.
  specialize (Hsecond 0 normalized).
  revert Hsecond. generalize (List.map fst (limitCores 0 normalized)).
  revert Hfirst. generalize normalized. clear.
  intros l1 H1. induction H1 as [|t t1 l l1 (Hi & Ht & Ha & Hc) H1 IH];
    intros l2 H2; inversion H2 as [|? t2 ? l2' (Hi2 & Ht2 & Ha2 & Hc2) H2']; subst;
    constructor.
  - repeat split; try congruence. intros H. rewrite <- Hc. by apply Hc2.
  - by apply IH.
Qed.

(** ** Day logs: what a write leaves alone *)

Section FrameFacts.

Lemma exec_upsertDayLog log now w :
  let w1 := exec migrateV1ToV2IfNeeded w in
  let month := toMonthISO (date log) in
  let map := monthMapOf (localStorage w1) month in
  exec (upsertDayLog log now) w
  = {| localStorage :=
         <[v2Key month :=
             Json (JObject (<[date log := upsertEntry map log now]> map))]>
           (localStorage w1);
       migratedOnce := true |}.
Proof. intros w1 month map. unfold exec. by rewrite upsertDayLog_run. Qed.

Lemma exec_deleteDayLog d w :
  let w1 := exec migrateV1ToV2IfNeeded w in
  let month := toMonthISO d in
  let map := monthMapOf (localStorage w1) month in
  exec (deleteDayLog d) w
  = match map !! d with
    | Some _ =>
        {| localStorage :=
             <[v2Key month := Json (JObject (delete d map))]> (localStorage w1);
           migratedOnce := true |}
    | None => w1
    end.
Proof. intros w1 month map. unfold exec. by rewrite deleteDayLog_run. Qed.

Lemma eval_getDayLog_latched d w :
  migratedOnce w = true ->
  eval (getDayLog d) w
  = default (defaultDayLog d) (monthMapOf (localStorage w) (toMonthISO d) !! d).
Proof.
  intros Hl. unfold eval. rewrite getDayLog_run. cbn [fst].
  by rewrite (migrate_id_latched w Hl).
Qed.

Lemma eval_getDayLog d w :
  eval (getDayLog d) w
  = default (defaultDayLog d)
      (monthMapOf (localStorage (exec migrateV1ToV2IfNeeded w)) (toMonthISO d) !! d).
Proof. unfold eval. by rewrite getDayLog_run. Qed.

Lemma exec_getDayLog d w : exec (getDayLog d) w = exec migrateV1ToV2IfNeeded w.
Proof. unfold exec at 1. by rewrite getDayLog_run. Qed.

Lemma monthMapOf_Some_key st month d r :
  monthMapOf st month !! d = Some r -> is_Some (st !! v2Key month).
Proof.
  unfold monthMapOf. destruct (st !! v2Key month); [by eexists|].
  simpl. by rewrite lookup_empty.
Qed.

Lemma migrate_keeps_tasks w :
  localStorage (exec migrateV1ToV2IfNeeded w) !! KEYS.tasks
  = localStorage w !! KEYS.tasks.
Proof.
  destruct (migratedOnce w) eqn:Hl; [by rewrite migrate_id_latched|].
  destruct (migratable (localStorage w)) as [[rawText v1]|] eqn:Hm.
  - apply (migrate_other_keys w _ _ Hl Hm);
      [done | done | intros d x _; apply not_eq_sym, v2Key_not_tasks].
  - by rewrite (migrate_nothing w Hl Hm).
Qed.

End FrameFacts.

(** On a well-formed store, a write to one date leaves the record of every
    other date as it was, and changes no key but the shard of its month. *)
Theorem upsertDayLog_frame (w : World) (log : DayLog) (now : Z) :
  wellFormedStore (localStorage w) ->
  let w1 := exec (upsertDayLog log now) w in
  (forall d, d <> date log -> eval (getDayLog d) w1 = eval (getDayLog d) w)
  /\ (forall k, k <> v2Key (toMonthISO (date log)) ->
        localStorage w1 !! k = localStorage (exec migrateV1ToV2IfNeeded w) !! k).
Proof.
  intros _ w1. subst w1. rewrite exec_upsertDayLog. split.
  - intros d Hd. rewrite eval_getDayLog_latched by reflexivity.
    rewrite eval_getDayLog. cbn [localStorage]. f_equal.
    rewrite monthMapOf_insert_shard. destruct (decide _) as [<-|]; [|done].
    by rewrite lookup_insert_ne.
  - intros k Hk. cbn [localStorage]. by rewrite lookup_insert_ne.
Qed.

Lemma upsertDayLog_frame_witness :
  eval (getDayLog "2024-02-01") (exec (upsertDayLog coreOnlyDay 5000) legacyWorld)
  = eval (getDayLog "2024-02-01") legacyWorld.
Proof.
  apply (proj1 (upsertDayLog_frame legacyWorld coreOnlyDay 5000
                  wellFormedStore_legacy)).
  intros H. vm_compute in H. discriminate H.
Defined.

(** On a well-formed store, deleting one date leaves the record of every
    other date as it was; deleting a date that has no record writes
    nothing. *)
Theorem deleteDayLog_frame (w : World) (d : DayISO) :
  wellFormedStore (localStorage w) ->
  let w0 := exec migrateV1ToV2IfNeeded w in
  let w1 := exec (deleteDayLog d) w in
  (forall d', d' <> d -> eval (getDayLog d') w1 = eval (getDayLog d') w)
  /\ (forall k, k <> v2Key (toMonthISO d) ->
        localStorage w1 !! k = localStorage w0 !! k)
  /\ (monthMapOf (localStorage w0) (toMonthISO d) !! d = None -> w1 = w0).
Proof.
  intros _ w0 w1. subst w1. rewrite exec_deleteDayLog. fold w0.
  pose proof (migrate_sets_latch w) as Hl. fold w0 in Hl.
  destruct (monthMapOf (localStorage w0) (toMonthISO d) !! d) eqn:Hd.
  - split; [|split; [|done]].
    + intros d' Hd'. rewrite eval_getDayLog_latched by reflexivity.
      rewrite eval_getDayLog. fold w0. cbn [localStorage]. f_equal.
      rewrite monthMapOf_insert_shard. destruct (decide _) as [<-|]; [|done].
      by rewrite lookup_delete_ne.
    + intros k Hk. cbn [localStorage]. by rewrite lookup_insert_ne.
  - split; [|split; [done|done]].
    intros d' _. rewrite eval_getDayLog_latched by done.
    by rewrite eval_getDayLog.
Qed.

Lemma deleteDayLog_frame_witness :
  exec (deleteDayLog "2024-03-01") legacyWorld
  = exec migrateV1ToV2IfNeeded legacyWorld.
Proof.
  apply (proj2 (proj2 (deleteDayLog_frame legacyWorld "2024-03-01"
                         wellFormedStore_legacy))).
  vm_compute. reflexivity.
Defined.

(** On a well-formed store, after a write the month of its date is listed,
    next to the months that were listed before; and deleting the last
    record of a month leaves an empty shard, which is still listed. *)
Theorem months_after_write (w : World) :
  wellFormedStore (localStorage w) ->
  (forall log now month,
      month ∈ eval listAvailableMonths (exec (upsertDayLog log now) w)
      <-> month = toMonthISO (date log) \/ month ∈ eval listAvailableMonths w)
  /\ (forall d month,
        month ∈ eval listAvailableMonths (exec (deleteDayLog d) w)
        <-> month ∈ eval listAvailableMonths w).
Proof.
  intros _.
  assert (Hlist : forall w0 month,
            month ∈ eval listAvailableMonths w0
            <-> is_Some (localStorage (exec migrateV1ToV2IfNeeded w0)
                           !! v2Key month)).
  { intros w0 month. unfold eval. rewrite listAvailableMonths_run.
    apply (listV2Months_spec (exec migrateV1ToV2IfNeeded w0)). }
  split.
  - intros log now month. rewrite !Hlist, exec_upsertDayLog.
    rewrite migrate_id_latched by reflexivity. cbn [localStorage].
    destruct (decide (month = toMonthISO (date log))) as [->|Hne].
    + rewrite lookup_insert_eq. split; [by left | by eexists].
    + rewrite lookup_insert_ne by (intros E; by apply v2Key_inj in E).
      split; [by right | by intros [?|?]].
  - intros d month. rewrite !Hlist, exec_deleteDayLog.
    pose proof (migrate_sets_latch w) as Hl.
    destruct (monthMapOf (localStorage (exec migrateV1ToV2IfNeeded w))
                (toMonthISO d) !! d) eqn:Hd.
    + rewrite migrate_id_latched by reflexivity. cbn [localStorage].
      destruct (decide (month = toMonthISO d)) as [->|Hne].
      * rewrite lookup_insert_eq. split; [|by eexists].
        intros _. by apply monthMapOf_Some_key in Hd.
      * by rewrite lookup_insert_ne by (intros E; by apply v2Key_inj in E).
    + by rewrite (migrate_id_latched _ Hl).
Qed.

Lemma months_after_write_witness :
  "2024-01" ∈ eval listAvailableMonths (exec (upsertDayLog coreOnlyDay 5000) emptyWorld).
Proof.
  apply (proj1 (months_after_write emptyWorld wellFormedStore_empty)
           coreOnlyDay 5000 "2024-01").
  left. reflexivity.
Defined.

(** Deleting the only record of a month: the month stays in the list, with
    an empty shard. *)
Example month_survives_its_last_record :
  let w1 := exec (upsertDayLog coreOnlyDay 5000) emptyWorld in
  let w2 := exec (deleteDayLog "2024-01-15") w1 in
  eval listAvailableMonths w2 = ["2024-01"]
  /\ localStorage w2 !! v2Key "2024-01" = Some (Json (JObject ∅)).
Proof. vm_compute. repeat split. Qed.
(** ** Day logs: the full-history view *)

Section HistoryViewFacts.

Lemma foldl_insert_lookup (l : list (string * DayLog)) (acc : gmap string DayLog) d :
  NoDup l.*1 ->
  foldl (fun acc e => <[e.1 := e.2]> acc) acc l !! d
  = match (list_to_map l : gmap string DayLog) !! d with
    | Some x => Some x
    | None => acc !! d
    end.
Proof.
  revert acc. induction l as [|[k v] l IH]; intros acc Hnd.
  { simpl. by rewrite lookup_empty. }
  rewrite fmap_cons in Hnd. apply NoDup_cons in Hnd as [Hnotin Hnd].
  simpl foldl. rewrite (IH _ Hnd). simpl list_to_map.
  destruct (decide (k = d)) as [<-|Hne].
  - by rewrite (not_elem_of_list_to_map_1 _ _ Hnotin), !lookup_insert_eq.
  - by rewrite !lookup_insert_ne.
Qed.

Lemma mergeEntries_union merged mm : mergeEntries merged mm = mm ∪ merged.
Proof.
  apply map_eq. intros d. unfold mergeEntries.
  rewrite foldl_insert_lookup by apply NoDup_fst_map_to_list.
  rewrite list_to_map_to_list, lookup_union.
  by destruct (mm !! d), (merged !! d).
Qed.

Lemma foldM_load_run (l : list string) (s : gmap string DayLog) w :
  foldM (fun merged m =>
           (let* mm := loadMonthMap m in ret (mergeEntries merged mm))%M) l s w
  = (foldl (fun merged m => monthMapOf (localStorage w) m ∪ merged) s l, w).
Proof.
  revert s. induction l as [|m l IH]; intros s; [reflexivity|].
  simpl foldM. rewrite bind_run, bind_run, loadMonthMap_run. cbn [fst snd].
  unfold ret at 1 2. cbn [fst snd]. by rewrite IH, mergeEntries_union.
Qed.

Lemma loadDayLogMap_run w :
  let w1 := exec migrateV1ToV2IfNeeded w in
  loadDayLogMap w
  = (foldl (fun merged m => monthMapOf (localStorage w1) m ∪ merged) ∅
       (eval listV2Months w1), w1).
Proof.
  intros w1. unfold loadDayLogMap. rewrite after_migrate. fold w1.
  rewrite bind_run, listV2Months_run. cbn [fst snd].
  rewrite foldM_load_run. unfold eval. by rewrite listV2Months_run.
Qed.

Variable st : gmap string item.

Local Abbreviation gather := (foldl (fun merged m => monthMapOf st m ∪ merged)).

Lemma gather_lookup_Some (l : list string) (s : gmap string DayLog) d r :
  gather s l !! d = Some r ->
  s !! d = Some r \/ exists m, m ∈ l /\ monthMapOf st m !! d = Some r.
Proof.
  revert s. induction l as [|m l IH]; intros s H; [by left|].
  simpl in H. apply IH in H as [H|(m' & Hm' & H)].
  - apply lookup_union_Some_raw in H as [H|[_ H]].
    + right. exists m. split; [by left | done].
    + by left.
  - right. exists m'. split; [by right | done].
Qed.

Lemma gather_is_Some (l : list string) (s : gmap string DayLog) d :
  is_Some (s !! d) \/ (exists m, m ∈ l /\ is_Some (monthMapOf st m !! d)) ->
  is_Some (gather s l !! d).
Proof.
  revert s. induction l as [|m l IH]; intros s H.
  { destruct H as [H|(m & Hm & _)]; [done | by apply elem_of_nil in Hm]. }
  simpl. apply IH. destruct H as [H|(m' & Hm' & H)].
  - left. rewrite lookup_union. destruct H as [x ->].
    by destruct (monthMapOf st m !! d); eexists.
  - apply elem_of_cons in Hm' as [->|Hm'].
    + left. rewrite lookup_union. destruct H as [x ->].
      by destruct (s !! d); eexists.
    + right. by exists m'.
Qed.

Lemma gather_keyed (l : list string) (s : gmap string DayLog) d :
  shardsKeyed st ->
  gather s l !! d
  = match monthMapOf st (toMonthISO d) !! d with
    | Some x => if decide (toMonthISO d ∈ l) then Some x else s !! d
    | None => s !! d
    end.
Proof.
  intros Hkeyed. revert s. induction l as [|m l IH]; intros s.
  { cbn [foldl]. destruct (monthMapOf st (toMonthISO d) !! d); [|done].
    destruct (decide _) as [Hin|]; [by apply elem_of_nil in Hin | done]. }
  cbn [foldl]. rewrite IH.
  destruct (decide (m = toMonthISO d)) as [->|Hne].
  - rewrite lookup_union.
    destruct (monthMapOf st (toMonthISO d) !! d) as [x|] eqn:Hx.
    + rewrite (decide_True (P := toMonthISO d ∈ toMonthISO d :: l)) by by left.
      destruct (decide _); [done|]. by destruct (s !! d).
    + by destruct (s !! d).
  - assert (Hnone : monthMapOf st m !! d = None).
    { destruct (monthMapOf st m !! d) eqn:E; [|done].
      by apply Hkeyed in E. }
    assert (Hs : (monthMapOf st m ∪ s) !! d = s !! d).
    { rewrite lookup_union, Hnone. by destruct (s !! d). }
    rewrite Hs. destruct (monthMapOf st (toMonthISO d) !! d); [|done].
    destruct (decide (toMonthISO d ∈ l)) as [Hin|Hnin].
    + rewrite decide_True; [done | by right].
    + rewrite decide_False; [done|].
      intros Hin. apply elem_of_cons in Hin as [?|?]; [congruence | done].
Qed.

End HistoryViewFacts.

(** *** Empty day logs are not kept *)

Section CompactFacts.

Lemma compactStore_insert_shard st month mm :
  compactStore st ->
  (forall d r, mm !! d = Some r ->
     isEmptyDayLog (checks r) (note r) (excludeFromStats r) = false) ->
  compactStore (<[v2Key month := Json (JObject mm)]> st).
Proof.
  intros [Hrows Hlegacy] Hmm. split.
  - intros month' d r. rewrite monthMapOf_insert_shard.
    destruct (decide _) as [<-|]; [apply Hmm | apply Hrows].
  - intros rawText v1 d r. rewrite migratable_insert_shard. apply Hlegacy.
Qed.

Lemma compactStore_migrate w :
  compactStore (localStorage w) ->
  compactStore (localStorage (exec migrateV1ToV2IfNeeded w)).
Proof.
  intros Hc. destruct (migratedOnce w) eqn:Hl; [by rewrite migrate_id_latched|].
  destruct (migratable (localStorage w)) as [[rawText v1]|] eqn:Hm;
    [|by rewrite (migrate_nothing w Hl Hm)].
  destruct Hc as [Hrows Hlegacy]. split.
  - intros month d r. rewrite (migrate_entry w _ _ Hl Hm).
    match goal with
    | |- match ?t with _ => _ end = _ -> _ => destruct t as [x|] eqn:Hx
    end.
    + intros [= ->]. by apply (Hrows _ _ _ Hx).
    + destruct (decide _); [|done]. intros Hr. by apply (Hlegacy _ _ _ _ Hm Hr).
  - intros rawText' v1' d r. by rewrite (migrate_not_migratable w Hl).
Qed.

Lemma compactStore_upsert log now w :
  compactStore (localStorage w) ->
  isEmptyDayLog (checks log) (note log) (excludeFromStats log) = false ->
  compactStore (localStorage (exec (upsertDayLog log now) w)).
Proof.
  intros Hc Hlog. rewrite exec_upsertDayLog. cbn [localStorage].
  apply compactStore_migrate in Hc.
  apply compactStore_insert_shard; [exact Hc|].
  intros d r Hr. apply lookup_insert_Some in Hr as [[_ <-]|[_ Hr]].
  - exact Hlog.
  - by apply (proj1 Hc _ _ _ Hr).
Qed.

Lemma compactStore_delete d w :
  compactStore (localStorage w) ->
  compactStore (localStorage (exec (deleteDayLog d) w)).
Proof.
  intros Hc. rewrite exec_deleteDayLog.
  apply compactStore_migrate in Hc.
  destruct (monthMapOf _ (toMonthISO d) !! d); [|exact Hc].
  cbn [localStorage]. apply compactStore_insert_shard; [exact Hc|].
  intros d' r Hr. apply lookup_delete_Some in Hr as [_ Hr].
  by apply (proj1 Hc _ _ _ Hr).
Qed.

Lemma compactStore_persist d cs nt excl now w :
  compactStore (localStorage w) ->
  compactStore (localStorage (exec (persistDayLog d cs nt excl now) w)).
Proof.
  intros Hc. unfold persistDayLog.
  destruct (isEmptyDayLog cs (Some nt) (Some excl)) eqn:He.
  - by apply compactStore_delete.
  - by apply compactStore_upsert.
Qed.

Lemma deleteDayLog_not_migratable d w :
  migratedOnce w = false \/ migratable (localStorage w) = None ->
  migratable (localStorage (exec (deleteDayLog d) w)) = None.
Proof.
  intros Hpre. destruct (deleteDayLog_spec d w) as (_ & _ & Hunlatched).
  destruct (migratedOnce w) eqn:Hl; [|by apply Hunlatched].
  destruct Hpre as [?|Hm]; [done|].
  rewrite exec_deleteDayLog, (migrate_id_latched w Hl).
  destruct (monthMapOf _ (toMonthISO d) !! d); [|exact Hm].
  cbn [localStorage]. by rewrite migratable_insert_shard.
Qed.

End CompactFacts.

(** C5. Writing, through [persistDayLog], a day log with no check that is
    true, a note that is empty or made of white space, and no exclusion flag
    leaves no record for the date: the month shard has no entry for it and
    [getDayLog] returns the default record, in the session and after a page
    reload.  And a well-formed store that holds no empty day log, in its
    shards or in a legacy blob, holds none after [persistDayLog], after
    each of the reading operations (which run the migration), after
    [deleteDayLog], and after an [upsertDayLog] of a log that is not
    empty. *)
Theorem persist_empty_day :
  (forall (w : World) (d : DayISO) (cs : gmap string bool) (nt : string) (now : Z),
      (forall k, cs !! k <> Some true) ->
      blankNote nt = true ->
      let w1 := exec (persistDayLog d cs nt false now) w in
      eval (loadDayLogMapForMonth (toMonthISO d)) w1 !! d = None
      /\ eval (getDayLog d) w1 = defaultDayLog d
      /\ (migratedOnce w = false \/ migratable (localStorage w) = None ->
          eval (loadDayLogMapForMonth (toMonthISO d)) (reload w1) !! d = None
          /\ eval (getDayLog d) (reload w1) = defaultDayLog d))
  /\ (forall w : World,
        wellFormedStore (localStorage w) ->
        compactStore (localStorage w) ->
        (forall d cs nt excl now,
            compactStore (localStorage (exec (persistDayLog d cs nt excl now) w)))
        /\ compactStore (localStorage (exec migrateV1ToV2IfNeeded w))
        /\ (forall d, compactStore (localStorage (exec (getDayLog d) w)))
        /\ (forall month,
              compactStore (localStorage (exec (loadDayLogMapForMonth month) w)))
        /\ compactStore (localStorage (exec listAvailableMonths w))
        /\ compactStore (localStorage (exec loadDayLogMap w))
        /\ (forall d, compactStore (localStorage (exec (deleteDayLog d) w)))
        /\ (forall log now,
              isEmptyDayLog (checks log) (note log) (excludeFromStats log) = false ->
              compactStore (localStorage (exec (upsertDayLog log now) w)))).
Proof.
  split.
  - intros w d cs nt now Hcs Hnt w1.
    assert (Hempty : isEmptyDayLog cs (Some nt) (Some false) = true).
    { apply isEmptyDayLog_spec. by repeat split. }
    assert (Hw1 : w1 = exec (deleteDayLog d) w).
    { subst w1. unfold persistDayLog. by rewrite Hempty. }
    destruct (deleteDayLog_spec d w) as (Hl & Hnone & _).
    pose proof (deleteDayLog_not_migratable d w) as Hreload.
    rewrite <- Hw1 in Hl, Hnone, Hreload.
    unfold eval. rewrite !loadDayLogMapForMonth_run, !getDayLog_run. cbn [fst].
    rewrite (migrate_id_latched w1 Hl), Hnone.
    split; [done|]. split; [done|].
    intros Hpre. rewrite (migrate_reload_store w1 (Hreload Hpre)), Hnone. by split.
  - intros w _ Hc.
    pose proof (compactStore_migrate w Hc) as Hm.
    split; [intros; by apply compactStore_persist|].
    split; [exact Hm|].
    split; [intros d; by rewrite exec_getDayLog|].
    split.
    { intros month. unfold exec at 1. by rewrite loadDayLogMapForMonth_run. }
    split.
    { unfold exec at 1. rewrite listAvailableMonths_run.
      destruct (listV2Months_spec (exec migrateV1ToV2IfNeeded w)) as (He & _).
      unfold exec at 1 in He. by rewrite He. }
    split.
    { unfold exec at 1. by rewrite loadDayLogMap_run. }
    split; [intros d; by apply compactStore_delete|].
    intros log now Hlog. by apply compactStore_upsert.
Qed.

Lemma persist_empty_day_witness :
  eval (getDayLog "2024-01-15")
    (exec (persistDayLog "2024-01-15" {[ "t_0_1" := false ]} " 　" false 9000)
       (exec (upsertDayLog coreOnlyDay 5000) emptyWorld))
  = defaultDayLog "2024-01-15".
Proof.
  refine (proj1 (proj2 (proj1 persist_empty_day
    (exec (upsertDayLog coreOnlyDay 5000) emptyWorld)
    "2024-01-15" {[ "t_0_1" := false ]} " 　" 9000 _ eq_refl))).
  intros k Hk. apply lookup_singleton_Some in Hk as [_ [=]].
Defined.

(** A note made of an ideographic space, a no-break space and a tab is
    blank: the record of the day is deleted. *)
Example persist_unicode_blank_note :
  let w := exec (upsertDayLog coreOnlyDay 5000) emptyWorld in
  let w1 := exec (persistDayLog "2024-01-15" ∅ "　 	" false 9000) w in
  localStorage w1 !! v2Key "2024-01" = Some (Json (JObject ∅))
  /\ trim " 　memo　 " = "memo".
Proof. vm_compute. repeat split. Qed.

(** On a well-formed store, [loadDayLogMap] writes nothing beyond the
    migration.  Every entry it returns is an entry of some month shard and
    every date of a shard appears; when each shard holds dates of its own
    month only, it returns for every date the record of the shard of that
    month, the one [getDayLog] reads. *)
Theorem loadDayLogMap_spec (w : World) :
  wellFormedStore (localStorage w) ->
  let w1 := exec migrateV1ToV2IfNeeded w in
  let st1 := localStorage w1 in
  let all := eval loadDayLogMap w in
  exec loadDayLogMap w = w1
  /\ (forall d r, all !! d = Some r ->
        exists month, monthMapOf st1 month !! d = Some r)
  /\ (forall d month, is_Some (monthMapOf st1 month !! d) -> is_Some (all !! d))
  /\ (shardsKeyed st1 ->
      forall d,
        all !! d = monthMapOf st1 (toMonthISO d) !! d
        /\ eval (getDayLog d) w = default (defaultDayLog d) (all !! d)).
Proof.
  intros _ w1 st1 all.
  assert (Hall : all = foldl (fun merged m => monthMapOf st1 m ∪ merged) ∅
                         (eval listV2Months w1)).
  { subst all. unfold eval at 1. by rewrite loadDayLogMap_run. }
  destruct (listV2Months_spec w1) as (_ & _ & _ & Hmem).
  split; [unfold exec; by rewrite loadDayLogMap_run|]. split; [|split].
  - intros d r H. rewrite Hall in H.
    apply gather_lookup_Some in H as [H|(m & _ & H)]; [|by exists m].
    by rewrite lookup_empty in H.
  - intros d month H. rewrite Hall. apply gather_is_Some. right.
    exists month. split; [|done]. apply Hmem.
    destruct H as [r Hr]. by apply monthMapOf_Some_key in Hr.
  - intros Hkeyed d.
    assert (Hd : all !! d = monthMapOf st1 (toMonthISO d) !! d).
    { rewrite Hall, (gather_keyed st1 _ _ _ Hkeyed), lookup_empty.
      destruct (monthMapOf st1 (toMonthISO d) !! d) eqn:E; [|done].
      rewrite decide_True; [done|]. apply Hmem.
      by apply monthMapOf_Some_key in E. }
    split; [exact Hd|]. by rewrite Hd, eval_getDayLog.
Qed.

Lemma loadDayLogMap_spec_witness :
  exec loadDayLogMap legacyWorld = exec migrateV1ToV2IfNeeded legacyWorld.
Proof.
  exact (proj1 (loadDayLogMap_spec legacyWorld wellFormedStore_legacy)).
Defined.

Section SaveFacts.

Lemma forEach_saveMonthMap_spec (l : list (string * gmap string DayLog)) w :
  NoDup l.*1 ->
  let w' := exec (forEach (fun e => saveMonthMap e.1 e.2) l) w in
  migratedOnce w' = migratedOnce w
  /\ (forall month mm, (month, mm) ∈ l ->
        localStorage w' !! v2Key month = Some (Json (JObject mm)))
  /\ (forall k, (forall month mm, (month, mm) ∈ l -> k <> v2Key month) ->
        localStorage w' !! k = localStorage w !! k).
Proof.
  revert w. induction l as [|[m0 mm0] l IH]; intros w Hnd w'.
  { split; [reflexivity|]. split; [|reflexivity].
    intros ?? H. by apply elem_of_nil in H. }
  rewrite fmap_cons in Hnd. apply NoDup_cons in Hnd as [Hnotin Hnd].
  subst w'. rewrite forEach_cons. unfold exec at 2.
  rewrite saveMonthMap_run. cbn [snd fst].
  set (w1 := {| localStorage := _; migratedOnce := _ |}).
  destruct (IH w1 Hnd) as (Hl & Hin & Hout).
  assert (Hfresh : forall month mm, (month, mm) ∈ l -> month <> m0).
  { intros month mm Hel ->. apply Hnotin.
    apply list_elem_of_fmap. by exists (m0, mm). }
  split; [exact Hl|]. split.
  - intros month mm Hel. apply elem_of_cons in Hel as [[= -> ->]|Hel].
    + rewrite Hout; [by apply lookup_insert_eq|].
      intros month mm Hel E. apply v2Key_inj in E as <-.
      by apply (Hfresh _ _ Hel).
    + by apply Hin.
  - intros k Hk. rewrite Hout.
    + apply lookup_insert_ne. intros E. by apply (Hk m0 mm0); [left|].
    + intros month mm Hel. apply (Hk month mm). by right.
Qed.

Lemma exec_saveDayLogMap m w :
  exec (saveDayLogMap m) w
  = exec (forEach (fun e => saveMonthMap e.1 e.2) (map_to_list (bucketByMonth m)))
      (exec migrateV1ToV2IfNeeded w).
Proof. unfold exec at 1, saveDayLogMap. by rewrite after_migrate. Qed.

Lemma saveDayLogMap_lookup m w k :
  localStorage (exec (saveDayLogMap m) w) !! k
  = match monthOfKey k ≫= (fun month => bucketByMonth m !! month) with
    | Some mm => Some (Json (JObject mm))
    | None => localStorage (exec migrateV1ToV2IfNeeded w) !! k
    end.
Proof.
  rewrite exec_saveDayLogMap.
  destruct (forEach_saveMonthMap_spec (map_to_list (bucketByMonth m))
              (exec migrateV1ToV2IfNeeded w) (NoDup_fst_map_to_list _))
    as (_ & Hin & Hout).
  destruct (monthOfKey k) as [month|] eqn:Hk; simpl.
  - apply monthOfKey_Some in Hk as ->.
    destruct (bucketByMonth m !! month) as [mm|] eqn:Hb.
    + apply Hin. by apply elem_of_map_to_list.
    + apply Hout. intros month' mm' Hel E. apply v2Key_inj in E as <-.
      apply elem_of_map_to_list in Hel. congruence.
  - apply Hout. intros month mm _ ->.
    by rewrite (proj2 (monthOfKey_Some _ month) eq_refl) in Hk.
Qed.

Lemma saveDayLogMap_monthMapOf m w month :
  monthMapOf (localStorage (exec (saveDayLogMap m) w)) month
  = match bucketByMonth m !! month with
    | Some mm => mm
    | None => monthMapOf (localStorage (exec migrateV1ToV2IfNeeded w)) month
    end.
Proof.
  unfold monthMapOf at 1. rewrite saveDayLogMap_lookup.
  rewrite (proj2 (monthOfKey_Some _ month) eq_refl). simpl.
  by destruct (bucketByMonth m !! month).
Qed.

Lemma saveDayLogMap_latch m w : migratedOnce (exec (saveDayLogMap m) w) = true.
Proof.
  rewrite exec_saveDayLogMap.
  destruct (forEach_saveMonthMap_spec (map_to_list (bucketByMonth m))
              (exec migrateV1ToV2IfNeeded w) (NoDup_fst_map_to_list _))
    as (-> & _). apply migrate_sets_latch.
Qed.

End SaveFacts.

(** On a well-formed store, [saveDayLogMap map] rewrites the shard of every
    month that has a date in [map], with the entries of [map] for that
    month and nothing else, and leaves every other key as the migration
    left it: a month without a date in [map] keeps its shard, so saving the
    empty map writes nothing. *)
Theorem saveDayLogMap_spec (w : World) (map : gmap string DayLog) :
  wellFormedStore (localStorage w) ->
  let st1 := localStorage (exec migrateV1ToV2IfNeeded w) in
  let st2 := localStorage (exec (saveDayLogMap map) w) in
  (forall d0 r0 d, map !! d0 = Some r0 ->
     monthMapOf st2 (toMonthISO d0) !! d
     = if decide (toMonthISO d = toMonthISO d0) then map !! d else None)
  /\ (forall k,
        (forall d0 r0, map !! d0 = Some r0 -> k <> v2Key (toMonthISO d0)) ->
        st2 !! k = st1 !! k)
  /\ (map = ∅ -> st2 = st1).
Proof.
  intros _ st1 st2.
  assert (Hout : forall k,
            (forall d0 r0, map !! d0 = Some r0 -> k <> v2Key (toMonthISO d0)) ->
            st2 !! k = st1 !! k).
  { intros k Hk. subst st2. rewrite saveDayLogMap_lookup.
    destruct (monthOfKey k) as [month|] eqn:Hmk; simpl; [|done].
    destruct (bucketByMonth map !! month) as [mm|] eqn:Hb; [|done].
    exfalso. destruct (proj1 (bucketByMonth_is_Some map month))
      as (d0 & r0 & Hd0 & <-); [by eexists|].
    apply (Hk d0 r0 Hd0). by apply monthOfKey_Some. }
  split; [|split; [exact Hout|]].
  - intros d0 r0 d Hd0. subst st2. rewrite saveDayLogMap_monthMapOf.
    destruct (bucketByMonth map !! toMonthISO d0) as [mm|] eqn:Hb.
    + pose proof (bucketByMonth_entry map (toMonthISO d0) d) as He.
      unfold bucketEntry in He. by rewrite Hb in He.
    + exfalso. assert (is_Some (bucketByMonth map !! toMonthISO d0)) as [? ?].
      { apply bucketByMonth_is_Some. by exists d0, r0. }
      congruence.
  - intros ->. apply map_eq. intros k. apply Hout.
    intros d0 r0 H. by rewrite lookup_empty in H.
Qed.

Lemma saveDayLogMap_spec_witness :
  localStorage (exec (saveDayLogMap ∅) legacyWorld)
  = localStorage (exec migrateV1ToV2IfNeeded legacyWorld).
Proof.
  exact (proj2 (proj2 (saveDayLogMap_spec legacyWorld ∅ wellFormedStore_legacy))
           eq_refl).
Defined.

Lemma migrate_keeps_keyed w :
  shardsKeyed (localStorage w) ->
  shardsKeyed (localStorage (exec migrateV1ToV2IfNeeded w)).
Proof.
  intros Hkeyed.
  destruct (migratedOnce w) eqn:Hl; [by rewrite migrate_id_latched|].
  destruct (migratable (localStorage w)) as [[rawText v1]|] eqn:Hm.
  - intros month d r. rewrite (migrate_entry w _ _ Hl Hm).
    destruct (monthMapOf (localStorage w) month !! d) eqn:E.
    + intros _. by apply Hkeyed in E.
    + by destruct (decide _).
  - by rewrite (migrate_nothing w Hl Hm).
Qed.

(** In a well-formed store, month shards keyed by their own month stay so
    under the migration and under every write of the day-log and task
    interfaces. *)
Theorem shards_stay_keyed (w : World) :
  wellFormedStore (localStorage w) ->
  shardsKeyed (localStorage w) ->
  shardsKeyed (localStorage (exec migrateV1ToV2IfNeeded w))
  /\ (forall log now, shardsKeyed (localStorage (exec (upsertDayLog log now) w)))
  /\ (forall d, shardsKeyed (localStorage (exec (deleteDayLog d) w)))
  /\ (forall d cs nt excl now,
        shardsKeyed (localStorage (exec (persistDayLog d cs nt excl now) w)))
  /\ (forall map, shardsKeyed (localStorage (exec (saveDayLogMap map) w)))
  /\ (forall tasks, shardsKeyed (localStorage (exec (saveTasks tasks) w)))
  /\ shardsKeyed (localStorage (exec loadTasks w)).
Proof.
  intros _ Hkeyed.
  assert (Hmig : shardsKeyed (localStorage (exec migrateV1ToV2IfNeeded w)))
    by by apply migrate_keeps_keyed.
  assert (Hup : forall log now,
            shardsKeyed (localStorage (exec (upsertDayLog log now) w))).
  { intros log now. rewrite exec_upsertDayLog. cbn [localStorage].
    intros month d r. rewrite monthMapOf_insert_shard.
    destruct (decide _) as [<-|]; [|apply Hmig].
    destruct (decide (date log = d)) as [<-|Hd]; [done|].
    rewrite lookup_insert_ne by done. apply Hmig. }
  assert (Hdel : forall d, shardsKeyed (localStorage (exec (deleteDayLog d) w))).
  { intros d. rewrite exec_deleteDayLog.
    destruct (monthMapOf _ (toMonthISO d) !! d); [|exact Hmig].
    cbn [localStorage]. intros month d' r. rewrite monthMapOf_insert_shard.
    destruct (decide _) as [<-|]; [|apply Hmig].
    intros H. apply lookup_delete_Some in H as [_ H]. by apply Hmig in H. }
  split; [exact Hmig|]. split; [exact Hup|]. split; [exact Hdel|].
  split; [|split; [|split]].
  - intros d cs nt excl now. unfold persistDayLog.
    destruct (isEmptyDayLog _ _ _); [apply Hdel | apply Hup].
  - intros map month d r. rewrite saveDayLogMap_monthMapOf.
    destruct (bucketByMonth map !! month) as [mm|] eqn:Hb; [|apply Hmig].
    intros Hd. pose proof (bucketByMonth_entry map month d) as He.
    unfold bucketEntry in He. rewrite Hb in He. simpl in He.
    rewrite Hd in He. by destruct (decide _).
  - intros tasks month d r. unfold exec. rewrite saveTasks_run.
    cbn [snd localStorage].
    rewrite monthMapOf_insert_ne by (apply not_eq_sym, v2Key_not_tasks).
    apply Hkeyed.
  - unfold exec. rewrite loadTasks_run. cbn [snd].
    destruct (normalizeTasks _).2; [|exact Hkeyed].
    cbn [localStorage]. intros month d r.
    rewrite monthMapOf_insert_ne by (apply not_eq_sym, v2Key_not_tasks).
    apply Hkeyed.
Qed.

Lemma shardsKeyed_empty : shardsKeyed (localStorage emptyWorld).
Proof. intros month d r. unfold monthMapOf. simpl. by rewrite lookup_empty. Qed.

Lemma shards_stay_keyed_witness :
  shardsKeyed (localStorage (exec (upsertDayLog coreOnlyDay 5000) emptyWorld)).
Proof.
  exact (proj1 (proj2 (shards_stay_keyed emptyWorld wellFormedStore_empty
                         shardsKeyed_empty))
           coreOnlyDay 5000).
Defined.

(** ** Day logs: writing back what was read, and the task list *)

Section WriteBackFacts.

Lemma World_eq (a b : World) :
  localStorage a = localStorage b -> migratedOnce a = migratedOnce b -> a = b.
Proof. destruct a, b. simpl. by intros -> ->. Qed.

Lemma monthMapOf_Some_object st month d r :
  monthMapOf st month !! d = Some r ->
  st !! v2Key month = Some (Json (JObject (monthMapOf st month))).
Proof.
  unfold monthMapOf.
  destruct (st !! v2Key month) as [[s|[m|l|]]|]; simpl;
    try (by rewrite lookup_empty); try done.
  destruct s; simpl; by rewrite lookup_empty.
Qed.

End WriteBackFacts.

(** On a well-formed store, saving the map that [loadDayLogMap] returns
    changes nothing, when every shard holds dates of its own month only. *)
Theorem save_of_load_is_noop (w : World) :
  wellFormedStore (localStorage w) ->
  shardsKeyed (localStorage (exec migrateV1ToV2IfNeeded w)) ->
  exec (let* all := loadDayLogMap in saveDayLogMap all)%M w
  = exec migrateV1ToV2IfNeeded w.
Proof.
  intros _ Hkeyed. rewrite exec_bind.
  set (w1 := exec migrateV1ToV2IfNeeded w) in *.
  assert (Hl : migratedOnce w1 = true) by apply migrate_sets_latch.
  assert (Hexec : exec loadDayLogMap w = w1).
  { unfold exec. by rewrite loadDayLogMap_run. }
  rewrite Hexec. set (all := eval loadDayLogMap w).
  assert (Hall : forall d, all !! d = monthMapOf (localStorage w1) (toMonthISO d) !! d).
  { intros d. subst all. unfold eval. rewrite loadDayLogMap_run. cbn [fst].
    fold w1. destruct (listV2Months_spec w1) as (_ & _ & _ & Hmem).
    rewrite (gather_keyed _ _ _ _ Hkeyed), lookup_empty.
    destruct (monthMapOf (localStorage w1) (toMonthISO d) !! d) eqn:E; [|done].
    rewrite decide_True; [done|]. apply Hmem.
    by apply monthMapOf_Some_key in E. }
  apply World_eq; [|by rewrite saveDayLogMap_latch].
  apply map_eq. intros k. rewrite saveDayLogMap_lookup.
  rewrite (migrate_id_latched w1 Hl).
  destruct (monthOfKey k) as [month|] eqn:Hk; simpl; [|done].
  apply monthOfKey_Some in Hk as ->.
  destruct (bucketByMonth all !! month) as [mm|] eqn:Hb; [|done].
  destruct (proj1 (bucketByMonth_is_Some all month)) as (d0 & r0 & Hd0 & Hm0);
    [by eexists|].
  rewrite Hall, Hm0 in Hd0.
  rewrite (monthMapOf_Some_object _ _ _ _ Hd0). do 3 f_equal.
  apply map_eq. intros d.
  pose proof (bucketByMonth_entry all month d) as He.
  unfold bucketEntry in He. rewrite Hb in He. simpl in He.
  etrans; [exact He|].
  destruct (decide (toMonthISO d = month)) as [<-|Hne]; [apply Hall|].
  destruct (monthMapOf (localStorage w1) month !! d) eqn:E; [|done].
  by apply Hkeyed in E.
Qed.

Lemma save_of_load_is_noop_witness :
  exec (let* all := loadDayLogMap in saveDayLogMap all)%M legacyWorld
  = exec migrateV1ToV2IfNeeded legacyWorld.
Proof.
  apply save_of_load_is_noop; [exact wellFormedStore_legacy|].
  apply migrate_keeps_keyed.
  intros month d r. unfold monthMapOf, legacyWorld. cbn [localStorage].
  rewrite lookup_singleton_ne by (apply not_eq_sym, v2Key_not_legacy).
  simpl. by rewrite lookup_empty.
Defined.
Section SeparationFacts.

Lemma deleteDayLog_keeps_tasks d w :
  localStorage (exec (deleteDayLog d) w) !! KEYS.tasks
  = localStorage w !! KEYS.tasks.
Proof.
  rewrite exec_deleteDayLog.
  destruct (monthMapOf _ (toMonthISO d) !! d); [|apply migrate_keeps_tasks].
  cbn [localStorage].
  rewrite lookup_insert_ne by apply v2Key_not_tasks. apply migrate_keeps_tasks.
Qed.

Lemma upsertDayLog_keeps_tasks log now w :
  localStorage (exec (upsertDayLog log now) w) !! KEYS.tasks
  = localStorage w !! KEYS.tasks.
Proof.
  rewrite exec_upsertDayLog. cbn [localStorage].
  rewrite lookup_insert_ne by apply v2Key_not_tasks. apply migrate_keeps_tasks.
Qed.

End SeparationFacts.

(** No operation on the day logs changes what is stored under the task
    key, and the task operations change no other key. *)
Theorem day_logs_and_tasks_apart (w : World) :
  let tasksOf (w' : World) := localStorage w' !! KEYS.tasks in
  tasksOf (exec migrateV1ToV2IfNeeded w) = tasksOf w
  /\ (forall d, tasksOf (exec (getDayLog d) w) = tasksOf w)
  /\ (forall log now, tasksOf (exec (upsertDayLog log now) w) = tasksOf w)
  /\ (forall d, tasksOf (exec (deleteDayLog d) w) = tasksOf w)
  /\ (forall d cs nt excl now,
        tasksOf (exec (persistDayLog d cs nt excl now) w) = tasksOf w)
  /\ tasksOf (exec loadDayLogMap w) = tasksOf w
  /\ (forall map, tasksOf (exec (saveDayLogMap map) w) = tasksOf w)
  /\ tasksOf (exec listAvailableMonths w) = tasksOf w
  /\ (forall tasks k, k <> KEYS.tasks ->
        localStorage (exec (saveTasks tasks) w) !! k = localStorage w !! k)
  /\ (forall k, k <> KEYS.tasks ->
        localStorage (exec loadTasks w) !! k = localStorage w !! k).
Proof.
  intros tasksOf. subst tasksOf. cbv beta.
  split; [apply migrate_keeps_tasks|].
  split; [intros d; rewrite exec_getDayLog; apply migrate_keeps_tasks|].
  split; [intros log now; apply upsertDayLog_keeps_tasks|].
  split; [intros d; apply deleteDayLog_keeps_tasks|].
  split.
  { intros d cs nt excl now. unfold persistDayLog.
    destruct (isEmptyDayLog _ _ _);
      [apply deleteDayLog_keeps_tasks | apply upsertDayLog_keeps_tasks]. }
  split.
  { unfold exec at 1. rewrite loadDayLogMap_run. apply migrate_keeps_tasks. }
  split.
  { intros map. rewrite saveDayLogMap_lookup.
    assert (Hk : monthOfKey KEYS.tasks = None) by reflexivity.
    rewrite Hk. apply migrate_keeps_tasks. }
  split.
  { unfold exec at 1. rewrite listAvailableMonths_run.
    destruct (listV2Months_spec (exec migrateV1ToV2IfNeeded w)) as (He & _).
    unfold exec at 1 in He. rewrite He. apply migrate_keeps_tasks. }
  split.
  - intros tasks k Hk. unfold exec. rewrite saveTasks_run.
    cbn [snd localStorage]. by rewrite lookup_insert_ne.
  - intros k Hk. unfold exec. rewrite loadTasks_run. cbn [snd].
    destruct (normalizeTasks _).2; [|done].
    cbn [localStorage]. by rewrite lookup_insert_ne.
Qed.

(** ** The write path of the Today page, read back *)

Lemma persistDayLog_read_back (w : World) (d : DayISO) (cs : gmap string bool)
    (nt : string) (excl : bool) (now : Z) :
  let r := eval (getDayLog d) (exec (persistDayLog d cs nt excl now) w) in
  (forall k, checked (checks r) k = checked cs k)
  /\ nullish (excludeFromStats r) false = excl
  /\ trim (nullish (note r) "") = trim nt.
Proof.
  intros r. subst r. unfold persistDayLog.
  destruct (isEmptyDayLog cs (Some nt) (Some excl)) eqn:He.
  - destruct (deleteDayLog_spec d w) as (Hl & Hnone & _).
    rewrite (eval_getDayLog_latched _ _ Hl), Hnone. cbn [default].
    apply isEmptyDayLog_spec in He as (Hex & Hblank & Hcs).
    cbn [nullish] in Hex, Hblank.
    split.
    { intros k. unfold checked. cbn [checks defaultDayLog].
      rewrite lookup_empty. specialize (Hcs k).
      destruct (cs !! k) as [[|]|] eqn:E; [|done|done].
      exfalso. apply Hcs. exact E. }
    split; [by rewrite Hex|].
    cbn [note defaultDayLog nullish]. symmetry.
    apply trim_length_zero in Hblank.
    destruct (trim nt); [done | discriminate].
  - match goal with |- context [upsertDayLog ?l now] =>
      pose proof (upsert_get l now w) as Hg end.
    cbv zeta in Hg. cbn [date] in Hg. rewrite Hg. unfold upsertEntry.
    cbn [date checks note excludeFromStats updatedAt nullish].
    by repeat split.
Qed.


(** On a well-formed store, after [persistDayLog], [getDayLog] gives back
    the checks as booleans, the exclusion flag, and the note up to
    surrounding white space; a log that is not empty is read back with its
    checks and note as written and with the time of the write, an empty one
    as the default record. *)
Theorem persist_then_get (w : World) (d : DayISO) (cs : gmap string bool)
    (nt : string) (excl : bool) (now : Z) :
  wellFormedStore (localStorage w) ->
  let r := eval (getDayLog d) (exec (persistDayLog d cs nt excl now) w) in
  (forall k, checked (checks r) k = checked cs k)
  /\ nullish (excludeFromStats r) false = excl
  /\ trim (nullish (note r) "") = trim nt
  /\ (isEmptyDayLog cs (Some nt) (Some excl) = false ->
      date r = d /\ checks r = cs /\ note r = Some nt
      /\ excludeFromStats r = Some excl /\ updatedAt r = Some now)
  /\ (isEmptyDayLog cs (Some nt) (Some excl) = true -> r = defaultDayLog d).
Proof.
  intros _ r. subst r. unfold persistDayLog.
  destruct (isEmptyDayLog cs (Some nt) (Some excl)) eqn:He.
  - destruct (deleteDayLog_spec d w) as (Hl & Hnone & _).
    rewrite (eval_getDayLog_latched _ _ Hl), Hnone. cbn [default].
    apply isEmptyDayLog_spec in He as (Hex & Hblank & Hcs).
    cbn [nullish] in Hex, Hblank.
    split.
    { intros k. unfold checked. cbn [checks defaultDayLog].
      rewrite lookup_empty. specialize (Hcs k).
      destruct (cs !! k) as [[|]|] eqn:E; [|done|done].
      exfalso. apply Hcs. exact E. }
    split; [by rewrite Hex|]. split; [|by split].
    cbn [note defaultDayLog nullish]. symmetry.
    apply trim_length_zero in Hblank.
    destruct (trim nt); [done | discriminate].
  - match goal with |- context [upsertDayLog ?l now] =>
      pose proof (upsert_get l now w) as Hg end.
    cbv zeta in Hg. cbn [date] in Hg. rewrite Hg. unfold upsertEntry.
    cbn [date checks note excludeFromStats updatedAt nullish].
    split; [done|]. split; [done|]. split; [done|]. split; [|done].
    intros _. by repeat split.
Qed.

Lemma persist_then_get_witness :
  nullish (excludeFromStats
             (eval (getDayLog "2024-01-15")
                (exec (persistDayLog "2024-01-15" ∅ "" true 9000) emptyWorld)))
          false
  = true.
Proof.
  exact (proj1 (proj2 (persist_then_get emptyWorld "2024-01-15" ∅ "" true 9000
                         wellFormedStore_empty))).
Defined.

(** ** Reading what the first version of the storage module wrote *)

Section V1Facts.

Lemma V1_loadDayLogMap_run w :
  V1.loadDayLogMap w
  = (match safeJsonParse (localStorage w !! KEYS.dayLogsV1) with
     | Some data => if isObject data then asDayLogMap data else ∅
     | None => ∅
     end, w).
Proof. reflexivity. Qed.

Lemma V1_map_migratable w :
  (V1.loadDayLogMap w).1
  = match migratable (localStorage w) with
    | Some (_, v1) => asDayLogMap v1
    | None => ∅
    end.
Proof.
  rewrite V1_loadDayLogMap_run. cbn [fst]. unfold migratable.
  destruct (localStorage w !! KEYS.dayLogsV1) as [raw|]; [|done].
  destruct (safeJsonParse (Some raw)) as [v|]; [|done].
  by destruct (isObject v).
Qed.

End V1Facts.

(** In a session that has not migrated yet, on a well-formed store, the
    sharded module reads for every date the record of its month shard when
    there is one, and else the record the first version of the module reads
    from the legacy blob; a record written by the first version is thus
    found again. *)
Theorem v2_reads_v1 (w : World) (d : DayISO) :
  wellFormedStore (localStorage w) ->
  migratedOnce w = false ->
  eval (getDayLog d) w
  = match monthMapOf (localStorage w) (toMonthISO d) !! d with
    | Some r => r
    | None => eval (V1.getDayLog d) w
    end
  /\ (forall log now,
        monthMapOf (localStorage w) (toMonthISO (date log)) !! date log = None ->
        eval (getDayLog (date log)) (reload (exec (V1.upsertDayLog log now) w))
        = eval (V1.getDayLog (date log)) (exec (V1.upsertDayLog log now) w)).
Proof.
  intros _ Hl.
  assert (Hread : forall w0, migratedOnce w0 = false ->
            forall d0,
              eval (getDayLog d0) w0
              = match monthMapOf (localStorage w0) (toMonthISO d0) !! d0 with
                | Some r => r
                | None => eval (V1.getDayLog d0) w0
                end).
  { intros w0 Hl0 d0. rewrite eval_getDayLog.
    unfold eval, V1.getDayLog. rewrite bind_run. cbn [fst ret].
    rewrite V1_map_migratable.
    destruct (migratable (localStorage w0)) as [[rawText v1]|] eqn:Hm.
    - rewrite (migrate_entry w0 _ _ Hl0 Hm).
      destruct (monthMapOf (localStorage w0) (toMonthISO d0) !! d0); [done|].
      by rewrite decide_True.
    - rewrite (migrate_nothing w0 Hl0 Hm). cbn [localStorage].
      destruct (monthMapOf (localStorage w0) (toMonthISO d0) !! d0); [done|].
      by rewrite lookup_empty. }
  split; [by apply Hread|].
  intros log now Hnone.
  rewrite (Hread (reload _)) by reflexivity.
  assert (Hshard : monthMapOf (localStorage (reload (exec (V1.upsertDayLog log now) w)))
                     (toMonthISO (date log))
                   = monthMapOf (localStorage w) (toMonthISO (date log))).
  { apply monthMapOf_ext. unfold exec, V1.upsertDayLog. rewrite bind_run.
    cbn [reload localStorage]. unfold V1.saveDayLogMap, setItem. cbn [snd localStorage].
    rewrite V1_loadDayLogMap_run. cbn [snd].
    apply lookup_insert_ne, not_eq_sym, v2Key_not_legacy. }
  rewrite Hshard, Hnone. reflexivity.
Qed.

Lemma v2_reads_v1_witness :
  eval (getDayLog "2024-01-15") legacyWorld = legacyLog "2024-01-15".
Proof.
  rewrite (proj1 (v2_reads_v1 legacyWorld "2024-01-15" wellFormedStore_legacy
                    eq_refl)).
  vm_compute. reflexivity.
Defined.

(** ** The two emptiness tests *)

(** The History page lists a stored day exactly when the Today page would
    not have deleted it: [hasAnyInput] is the negation of [isEmptyDayLog].
    So every record written by [persistDayLog] to a well-formed store
    passes the filter. *)
Theorem hasAnyInput_not_empty :
  hasAnyInput None = false
  /\ (forall log : DayLog,
        hasAnyInput (Some log)
        = negb (isEmptyDayLog (checks log) (note log) (excludeFromStats log)))
  /\ (forall w d cs nt excl now,
        wellFormedStore (localStorage w) ->
        isEmptyDayLog cs (Some nt) (Some excl) = false ->
        hasAnyInput
          (eval (loadDayLogMapForMonth (toMonthISO d))
             (exec (persistDayLog d cs nt excl now) w) !! d) = true).
Proof.
  assert (Hneg : forall log : DayLog,
            hasAnyInput (Some log)
            = negb (isEmptyDayLog (checks log) (note log) (excludeFromStats log))).
  { intros log. unfold hasAnyInput, isEmptyDayLog, someChecked.
    destruct (excludeFromStats log) as [[|]|]; cbn [nullish].
    - by destruct (note log) as [memo|]; [destruct (0 <? _)%nat|].
    - destruct (note log) as [memo|]; cbn [nullish].
      + destruct (0 <? String.length (trim memo))%nat; [done|].
        by rewrite negb_involutive.
      + simpl. by rewrite negb_involutive.
    - destruct (note log) as [memo|]; cbn [nullish].
      + destruct (0 <? String.length (trim memo))%nat; [done|].
        by rewrite negb_involutive.
      + simpl. by rewrite negb_involutive. }
  split; [reflexivity|]. split; [exact Hneg|].
  intros w d cs nt excl now _ He. unfold persistDayLog. rewrite He.
  unfold eval. rewrite loadDayLogMapForMonth_run. cbn [fst].
  rewrite exec_upsertDayLog, migrate_id_latched by reflexivity.
  cbn [localStorage date]. rewrite monthMapOf_insert_eq, lookup_insert_eq.
  rewrite Hneg. cbn [checks note excludeFromStats upsertEntry]. by rewrite He.
Qed.
(** ** The Tasks page *)

Section TasksPageFacts.

Local Abbreviation ac := (fun t : Task => isActive t && isCore t).

Lemma activeCore_filter_le (p : Task -> bool) l :
  (length (activeCore (List.filter p l)) <= length (activeCore l))%nat.
Proof.
  unfold activeCore. induction l as [|t l IH]; [done|]. simpl.
  destruct (p t); simpl; destruct (isActive t && isCore t); simpl; lia.
Qed.

Lemma activeCore_split i l :
  length (activeCore l)
  = (length (activeCore (List.filter (fun t => negb (hasId i t)) l))
     + length (activeCore (List.filter (hasId i) l)))%nat.
Proof.
  unfold activeCore. induction l as [|t l IH]; [done|]. simpl.
  destruct (hasId i t); simpl; destruct (isActive t && isCore t); simpl; lia.
Qed.

Lemma activeCore_map_at i (g : Task -> Task) l :
  length (activeCore (List.map (fun t => if hasId i t then g t else t) l))
  = (length (activeCore (List.filter (fun t => negb (hasId i t)) l))
     + length (activeCore (List.map g (List.filter (hasId i) l))))%nat.
Proof.
  unfold activeCore. induction l as [|t l IH]; [done|]. simpl.
  destruct (hasId i t); simpl.
  - destruct (isActive (g t) && isCore (g t)); simpl; lia.
  - destruct (isActive t && isCore t); simpl; lia.
Qed.

Lemma filter_hasId_absent i l :
  i ∉ List.map id l -> List.filter (hasId i) l = [].
Proof.
  induction l as [|t l IH]; [done|]. simpl. intros Hn.
  apply not_elem_of_cons in Hn as [Hne Hn]. unfold hasId at 1.
  rewrite bool_decide_eq_false_2 by done. by apply IH.
Qed.

Lemma filter_hasId_NoDup i l :
  NoDup (List.map id l) ->
  List.filter (hasId i) l
  = match List.find (hasId i) l with Some t => [t] | None => [] end.
Proof.
  induction l as [|t l IH]; [done|]. simpl. intros Hnd.
  apply NoDup_cons in Hnd as [Hnotin Hnd].
  destruct (hasId i t) eqn:Ht; [|by apply IH].
  apply bool_decide_eq_true in Ht. subst i.
  by rewrite filter_hasId_absent.
Qed.

Lemma find_hasId_Some i l t :
  List.find (hasId i) l = Some t -> t ∈ l /\ id t = i.
Proof.
  intros H. apply find_some in H as [Hin Hid].
  split; [by apply list_elem_of_In|]. by apply bool_decide_eq_true in Hid.
Qed.

Lemma map_id_map_at i (g : Task -> Task) l :
  (forall t, id (g t) = id t) ->
  List.map id (List.map (fun t => if hasId i t then g t else t) l) = List.map id l.
Proof.
  intros Hg. rewrite List.map_map. apply List.map_ext. intros t.
  by destruct (hasId i t).
Qed.

Lemma NoDup_map_id_filter (p : Task -> bool) l :
  NoDup (List.map id l) -> NoDup (List.map id (List.filter p l)).
Proof.
  induction l as [|t l IH]; [done|]. simpl. intros Hnd.
  apply NoDup_cons in Hnd as [Hnotin Hnd].
  destruct (p t); [|by apply IH]. simpl. apply NoDup_cons. split; [|by apply IH].
  intros Hin. apply Hnotin.
  apply list_elem_of_In, in_map_iff in Hin as (t' & <- & Hin').
  apply list_elem_of_In, in_map_iff. exists t'. split; [done|].
  by apply filter_In in Hin' as [? _].
Qed.

Lemma Forall_validPoints_filter (p : Task -> bool) l :
  Forall validPoints l -> Forall validPoints (List.filter p l).
Proof.
  intros H. apply Forall_forall. intros t Ht.
  apply list_elem_of_In, filter_In in Ht as [Ht _].
  rewrite Forall_forall in H. by apply H, list_elem_of_In.
Qed.

Lemma Forall_validPoints_map_at i (g : Task -> Task) l :
  (forall t, validPoints t -> validPoints (g t)) ->
  Forall validPoints l ->
  Forall validPoints (List.map (fun t => if hasId i t then g t else t) l).
Proof.
  intros Hg H. induction H as [|t l Ht Hl IH]; simpl; [constructor|].
  constructor; [|exact IH]. destruct (hasId i t); [by apply Hg | done].
Qed.

Lemma validPoints_normalizePoints d t ttl act :
  validPoints {| id := t; title := ttl; points := Tasks.normalizePoints d;
                 isCore := Draft.isCore d; isActive := act |}.
Proof.
  unfold validPoints, Tasks.normalizePoints. cbn [isCore points].
  destruct (Draft.isCore d); [reflexivity|].
  unfold Tasks.clampPoints.
  destruct (clamp_range (Draft.points d)) as (z & Hz & ->).
  exists z. split; [done | reflexivity].
Qed.

(** Swapping two positions rearranges the list. *)
Lemma insert_cons_perm {X} (l : list X) j (b x : X) :
  l !! j = Some b -> b :: <[j := x]> l ≡ₚ x :: l.
Proof.
  revert j. induction l as [|y l IH]; intros [|j] H; simplify_eq/=.
  - apply Permutation_swap.
  - etrans; [apply Permutation_swap|]. rewrite (IH j H). apply Permutation_swap.
Qed.

Lemma swap_perm {X} (l : list X) i j (a b : X) :
  l !! i = Some a -> l !! j = Some b ->
  <[j := a]> (<[i := b]> l) ≡ₚ l.
Proof.
  revert i j. induction l as [|x l IH]; intros [|i] [|j] Hi Hj; simplify_eq/=.
  - done.
  - by apply insert_cons_perm.
  - by apply insert_cons_perm.
  - by rewrite (IH i j).
Qed.

Lemma activeCore_perm l l' :
  l ≡ₚ l' -> length (activeCore l) = length (activeCore l').
Proof.
  unfold activeCore.
  induction 1 as [|x l l' _ IH|x y l|l l' l'' _ IH1 _ IH2]; simpl.
  - done.
  - destruct (isActive x && isCore x); simpl; lia.
  - destruct (isActive x && isCore x), (isActive y && isCore y); simpl; lia.
  - lia.
Qed.

Lemma registryValid_perm l l' :
  l ≡ₚ l' -> registryValid l -> registryValid l'.
Proof.
  intros Hp [Hpts Hcap]. split.
  - by rewrite <- Hp.
  - by rewrite <- (activeCore_perm _ _ Hp).
Qed.

Lemma storedTasks_saveTasks next w :
  storedTasks (exec (saveTasks next) w) = next.
Proof.
  unfold exec, storedTasks. rewrite saveTasks_run. cbn [snd localStorage].
  by rewrite lookup_insert_eq.
Qed.

Lemma persist_run next s w :
  Tasks.persist next s w = (Tasks.setTasks s next, exec (saveTasks next) w).
Proof. reflexivity. Qed.

Lemma pageInv_persist next s w :
  registryValid next -> NoDup (List.map id next) ->
  pageInv (Tasks.setTasks s next) (exec (saveTasks next) w).
Proof.
  intros Hv Hnd. split; [exact Hv|]. split; [exact Hnd|].
  apply storedTasks_saveTasks.
Qed.

Lemma pageInv_loadTasks s w :
  pageInv s w -> loadTasks w = (Tasks.tasks s, w).
Proof.
  intros (Hv & _ & Hst). rewrite loadTasks_run. cbv zeta.
  fold (storedTasks w). rewrite Hst.
  by rewrite (normalizeTasks_valid _ Hv).
Qed.

(** What [moveTask] does to the list: nothing, or a swap of two positions. *)
Lemma moveTask_cases i dir s w :
  Tasks.moveTask i dir s w = (s, w)
  \/ exists ia ib a b,
       Tasks.tasks s !! ia = Some a /\ Tasks.tasks s !! ib = Some b
       /\ Tasks.moveTask i dir s w
          = Tasks.persist (<[ib := a]> (<[ia := b]> (Tasks.tasks s))) s w.
Proof.
  unfold Tasks.moveTask.
  destruct (List.find (hasId i) (Tasks.tasks s)) as [current|]; [|by left].
  match goal with |- context [if ?c then _ else _] => destruct c end; [by left|].
  destruct (_ !! Z.to_nat _) as [neighbor|]; [|by left].
  match goal with |- context [if ?c then _ else _] => destruct c end; [by left|].
  destruct (Tasks.tasks s !! Z.to_nat (findIndex (hasId i) (Tasks.tasks s)))
    as [a|] eqn:Ha; [|by left].
  destruct (Tasks.tasks s !! Z.to_nat (findIndex (hasId (id neighbor)) (Tasks.tasks s)))
    as [b|] eqn:Hb; [|by left].
  right.
  exists (Z.to_nat (findIndex (hasId i) (Tasks.tasks s))),
         (Z.to_nat (findIndex (hasId (id neighbor)) (Tasks.tasks s))), a, b.
  done.
Qed.

Lemma pageInv_remove i s w :
  pageInv s w ->
  pageInv (eval (Tasks.remove i s) w) (exec (Tasks.remove i s) w).
Proof.
  intros ((Hpts & Hcap) & Hnd & Hst).
  set (next := List.filter (fun t => negb (hasId i t)) (Tasks.tasks s)).
  assert (Hinv : pageInv (Tasks.setTasks s next) (exec (saveTasks next) w)).
  { apply pageInv_persist.
    - split; [by apply Forall_validPoints_filter|].
      pose proof (activeCore_filter_le (fun t => negb (hasId i t)) (Tasks.tasks s)).
      subst next. lia.
    - by apply NoDup_map_id_filter. }
  unfold eval, exec, Tasks.remove. rewrite bind_run, persist_run.
  fold next. cbn [fst snd ret].
  by destruct (bool_decide _).
Qed.

Lemma pageInv_toggleActive i s w :
  pageInv s w ->
  pageInv (eval (Tasks.toggleActive i s) w) (exec (Tasks.toggleActive i s) w).
Proof.
  intros Hinv. pose proof Hinv as ((Hpts & Hcap) & Hnd & Hst).
  unfold eval, exec, Tasks.toggleActive.
  destruct (List.find (hasId i) (Tasks.tasks s)) as [target|] eqn:Hfind; [|done].
  match goal with |- context [if ?c then _ else _] => destruct c eqn:Hc end; [done|].
  rewrite persist_run. cbn [fst snd].
  apply (pageInv_persist _ (Tasks.setError s "")).
  - split.
    + apply Forall_validPoints_map_at; [|done]. by intros t Ht.
    + rewrite activeCore_map_at, (filter_hasId_NoDup _ _ Hnd), Hfind.
      pose proof (activeCore_split i (Tasks.tasks s)) as Hsplit.
      rewrite (filter_hasId_NoDup _ _ Hnd), Hfind in Hsplit.
      unfold activeCore at 2. unfold activeCore at 3 in Hsplit.
      cbn [List.map List.filter setIsActive isActive isCore] in *.
      destruct (isActive target) eqn:Ha; cbn [negb andb] in *.
      * cbn [length]. lia.
      * destruct (isCore target) eqn:Hco; cbn [length] in *; [|lia].
        cbn [negb andb] in Hc. apply Z.leb_gt in Hc.
        unfold activeCore. lia.
  - by rewrite map_id_map_at.
Qed.

Lemma pageInv_moveTask i dir s w :
  pageInv s w ->
  pageInv (eval (Tasks.moveTask i dir s) w) (exec (Tasks.moveTask i dir s) w).
Proof.
  intros Hinv. pose proof Hinv as (Hv & Hnd & Hst).
  unfold eval, exec.
  destruct (moveTask_cases i dir s w) as [->|(ia & ib & a & b & Ha & Hb & ->)];
    [done|].
  rewrite persist_run. cbn [fst snd].
  pose proof (swap_perm _ _ _ _ _ Ha Hb) as Hp.
  apply pageInv_persist.
  - by apply (registryValid_perm (Tasks.tasks s)).
  - by rewrite Hp.
Qed.

Lemma canEnable_None s :
  Tasks.canEnableCoreActive None s
  = (Z.of_nat (length (activeCore (Tasks.tasks s))) <? 5).
Proof. reflexivity. Qed.

Lemma pageInv_submit newId s w :
  pageInv s w -> newId ∉ List.map id (Tasks.tasks s) ->
  pageInv (eval (Tasks.submit newId s) w) (exec (Tasks.submit newId s) w).
Proof.
  intros Hinv Hfresh. pose proof Hinv as ((Hpts & Hcap) & Hnd & Hst).
  unfold eval, exec, Tasks.submit.
  destruct (bool_decide (trim _ = "")); [done|].
  match goal with |- context [if ?c then _ else _] => destruct c eqn:Hc end; [done|].
  assert (Hadd : pageInv
            (Tasks.setTasks s
               ({| id := newId; title := trim (Draft.title (Tasks.draft s));
                   points := Tasks.normalizePoints (Tasks.draft s);
                   isCore := Draft.isCore (Tasks.draft s);
                   isActive := Draft.isActive (Tasks.draft s) |} :: Tasks.tasks s))
            (exec (saveTasks
               ({| id := newId; title := trim (Draft.title (Tasks.draft s));
                   points := Tasks.normalizePoints (Tasks.draft s);
                   isCore := Draft.isCore (Tasks.draft s);
                   isActive := Draft.isActive (Tasks.draft s) |} :: Tasks.tasks s)) w) ->
          forall e, Tasks.editingId s = e ->
          match e with Some e' => bool_decide (e' = "") = true | None => True end ->
          True) by done.
  clear Hadd.
  assert (Hnew :
    (Draft.isCore (Tasks.draft s) && Draft.isActive (Tasks.draft s) = true ->
     (length (activeCore (Tasks.tasks s)) < 5)%nat) ->
    registryValid
      ({| id := newId; title := trim (Draft.title (Tasks.draft s));
          points := Tasks.normalizePoints (Tasks.draft s);
          isCore := Draft.isCore (Tasks.draft s);
          isActive := Draft.isActive (Tasks.draft s) |} :: Tasks.tasks s)
    /\ NoDup (List.map id
      ({| id := newId; title := trim (Draft.title (Tasks.draft s));
          points := Tasks.normalizePoints (Tasks.draft s);
          isCore := Draft.isCore (Tasks.draft s);
          isActive := Draft.isActive (Tasks.draft s) |} :: Tasks.tasks s))).
  { intros Hroom. split; [split|].
    - constructor; [apply validPoints_normalizePoints | done].
    - unfold activeCore. cbn [List.filter isActive isCore].
      rewrite andb_comm.
      destruct (Draft.isCore (Tasks.draft s) && Draft.isActive (Tasks.draft s)) eqn:Hd.
      + cbn [length]. specialize (Hroom eq_refl). unfold activeCore in Hroom. lia.
      + unfold activeCore in Hcap. lia.
    - cbn [List.map id]. apply NoDup_cons. by split. }
  destruct (Tasks.editingId s) as [e|] eqn:He.
  - destruct (bool_decide (e = "")) eqn:Hempty.
    + rewrite bind_run, persist_run. cbn [fst snd ret].
      destruct Hnew as [Hv Hn].
      { intros Hd. rewrite Hd in Hc. cbn [andb] in Hc.
        apply negb_false_iff in Hc. unfold Tasks.canEnableCoreActive in Hc.
        rewrite Hempty in Hc. apply Z.ltb_lt in Hc. unfold activeCore. lia. }
      by apply (pageInv_persist _ s).
    + rewrite bind_run, persist_run. cbn [fst snd ret].
      apply (pageInv_persist _ s).
      * split.
        { apply Forall_validPoints_map_at; [|done].
          intros t _. apply validPoints_normalizePoints. }
        rewrite activeCore_map_at, (filter_hasId_NoDup _ _ Hnd).
        pose proof (activeCore_split e (Tasks.tasks s)) as Hsplit.
        rewrite (filter_hasId_NoDup _ _ Hnd) in Hsplit.
        destruct (List.find (hasId e) (Tasks.tasks s)) as [target|];
          cbn [List.map] in *; [|cbn [activeCore List.filter length] in *; lia].
        unfold activeCore at 2. cbn [List.filter isActive isCore].
        rewrite andb_comm.
        destruct (Draft.isCore (Tasks.draft s) && Draft.isActive (Tasks.draft s)) eqn:Hd.
        -- cbn [andb] in Hc. apply negb_false_iff in Hc.
           unfold Tasks.canEnableCoreActive in Hc. rewrite Hempty in Hc.
           apply Z.ltb_lt in Hc. cbn [length]. unfold activeCore. lia.
        -- cbn [length]. lia.
      * by rewrite map_id_map_at.
  - rewrite bind_run, persist_run. cbn [fst snd ret].
    destruct Hnew as [Hv Hn].
    { intros Hd. rewrite Hd in Hc. cbn [andb] in Hc.
      apply negb_false_iff in Hc. rewrite canEnable_None in Hc.
      apply Z.ltb_lt in Hc. lia. }
    by apply (pageInv_persist _ s).
Qed.

Lemma seededPage_inv : pageInv seededPage seededWorld.
Proof.
  split; [apply seedTasks_valid|]. split; [|reflexivity].
  apply (bool_decide_unpack (NoDup _)). vm_compute. exact I.
Qed.

End TasksPageFacts.

(** Whatever the user does on the Tasks page, the task list stays valid
    (core tasks at 0 points, the others at an integer from 1 to 10, at most
    five active core tasks), its identifiers stay distinct, and the store
    holds the list the page shows; loading the tasks again returns that
    list and writes nothing. *)
Theorem tasks_page_invariant (e : Tasks.event) (s : Tasks.State) (w : World) :
  pageInv s w -> freshFor e s ->
  let s' := eval (Tasks.handle e s) w in
  let w' := exec (Tasks.handle e s) w in
  pageInv s' w' /\ loadTasks w' = (Tasks.tasks s', w').
Proof.
  intros Hinv Hfresh s' w'.
  assert (Hinv' : pageInv s' w').
  { subst s' w'. destruct e; cbn [Tasks.handle freshFor] in *.
    - by apply pageInv_remove.
    - by apply pageInv_toggleActive.
    - by apply pageInv_moveTask.
    - by apply pageInv_submit.
    - exact Hinv.
    - exact Hinv.
    - exact Hinv.
    - unfold eval, exec, ret, Tasks.onChangeIsCore. cbn [fst snd].
      by destruct (_ && _ && _).
    - exact Hinv.
    - unfold eval, exec, ret, Tasks.onChangeIsActive. cbn [fst snd].
      by destruct (_ && _ && _). }
  split; [exact Hinv' | by apply pageInv_loadTasks].
Qed.

Lemma tasks_page_invariant_witness :
  pageInv (eval (Tasks.handle (Tasks.ToggleActive "t_0_1") seededPage) seededWorld)
          (exec (Tasks.handle (Tasks.ToggleActive "t_0_1") seededPage) seededWorld).
Proof.
  exact (proj1 (tasks_page_invariant (Tasks.ToggleActive "t_0_1") seededPage
                  seededWorld seededPage_inv I)).
Defined.

(** ** The Tasks page: reordering *)

Section MoveTaskFacts.

Lemma findIndex_nonneg_or_none {X} (p : X -> bool) l :
  findIndex p l = -1 \/ 0 <= findIndex p l.
Proof.
  induction l as [|x l IH]; [by left|]. simpl.
  destruct (p x); [right; lia|].
  destruct (findIndex p l <? 0) eqn:E; [by left|].
  apply Z.ltb_ge in E. right. lia.
Qed.







End MoveTaskFacts.



(** Moving the second core task up puts it first; the bonus tasks stay. *)
Example moveTask_up :
  List.map id (Tasks.tasks (eval (Tasks.moveTask "t_0_2" (-1) seededPage) seededWorld))
  = ["t_0_2"; "t_0_1"; "t_0_3"; "t_0_4"; "t_0_5"]
  /\ eval (Tasks.moveTask "t_0_1" (-1) seededPage) seededWorld = seededPage
  /\ List.map id (Tasks.tasks (eval (Tasks.moveTask "t_0_3" 1 seededPage) seededWorld))
     = ["t_0_1"; "t_0_2"; "t_0_3"; "t_0_4"; "t_0_5"].
Proof. vm_compute. repeat split. Qed.

(** ** The Today page *)

Section TodayFacts.

Lemma calcScore_checked_ext tasks log log' :
  (forall k, checked (checks log) k = checked (checks log') k) ->
  calcScore tasks log = calcScore tasks log'.
Proof.
  intros H. unfold calcScore.
  rewrite (countDone_ext _ (checks log) (checks log')) by (intros; apply H).
  by rewrite (sumBonusPoints_ext _ (checks log) (checks log')) by (intros; apply H).
Qed.

Lemma getDayLog_after_migrate d w :
  eval (getDayLog d) (exec migrateV1ToV2IfNeeded w) = eval (getDayLog d) w.
Proof.
  rewrite (eval_getDayLog_latched d _ (migrate_sets_latch w)).
  by rewrite eval_getDayLog.
Qed.

Lemma showsStored_persist d cs nt excl now td ts w :
  showsStored {| Today.todayISO := td; Today.selectedDay := d; Today.tasks := ts;
                 Today.checks := cs; Today.note := nt;
                 Today.excludeFromStats := excl |}
              (exec (persistDayLog d cs nt excl now) w).
Proof.
  destruct (persistDayLog_read_back w d cs nt excl now) as (Hc & He & Hn).
  by repeat split.
Qed.

Lemma loadSelectedDay_run now s w :
  let loadedTasks := seedTasksIfEmpty now (eval loadTasks w) in
  let w2 := exec (saveTasks loadedTasks) (exec loadTasks w) in
  let log := eval (getDayLog (Today.selectedDay s)) w2 in
  loadSelectedDay now s w
  = ({| Today.todayISO := Today.todayISO s;
        Today.selectedDay := Today.selectedDay s;
        Today.tasks := loadedTasks;
        Today.checks := checks log;
        Today.note := nullish (note log) "";
        Today.excludeFromStats := nullish (excludeFromStats log) false |},
     exec migrateV1ToV2IfNeeded w2).
Proof.
  intros loadedTasks w2 log. unfold loadSelectedDay.
  rewrite bind_run. fold (eval loadTasks w) (exec loadTasks w). fold loadedTasks.
  rewrite bind_run. fold (exec (saveTasks loadedTasks) (exec loadTasks w)). fold w2.
  rewrite bind_run. fold (eval (getDayLog (Today.selectedDay s)) w2) log.
  fold (exec (getDayLog (Today.selectedDay s)) w2).
  by rewrite exec_getDayLog.
Qed.

Lemma exec_loadSelectedDay now s w :
  exec (loadSelectedDay now s) w
  = exec migrateV1ToV2IfNeeded
      (exec (saveTasks (seedTasksIfEmpty now (eval loadTasks w))) (exec loadTasks w)).
Proof. unfold exec at 1. by rewrite loadSelectedDay_run. Qed.

Lemma tasks_loadSelectedDay now s w :
  Today.tasks (eval (loadSelectedDay now s) w)
  = seedTasksIfEmpty now (eval loadTasks w).
Proof. unfold eval at 1. by rewrite loadSelectedDay_run. Qed.

Lemma showsStored_loadSelectedDay now s w :
  showsStored (eval (loadSelectedDay now s) w) (exec (loadSelectedDay now s) w).
Proof.
  unfold eval at 1, exec at 1. rewrite loadSelectedDay_run. cbn [fst snd].
  unfold showsStored. cbn [Today.selectedDay Today.checks Today.note
                           Today.excludeFromStats].
  rewrite getDayLog_after_migrate.
  split; [done|]. split; [done|].
  destruct (note _); reflexivity.
Qed.

End TodayFacts.

(** The Today page shows what is stored.  After the effect of the page,
    after a change of the selected day and after every handler that
    writes, the page has, for the selected day, the checks (as truth
    values), the exclusion flag and the note (up to trimming) that
    [getDayLog] reads from the store; a toggle on a future day does
    nothing.  In such a state the score the page computes from its own
    state is the score computed from the stored record.  The store is taken
    to be well formed. *)
Theorem today_page_shows_stored (w : World) (s : Today.State) (now : Z) :
  wellFormedStore (localStorage w) ->
  showsStored (eval (loadSelectedDay now s) w) (exec (loadSelectedDay now s) w)
  /\ (forall d,
        d <> Today.selectedDay s ->
        showsStored (eval (setSelectedDay d now s) w)
                    (exec (setSelectedDay d now s) w))
  /\ (forall k,
        if isFutureDay (Today.selectedDay s) (Today.todayISO s)
        then toggle k now s w = (s, w)
        else showsStored (eval (toggle k now s) w) (exec (toggle k now s) w))
  /\ (forall v,
        showsStored (eval (onChangeNote v now s) w) (exec (onChangeNote v now s) w))
  /\ (forall b,
        showsStored (eval (onChangeExclude b now s) w)
                    (exec (onChangeExclude b now s) w))
  /\ (forall s0 w0,
        showsStored s0 w0 ->
        calcScore (Today.tasks s0) (eval (getDayLog (Today.selectedDay s0)) w0)
        = score s0).
Proof.
  intros _.
  split; [apply showsStored_loadSelectedDay|].
  split.
  { intros d Hd. unfold setSelectedDay. rewrite bool_decide_eq_false_2 by done.
    apply showsStored_loadSelectedDay. }
  split.
  { intros k. unfold toggle.
    destruct (isFutureDay _ _); [reflexivity|].
    unfold eval, exec. rewrite bind_run. cbn [ret fst snd].
    apply showsStored_persist. }
  split.
  { intros v. unfold onChangeNote, eval, exec. rewrite bind_run. cbn [ret fst snd].
    apply showsStored_persist. }
  split.
  { intros b. unfold onChangeExclude, eval, exec. rewrite bind_run.
    cbn [ret fst snd]. apply showsStored_persist. }
  intros s0 w0 (Hc & _ & _). unfold score. by apply calcScore_checked_ext.
Qed.

Lemma today_page_shows_stored_witness :
  showsStored (eval (onChangeNote "memo" 9000 (freshPage "2024-01-15")) emptyWorld)
              (exec (onChangeNote "memo" 9000 (freshPage "2024-01-15")) emptyWorld).
Proof.
  exact (proj1 (proj2 (proj2 (proj2
           (today_page_shows_stored emptyWorld (freshPage "2024-01-15") 9000
              wellFormedStore_empty)))) "memo").
Defined.

(** The task list of the Today page is never empty: the effect seeds five
    tasks when none is stored, and the list of the page is the stored list,
    which [loadTasks] returns unchanged when the tasks were seeded. *)
Theorem today_page_seeds_tasks (w : World) (s : Today.State) (now : Z) :
  let s' := eval (loadSelectedDay now s) w in
  let w' := exec (loadSelectedDay now s) w in
  Today.tasks s' <> []
  /\ storedTasks w' = Today.tasks s'
  /\ (eval loadTasks w = [] ->
      List.map (fun t => (isCore t, isActive t, points t)) (Today.tasks s')
      = [(true, true, 0%Q); (true, true, 0%Q); (true, true, 0%Q);
         (false, true, 10%Q); (false, true, 5%Q)]
      /\ NoDup (List.map id (Today.tasks s'))
      /\ loadTasks w' = (Today.tasks s', w')).
Proof.
  intros s' w'. subst s' w'.
  rewrite exec_loadSelectedDay, tasks_loadSelectedDay.
  set (loadedTasks := seedTasksIfEmpty now (eval loadTasks w)).
  set (w2 := exec (saveTasks loadedTasks) (exec loadTasks w)).
  assert (Hstored : storedTasks (exec migrateV1ToV2IfNeeded w2) = loadedTasks).
  { unfold storedTasks. rewrite migrate_keeps_tasks.
    fold (storedTasks w2). subst w2. apply storedTasks_saveTasks. }
  split.
  { subst loadedTasks. unfold seedTasksIfEmpty.
    destruct (eval loadTasks w); [discriminate | discriminate]. }
  split; [exact Hstored|].
  intros Hempty. subst loadedTasks. rewrite Hempty in *.
  cbn [seedTasksIfEmpty length Nat.ltb Nat.leb] in *.
  split; [reflexivity|].
  assert (Hnd : NoDup (List.map id
            [ mkTask ("t_" +:+ numberToString now +:+ "_1") "水を飲む" 0 true true;
              mkTask ("t_" +:+ numberToString now +:+ "_2") "外に出る（1分）" 0 true true;
              mkTask ("t_" +:+ numberToString now +:+ "_3") "本を1ページ読む" 0 true true;
              mkTask ("t_" +:+ numberToString now +:+ "_4") "ストレッチ" 10 false true;
              mkTask ("t_" +:+ numberToString now +:+ "_5") "片付け1つ" 5 false true ])).
  { cbn [List.map id].
    assert (Hne : forall a b : string, a <> b ->
              "t_" +:+ numberToString now +:+ a <> "t_" +:+ numberToString now +:+ b).
    { intros a b Hab E. apply Hab.
      by apply (inj (String.app (numberToString now))), (inj (String.app "t_")). }
    repeat (apply NoDup_cons; split;
            [rewrite ?not_elem_of_cons; repeat split;
             try (apply Hne; discriminate); apply not_elem_of_nil|]).
    apply NoDup_nil_2. }
  split; [exact Hnd|].
  rewrite loadTasks_run. cbv zeta.
  fold (storedTasks (exec migrateV1ToV2IfNeeded w2)). rewrite Hstored.
  rewrite normalizeTasks_valid; [reflexivity|].
  split; [|unfold activeCore; cbn [List.filter isActive isCore andb length]; lia].
  repeat constructor; unfold validPoints; cbn [isCore points]; try reflexivity.
  - exists 10. split; [lia | reflexivity].
  - exists 5. split; [lia | reflexivity].
Qed.

(** ** The statistics of the History page *)

Section SummaryFacts.

Lemma keys_elem (logs : gmap string DayLog) d :
  d ∈ (map_to_list logs).*1 <-> is_Some (logs !! d).
Proof.
  rewrite list_elem_of_fmap. split.
  - intros ([k r] & -> & H). apply elem_of_map_to_list in H. by eexists.
  - intros [r H]. exists (d, r). split; [done | by apply elem_of_map_to_list].
Qed.

Lemma addDay_miss_bounds logs tasks l (acc : Q * Z) :
  acc.2 <= (fold_left (addDay logs tasks) l acc).2 <= acc.2 + Z.of_nat (length l).
Proof.
  revert acc. induction l as [|d l IH]; intros acc; simpl; [lia|].
  specialize (IH (addDay logs tasks acc d)).
  assert (acc.2 <= (addDay logs tasks acc d).2 <= acc.2 + 1).
  { unfold addDay. destruct (logs !! d); simpl; [|lia].
    destruct (0 <? _); lia. }
  lia.
Qed.

Lemma summaryDates_elem mode cut logs d :
  d ∈ summaryDates mode cut logs
  <-> is_Some (logs !! d)
      /\ (mode = History.recent -> String.leb cut d = true).
Proof.
  unfold summaryDates.
  assert (Hsorted : d ∈ merge_sort String.le (map_to_list logs).*1
                    <-> is_Some (logs !! d)).
  { by rewrite merge_sort_Permutation, keys_elem. }
  destruct mode.
  - rewrite list_elem_of_In, filter_In, <- list_elem_of_In, Hsorted.
    split; [intros [? ?]; by split | intros [? H]; split; [done | by apply H]].
  - rewrite Hsorted. split; [intros ?; by split | by intros [? _]].
Qed.

Lemma NoDup_List_filter {X} (p : X -> bool) (l : list X) :
  NoDup l -> NoDup (List.filter p l).
Proof.
  induction 1 as [|x l Hx Hl IH]; simpl; [constructor|].
  destruct (p x); [|exact IH]. constructor; [|exact IH].
  intros Hin. apply Hx. by apply list_elem_of_In, filter_In in Hin as [?%list_elem_of_In _].
Qed.

Lemma summaryDates_NoDup mode cut logs : NoDup (summaryDates mode cut logs).
Proof.
  unfold summaryDates.
  assert (Hnd : NoDup (merge_sort String.le (map_to_list logs).*1)).
  { rewrite merge_sort_Permutation. apply NoDup_fst_map_to_list. }
  destruct mode; [|done]. by apply NoDup_List_filter.
Qed.

End SummaryFacts.

(** The statistics of the History page account for every stored day of the
    range once: it is a future day, a counted day or, when the excluded
    days are left out, an excluded day that is not in the future.  The
    range holds each stored date once, from [cut] on in the mode [recent].
    The days with a core task left undone are at most the counted days, and
    with no counted day the average and that number are 0. *)
Theorem summary_accounts (mode : History.Mode) (cut today : DayISO)
    (logs : gmap string DayLog) (tasks : list Task) (includeExcluded : bool) :
  let r := summary mode cut today logs tasks includeExcluded in
  let dates := summaryDates mode cut logs in
  let excludedPast :=
    Z.of_nat (length (List.filter
                        (fun d => negb (isFutureDay d today) && excludedDay logs d)
                        dates)) in
  NoDup dates
  /\ (forall d, d ∈ dates
        <-> is_Some (logs !! d)
            /\ (mode = History.recent -> String.leb cut d = true))
  /\ History.futureDays r + History.count r
     + (if includeExcluded then 0 else excludedPast)
     = Z.of_nat (length dates)
  /\ History.excludedDays r
     = Z.of_nat (length (List.filter (excludedDay logs) dates))
  /\ 0 <= History.coreMissDays r <= History.count r
  /\ (History.count r = 0 ->
      History.avg r = 0%Q /\ History.coreMissDays r = 0).
Proof.
  intros r dates excludedPast.
  split; [apply summaryDates_NoDup|].
  split; [intros d; apply summaryDates_elem|].
  pose proof (filter_length_split (fun d => isFutureDay d today) dates) as Hfuture.
  pose proof (filter_length_split (fun d => excludedDay logs d)
                (List.filter (fun d => negb (isFutureDay d today)) dates)) as Hexcl.
  rewrite !filter_filter_and in Hexcl. cbv beta in Hfuture, Hexcl.
  subst r excludedPast. unfold summary. fold dates. unfold DayISO in *.
  set (past := List.filter (fun d => negb (isFutureDay d today)) dates) in *.
  destruct includeExcluded; cbn [negb].
  - destruct (length past =? 0)%nat eqn:E;
      cbn [History.futureDays History.count History.coreMissDays
           History.excludedDays History.avg].
    + apply Nat.eqb_eq in E. repeat split; try done; lia.
    + apply Nat.eqb_neq in E.
      pose proof (addDay_miss_bounds logs tasks past (0%Q, 0)) as Hb.
      cbn [snd] in Hb. unfold DayISO in Hb.
      split; [lia|]. split; [done|]. split; [lia|]. intros Hz. exfalso. lia.
  - unfold past. rewrite filter_filter_and.
    set (counted := List.filter
                      (fun d => negb (isFutureDay d today) && negb (excludedDay logs d))
                      dates) in *.
    destruct (length counted =? 0)%nat eqn:E;
      cbn [History.futureDays History.count History.coreMissDays
           History.excludedDays History.avg].
    + apply Nat.eqb_eq in E. repeat split; try done; lia.
    + apply Nat.eqb_neq in E.
      pose proof (addDay_miss_bounds logs tasks counted (0%Q, 0)) as Hb.
      cbn [snd] in Hb. unfold DayISO in Hb.
      split; [lia|]. split; [done|]. split; [lia|]. intros Hz. exfalso. lia.
Qed.

(** A week with a counted day, an excluded day and a day to come. *)
Example summary_of_three_days :
  let logs : gmap string DayLog :=
    <["2024-01-15" := coreOnlyDay]>
      (<["2024-01-16" := {| date := "2024-01-16"; checks := ∅; note := Some "trip";
                            excludeFromStats := Some true;
                            createdAt := None; updatedAt := None |}]>
         (<["2024-01-20" := legacyLog "2024-01-20"]>
            (<["2023-12-31" := coreOnlyDay]> ∅))) in
  let r := summary History.recent "2024-01-10" "2024-01-17" logs seedTasks false in
  History.count r = 1 /\ History.excludedDays r = 1 /\ History.futureDays r = 1
  /\ History.coreMissDays r = 0 /\ (History.avg r == 100)%Q.
Proof. vm_compute. repeat split. Qed.

(** ** Well-formed stores stay well formed *)

Section WellFormedKept.

Lemma wellFormedStore_keys st :
  wellFormedStore st
  <-> (forall l, st !! KEYS.dayLogsV1 <> Some (Json (JArray l)))
      /\ (forall month l, st !! v2Key month <> Some (Json (JArray l))).
Proof.
  split.
  - intros Hwf. split.
    + intros l H. by destruct (Hwf _ _ H) as [? _].
    + intros month l H. destruct (Hwf _ _ H) as [_ Hm].
      by rewrite (proj2 (monthOfKey_Some _ month) eq_refl) in Hm.
  - intros [Hlegacy Hshard] k l H. split.
    + intros ->. by apply (Hlegacy l).
    + destruct (monthOfKey k) as [month|] eqn:Hk; [|done].
      apply monthOfKey_Some in Hk as ->. by destruct (Hshard month l).
Qed.

Lemma wellFormedStore_insert_other st k v :
  k <> KEYS.dayLogsV1 -> monthOfKey k = None ->
  wellFormedStore st -> wellFormedStore (<[k := v]> st).
Proof.
  intros Hk Hm Hwf k' l H. apply lookup_insert_Some in H as [[<- _]|[_ H]].
  - done.
  - by apply (Hwf k' l).
Qed.

Lemma wellFormedStore_migrate w :
  wellFormedStore (localStorage w) ->
  wellFormedStore (localStorage (exec migrateV1ToV2IfNeeded w)).
Proof.
  intros Hwf. destruct (migratedOnce w) eqn:Hl; [by rewrite migrate_id_latched|].
  destruct (migratable (localStorage w)) as [[rawText v1]|] eqn:Hm;
    [|by rewrite (migrate_nothing w Hl Hm)].
  apply wellFormedStore_keys. apply wellFormedStore_keys in Hwf as [_ Hshard].
  split.
  - intros l. by rewrite (migrate_legacy_removed w _ _ Hl Hm).
  - intros month l. rewrite (migrate_lookup_shard w _ _ Hl Hm).
    destruct (bucketByMonth (asDayLogMap v1) !! month); [done | apply Hshard].
Qed.

End WellFormedKept.

(** The storage operations keep a store well formed: none of them leaves a
    JSON array under the legacy key or under a month-shard key. *)
Theorem wellFormedStore_kept (w : World) :
  wellFormedStore (localStorage w) ->
  wellFormedStore (localStorage (exec migrateV1ToV2IfNeeded w))
  /\ (forall d, wellFormedStore (localStorage (exec (getDayLog d) w)))
  /\ (forall log now, wellFormedStore (localStorage (exec (upsertDayLog log now) w)))
  /\ (forall d, wellFormedStore (localStorage (exec (deleteDayLog d) w)))
  /\ (forall d cs nt excl now,
        wellFormedStore (localStorage (exec (persistDayLog d cs nt excl now) w)))
  /\ wellFormedStore (localStorage (exec loadDayLogMap w))
  /\ (forall map, wellFormedStore (localStorage (exec (saveDayLogMap map) w)))
  /\ wellFormedStore (localStorage (exec listAvailableMonths w))
  /\ (forall tasks, wellFormedStore (localStorage (exec (saveTasks tasks) w)))
  /\ wellFormedStore (localStorage (exec loadTasks w)).
Proof.
  intros Hwf. pose proof (wellFormedStore_migrate w Hwf) as Hmig.
  assert (Hup : forall log now,
            wellFormedStore (localStorage (exec (upsertDayLog log now) w))).
  { intros log now. rewrite exec_upsertDayLog. cbn [localStorage].
    by apply wellFormedStore_insert_object. }
  assert (Hdel : forall d, wellFormedStore (localStorage (exec (deleteDayLog d) w))).
  { intros d. rewrite exec_deleteDayLog.
    destruct (monthMapOf _ (toMonthISO d) !! d); [|exact Hmig].
    cbn [localStorage]. by apply wellFormedStore_insert_object. }
  split; [exact Hmig|].
  split; [intros d; by rewrite exec_getDayLog|].
  split; [exact Hup|]. split; [exact Hdel|].
  split.
  { intros d cs nt excl now. unfold persistDayLog.
    destruct (isEmptyDayLog _ _ _); [apply Hdel | apply Hup]. }
  split.
  { unfold exec at 1. by rewrite loadDayLogMap_run. }
  split.
  { intros map k l. rewrite saveDayLogMap_lookup.
    destruct (monthOfKey k ≫= _); [done | apply Hmig]. }
  split.
  { unfold exec at 1. rewrite listAvailableMonths_run.
    destruct (listV2Months_spec (exec migrateV1ToV2IfNeeded w)) as (He & _).
    unfold exec at 1 in He. by rewrite He. }
  split.
  { intros tasks. unfold exec. rewrite saveTasks_run. cbn [snd localStorage].
    by apply wellFormedStore_insert_other. }
  unfold exec. rewrite loadTasks_run. cbn [snd].
  destruct (normalizeTasks _).2; [|exact Hwf].
  cbn [localStorage]. by apply wellFormedStore_insert_other.
Qed.

Lemma wellFormedStore_kept_witness :
  wellFormedStore (localStorage (exec (upsertDayLog coreOnlyDay 5000) legacyWorld)).
Proof.
  exact (proj1 (proj2 (proj2 (wellFormedStore_kept legacyWorld
                                wellFormedStore_legacy)))
           coreOnlyDay 5000).
Defined.
